(** * SimParams concurrency validation and benchmark scripts of gnpy's
    tutorial prototype: a shallow embedding and its verified properties.

    Sources embedded here:
    - [tutorial_prototype/test_concurrency.py]: [_run_single_simulation],
      [_process_worker], [test_process_pool_isolation], [_thread_worker],
      [test_deep_copy_thread_local], [main];
    - [tutorial_prototype/benchmark.py]: [_find_transceivers], [_time_it],
      [benchmark_network], [_fmt], [main];
    - [tutorial_prototype/app.py]: [_element_type_name],
      [_get_transceivers], the counting loop of [tutorial_1] and the
      endpoint options of [tutorial_2] and [tutorial_3].

    The gnpy engine ([load_equipments_and_configs], [load_network],
    [designed_network], [transmission_simulation], [SimParams.set_params])
    is not part of these files.  It is taken as an interface ([Engine]):
    every definition and theorem below holds for every engine.

    Modelling choices:
    - Python floats are exact rationals plus NaN ([pyfloat]); rounding and
      infinities are outside the model.
    - A call returns, raises an instance of [Exception], or never returns
      ([outcome]); wall-clock time is not modelled.
    - Threads interleave between the steps of [_thread_worker] ([tstep]),
      in any order ([run_sched]); a call into the engine is one step.
    - Inside a thread batch dictionaries have an address, so that
      [deepcopy], in-place change and rebinding of
      [SimParams._shared_dict] differ as they do in Python ([Shared]).
    - Of the printed report only the fixed part of the verdict lines is
      kept; the timing lines are left out. *)

From Stdlib Require Import QArith Qabs ZArith Lia.
From stdpp Require Import functions gmap strings list sorting.

Open Scope string_scope.
Open Scope list_scope.

(** ** Python values *)

(** A float: a finite value or NaN. *)
Inductive pyfloat : Type :=
| Finite (q : Q)
| NaN.

(** Python's [a == b] on floats: NaN is equal to nothing, itself included. *)
Definition float_eq (a b : pyfloat) : bool :=
  match a, b with
  | Finite x, Finite y => Qeq_bool x y
  | _, _ => false
  end.

(** The values stored in the result dictionaries. *)
Inductive pyval : Type :=
| VFloat (f : pyfloat)
| VList (l : list pyfloat)
| VStr (s : string).

(** A dictionary with string keys, e.g. [{'avg_gsnr': ..., ...}]. *)
Abbreviation pydict := (gmap string pyval).

(** An instance of Python's [Exception]: its class name and [str(e)]. *)
Inductive exn : Type :=
| Exn (cls : string) (msg : string).

Definition exn_str (e : exn) : string :=
  match e with Exn _ msg => msg end.

(** What a call does: it returns a value, raises an [Exception], or never
    returns. *)
Inductive outcome (A : Type) : Type :=
| Ok (a : A)
| Raise (e : exn)
| Hang.
Arguments Ok {A} a.
Arguments Raise {A} e.
Arguments Hang {A}.

Definition IndexError : exn := Exn "IndexError" "list index out of range".
Definition KeyError (k : string) : exn := Exn "KeyError" k.
Definition TypeError : exn := Exn "TypeError" "unsupported operand type".
Definition ValueError : exn :=
  Exn "ValueError" "operands could not be broadcast together".
Definition StatisticsError : exn :=
  Exn "StatisticsError" "mean requires at least one data point".

(** [l[i]] *)
Definition getitem_list {A} (l : list A) (i : nat) : outcome A :=
  match l !! i with
  | Some x => Ok x
  | None => Raise IndexError
  end.

(** [l[-1]] *)
Definition getitem_last {A} (l : list A) : outcome A :=
  match last l with
  | Some x => Ok x
  | None => Raise IndexError
  end.

(** [d[k]] *)
Definition getitem (d : pydict) (k : string) : outcome pyval :=
  match d !! k with
  | Some v => Ok v
  | None => Raise (KeyError k)
  end.

(** [k in d] *)
Definition contains (d : pydict) (k : string) : bool :=
  bool_decide (is_Some (d !! k)).

(** ** numpy *)

Definition Qsum (l : list Q) : Q := foldr Qplus 0%Q l.

(** The finite values of a list, or [None] when one entry is NaN. *)
Fixpoint finite_values (l : list pyfloat) : option (list Q) :=
  match l with
  | [] => Some []
  | Finite q :: l' => option_map (cons q) (finite_values l')
  | NaN :: _ => None
  end.

(** The arithmetic mean of a non-empty list; NaN when an entry is NaN. *)
Definition mean_of (l : list pyfloat) : pyfloat :=
  match finite_values l with
  | Some qs => Finite (Qsum qs / inject_Z (Z.of_nat (length qs)))
  | None => NaN
  end.

(** [numpy.mean]: NaN for an empty array (numpy only warns). *)
Definition np_mean (l : list pyfloat) : pyfloat :=
  match l with
  | [] => NaN
  | _ :: _ => mean_of l
  end.

(** numpy's default relative tolerance, [rtol=1e-05]. *)
Definition default_rtol : Q := 1 # 100000.

(** [numpy.isclose] on one pair, [equal_nan=False]:
    [abs(a - b) <= atol + rtol * abs(b)], false when either side is NaN. *)
Definition isclose (atol rtol : Q) (a b : pyfloat) : bool :=
  match a, b with
  | Finite x, Finite y => Qle_bool (Qabs (x - y)) (atol + rtol * Qabs y)
  | _, _ => false
  end.

(** numpy broadcasting of two one-dimensional arrays: equal lengths pair up
    elementwise, a length-one array is repeated, anything else is refused. *)
Definition broadcast (a b : list pyfloat) : option (list (pyfloat * pyfloat)) :=
  if (length a =? length b)%nat then Some (zip a b)
  else match a, b with
       | [x], _ => Some (map (pair x) b)
       | _, [y] => Some (map (fun x => (x, y)) a)
       | _, _ => None
       end.

(** An argument of [allclose] as an array: a float is a scalar (it
    broadcasts like a length-one array), a string is refused. *)
Definition as_array (v : pyval) : outcome (list pyfloat) :=
  match v with
  | VList l => Ok l
  | VFloat f => Ok [f]
  | VStr _ => Raise TypeError
  end.

(** [numpy.allclose(a, b, atol=atol)] with the default [rtol]. *)
Definition allclose (a b : pyval) (atol : Q) : outcome bool :=
  match as_array a with
  | Ok xs =>
      match as_array b with
      | Ok ys =>
          match broadcast xs ys with
          | Some ps => Ok (forallb (fun p => isclose atol default_rtol p.1 p.2) ps)
          | None => Raise ValueError
          end
      | Raise e => Raise e
      | Hang => Hang
      end
  | Raise e => Raise e
  | Hang => Hang
  end.

(** ** Calls that return, raise or hang, over a mutable state *)

(** A computation over a state of type [S]: the outcome and the state it
    leaves.  After [Hang] the state is what the rest of the process sees. *)
Definition ST (S A : Type) : Type := S -> outcome A * S.

Definition ret {S A} (a : A) : ST S A := fun s => (Ok a, s).

Definition bind {S A B} (c : ST S A) (k : A -> ST S B) : ST S B :=
  fun s =>
    match c s with
    | (Ok a, s') => k a s'
    | (Raise e, s') => (Raise e, s')
    | (Hang, s') => (Hang, s')
    end.

Notation "x <- c ;; k" := (bind c (fun x => k))
  (at level 100, c at next level, right associativity).

(** A call that does not touch the state. *)
Definition lift {S A} (o : outcome A) : ST S A := fun s => (o, s).

(** [try: c except Exception as e: h e].  A call that hangs is not caught. *)
Definition try_except {S A} (c : ST S A) (h : exn -> ST S A) : ST S A :=
  fun s =>
    match c s with
    | (Raise e, s') => h e s'
    | r => r
    end.

(** [for x in l: body x], collecting what the bodies return. *)
Fixpoint for_each {S A B} (body : A -> ST S B) (l : list A) : ST S (list B) :=
  match l with
  | [] => ret []
  | x :: l' => y <- body x ;; ys <- for_each body l' ;; ret (y :: ys)
  end.

(** ** The gnpy engine, as the scripts see it *)

(** A network node: its [uid] and whether it is a [Transceiver]. *)
Record Node : Type := { uid : string; is_transceiver : bool }.

(** A path element; of the destination the scripts read [snr] and
    [osnr_ase]. *)
Record Element : Type := { snr : list pyfloat; osnr_ase : list pyfloat }.

(** [Store] is the value of [SimParams._shared_dict], the process-wide
    configuration the engine reads.  [set_params] replaces or updates it;
    [designed_network] and [transmission_simulation] read it and may change
    it.  The two loaders read files only. *)
Class Engine : Type := {
  Equipment : Type;
  Network : Type;
  Request : Type;
  Settings : Type;
  Store : Type;
  empty_settings : Settings;
  load_json : string -> outcome Settings;
  load_equipments_and_configs : string -> outcome Equipment;
  load_network : string -> Equipment -> outcome Network;
  nodes : Network -> list Node;
  set_params : Settings -> Store -> Store;
  designed_network :
    Equipment -> Network -> string -> string -> option Q ->
    ST Store (Network * Request * Request);
  transmission_simulation :
    Equipment -> Network -> Request -> Request -> ST Store (list Element);
}.

(** The pieces of the Python runtime the benchmark relies on: the readings
    of [time.perf_counter] (the [k]-th call returns [perf_counter k]),
    [math.sqrt] behind [statistics.stdev], and the [%w.pf] conversion. *)
Class Runtime : Type := {
  perf_counter : nat -> Q;
  py_sqrt : Q -> Q;
  format_f : nat -> nat -> pyfloat -> string;
}.

(** [{'topology': ..., 'equipment': ...}] *)
Record Config : Type := { topology : string; equipment : string }.

(** [NUM_WORKERS = 4] *)
Definition NUM_WORKERS : nat := 4.

(** [[-2.0, -1.0, 0.0, 1.0][:NUM_WORKERS]] *)
Definition powers : list Q := take NUM_WORKERS [-2; -1; 0; 1]%Q.

(** The dictionary [_run_single_simulation] returns and [_thread_worker]
    records. *)
Definition result_dict (dest : Element) : pydict :=
  <["avg_gsnr" := VFloat (np_mean (snr dest))]>
  (<["avg_osnr" := VFloat (np_mean (osnr_ase dest))]>
  (<["gsnr_values" := VList (snr dest)]>
  (<["osnr_values" := VList (osnr_ase dest)]> ∅))).

(** [{'error': str(e)}] *)
Definition error_dict (e : exn) : pydict :=
  <["error" := VStr (exn_str e)]> ∅.

Section Simulation.
Context {E : Engine}.

(** [[n.uid for n in network.nodes() if isinstance(n, Transceiver)]] *)
Definition _find_transceivers (network : Network) : list string :=
  map uid (List.filter is_transceiver (nodes network)).

(** [_run_single_simulation(config, power_dbm=None)] *)
Definition _run_single_simulation (config : Config) (power_dbm : option Q)
  : ST Store pydict :=
  equipment' <- lift (load_equipments_and_configs (equipment config)) ;;
  network <- lift (load_network (topology config) equipment') ;;
  _ <- (fun s => (Ok tt, set_params empty_settings s)) ;;
  let trxs := _find_transceivers network in
  source <- lift (getitem_list trxs 0) ;;
  destination <- lift (getitem_list trxs 1) ;;
  designed <-
    designed_network equipment' network source destination power_dbm ;;
  let '(network', req, ref_req) := designed in
  path <- transmission_simulation equipment' network' req ref_req ;;
  dest <- lift (getitem_last path) ;;
  ret (result_dict dest).

(** [_process_worker(args)] *)
Definition _process_worker (args : Config * option Q) : ST Store pydict :=
  let '(config, power_dbm) := args in
  _run_single_simulation config power_dbm.

(** *** The coordinating process *)

(** What the coordinating process holds: [SimParams._shared_dict], the lines
    printed so far and the number of clock readings taken. *)
Record World : Type := {
  shared_dict : Store;
  stdout : list string;
  ticks : nat;
}.

(** Run an engine call on the process's store. *)
Definition on_store {A} (c : ST Store A) : ST World A :=
  fun w =>
    let (o, s') := c (shared_dict w) in
    (o, {| shared_dict := s'; stdout := stdout w; ticks := ticks w |}).

(** [print(line)]; the numeric fields of the report lines are left out. *)
Definition print (line : string) : ST World unit :=
  fun w =>
    (Ok tt, {| shared_dict := shared_dict w;
               stdout := stdout w ++ [line];
               ticks := ticks w |}).

(** [_get_edfa_config()] *)
Definition _get_edfa_config : Config :=
  {| topology := "gnpy/example-data/edfa_example_network.json";
     equipment := "gnpy/example-data/eqpt_config.json" |}.

(** [pool.map(_process_worker, tasks)] on a pool of spawned processes.
    Each task runs on the private store of the process that takes it
    ([ws i] for task [i]); nothing it does reaches the coordinator's store.
    The call returns once every task has returned, and re-raises an
    exception of a task; it takes no timeout. *)
Fixpoint pool_map (ws : nat -> Store) (i : nat)
    (tasks : list (Config * option Q)) : outcome (list pydict) :=
  match tasks with
  | [] => Ok []
  | t :: ts =>
      match (_process_worker t (ws i)).1, pool_map ws (S i) ts with
      | Hang, _ => Hang
      | _, Hang => Hang
      | Raise e, _ => Raise e
      | Ok _, Raise e => Raise e
      | Ok r, Ok rs => Ok (r :: rs)
      end
  end.

(** [atol=1e-6] and [atol=1e-4] *)
Definition atol_process : Q := 1 # 1000000.
Definition atol_thread : Q := 1 # 10000.

(** [allclose(result[key], reference[key], atol=atol)] *)
Definition series_match {S} (key : string) (atol : Q)
    (result reference : pydict) : ST S bool :=
  a <- lift (getitem result key) ;;
  b <- lift (getitem reference key) ;;
  lift (allclose a b atol).

(** The body of the first verification loop of
    [test_process_pool_isolation]: the PASS/FAIL status of one worker. *)
Definition process_same_status (reference result : pydict) : ST World bool :=
  gsnr_match <- series_match "gsnr_values" atol_process result reference ;;
  osnr_match <- series_match "osnr_values" atol_process result reference ;;
  let status := gsnr_match && osnr_match in
  _ <- lift (getitem result "avg_gsnr") ;;
  _ <- lift (getitem result "avg_osnr") ;;
  _ <- print (if status then "Worker: [PASS]" else "Worker: [FAIL]") ;;
  ret status.

(** A dictionary entry read as a float. *)
Definition as_float (v : pyval) : outcome pyfloat :=
  match v with
  | VFloat f => Ok f
  | _ => Raise TypeError
  end.

(** [abs(g - g0) < tol] on floats: false when either is NaN. *)
Definition abs_diff_lt (g g0 : pyfloat) (tol : Q) : bool :=
  match g, g0 with
  | Finite x, Finite y => negb (Qle_bool tol (Qabs (x - y)))
  | _, _ => false
  end.

(** [all(abs(g - gsnr_vals[0]) < 1e-6 for g in gsnr_vals)] *)
Definition all_same (gsnr_vals : list pyfloat) : bool :=
  match gsnr_vals with
  | [] => true
  | g0 :: _ => forallb (fun g => abs_diff_lt g g0 atol_process) gsnr_vals
  end.

(** The body of the second verification loop of
    [test_process_pool_isolation]: does worker [i] match its reference? *)
Definition process_diff_status (pair : pydict * pydict) : ST World bool :=
  let '(result, ref) := pair in
  gsnr_match <- series_match "gsnr_values" atol_process result ref ;;
  if gsnr_match then ret true
  else
    _ <- lift (getitem result "avg_gsnr") ;;
    _ <- lift (getitem ref "avg_gsnr") ;;
    _ <- print "Worker: MISMATCH" ;;
    ret false.

(** The sequential reference runs, one per power:
    [for p in powers: ref = _run_single_simulation(config, power_dbm=p)]. *)
Definition reference_runs (config : Config) (ps : list Q)
  : ST World (list pydict) :=
  for_each (fun p => on_store (_run_single_simulation config (Some p))) ps.

(** [pool.map] inside [try: ... except Exception as e:], where the handler
    prints and the function returns [False]: [None] stands for that
    return. *)
Definition guarded_pool_map (ws : nat -> Store)
    (tasks : list (Config * option Q)) : ST World (option (list pydict)) :=
  try_except
    (results <- lift (pool_map ws 0 tasks) ;; ret (Some results))
    (fun e => _ <- print "FAILED" ;; ret None).

(** [test_process_pool_isolation()].  [ws] and [ws_diff] are the stores of
    the pool processes of the two batches.  The timing lines are left
    out. *)
Definition test_process_pool_isolation (ws ws_diff : nat -> Store)
  : ST World bool :=
  let config := _get_edfa_config in
  reference <- on_store (_run_single_simulation config None) ;;
  _ <- lift (getitem reference "avg_gsnr") ;;
  let tasks := replicate NUM_WORKERS (config, None) in
  pooled <- guarded_pool_map ws tasks ;;
  match pooled with
  | None => ret false
  | Some results =>
      statuses <- for_each (process_same_status reference) results ;;
      let all_match := forallb id statuses in
      let tasks_diff := map (fun p => (config, Some p)) powers in
      pooled_diff <- guarded_pool_map ws_diff tasks_diff ;;
      match pooled_diff with
      | None => ret false
      | Some results_diff =>
          gsnr_vals <-
            for_each
              (fun r => v <- lift (getitem r "avg_gsnr") ;; lift (as_float v))
              results_diff ;;
          _ <- (if all_same gsnr_vals
                then print "WARNING: All power levels produced identical GSNR"
                else print "Different powers produced different GSNR values") ;;
          references_diff <- reference_runs config powers ;;
          matches <-
            for_each process_diff_status (zip results_diff references_diff) ;;
          let diff_match := forallb id matches in
          _ <- (if diff_match
                then print "All concurrent results match references."
                else ret tt) ;;
          let overall := all_match && diff_match in
          _ <- print (if overall then "APPROACH 1 RESULT: PASS"
                      else "APPROACH 1 RESULT: FAIL") ;;
          ret overall
      end
  end.

(** *** Threads sharing one address space *)

(** What a thread does to the shared state, as seen by the others.  The
    events on [SimParams._shared_dict] carry the value observed: the value
    copied by the backup, the value found by the reset, and the value the
    attribute refers to once restored. *)
Inductive event : Type :=
| EvBackup (saved : Store)
| EvSetParams (before : Store)
| EvAcquire
| EvStore (index : nat) (entry : pydict)
| EvRelease
| EvRestore (restored : Store).

(** The state all threads of a batch share.  Dictionaries are objects with
    an address: [objects] gives the value of each and [next_object] is the
    first address not in use.  [SimParams_shared_dict] is the address the
    class attribute [SimParams._shared_dict] refers to, [results_dict] the
    result registry, [lock] the owner of the lock if it is held, and
    [trace] the history of events, each with the thread that caused it. *)
Record Shared : Type := {
  objects : nat -> Store;
  next_object : nat;
  SimParams_shared_dict : nat;
  results_dict : gmap nat pydict;
  lock : option nat;
  trace : list (nat * event);
}.

(** The value of the dictionary [SimParams._shared_dict] refers to. *)
Definition shared_value (g : Shared) : Store :=
  objects g (SimParams_shared_dict g).

(** The arguments [(config, power_dbm, results_dict, index, lock)] of
    [_thread_worker]; the registry and the lock are the shared ones. *)
Record targs : Type := {
  t_config : Config;
  t_power : option Q;
  t_index : nat;
}.

(** Where a [_thread_worker] call stands.  Each point is one step that
    other threads cannot interleave with: a call into the engine, a
    statement on the shared state, or the lock. *)
Inductive tpc : Type :=
| PLoadEquipment
| PLoadNetwork (eq : Equipment)
| PBackup (eq : Equipment) (net : Network)
| PSetParams (eq : Equipment) (net : Network)
| PDesign (eq : Equipment) (net : Network)
| PSimulate (eq : Equipment) (net : Network) (req ref_req : Request)
| PAcquire (entry : pydict)
| PStore (entry : pydict)
| PRelease
| PFinally
| PDone.

(** A thread's private state: its program point and the attribute
    [_thread_local.sim_params_backup], the address of the thread's copy
    ([None] while the attribute is not set). *)
Record tlocal : Type := {
  pc : tpc;
  sim_params_backup : option nat;
}.

Definition goto (l : tlocal) (p : tpc) : tlocal :=
  {| pc := p; sim_params_backup := sim_params_backup l |}.

Definition emit (t : nat) (ev : event) (g : Shared) : Shared :=
  {| objects := objects g;
     next_object := next_object g;
     SimParams_shared_dict := SimParams_shared_dict g;
     results_dict := results_dict g;
     lock := lock g;
     trace := trace g ++ [(t, ev)] |}.

(** The engine changes the dictionary [SimParams._shared_dict] refers to
    in place, as [set_params] does by item assignment: the object keeps
    its address and every reference to it sees the new value. *)
Definition mutate (s : Store) (g : Shared) : Shared :=
  {| objects := <[SimParams_shared_dict g := s]> (objects g);
     next_object := next_object g;
     SimParams_shared_dict := SimParams_shared_dict g;
     results_dict := results_dict g;
     lock := lock g;
     trace := trace g |}.

(** [deepcopy(SimParams._shared_dict)]: a new object, at an address not
    in use, with the value of the shared one. *)
Definition deepcopy (g : Shared) : nat * Shared :=
  (next_object g,
   {| objects := <[next_object g := shared_value g]> (objects g);
      next_object := S (next_object g);
      SimParams_shared_dict := SimParams_shared_dict g;
      results_dict := results_dict g;
      lock := lock g;
      trace := trace g |}).

(** [SimParams._shared_dict = obj]: the attribute refers to another
    object; no object changes. *)
Definition rebind (addr : nat) (g : Shared) : Shared :=
  {| objects := objects g;
     next_object := next_object g;
     SimParams_shared_dict := addr;
     results_dict := results_dict g;
     lock := lock g;
     trace := trace g |}.

Definition with_lock (o : option nat) (g : Shared) : Shared :=
  {| objects := objects g;
     next_object := next_object g;
     SimParams_shared_dict := SimParams_shared_dict g;
     results_dict := results_dict g;
     lock := o;
     trace := trace g |}.

Definition with_result (i : nat) (d : pydict) (g : Shared) : Shared :=
  {| objects := objects g;
     next_object := next_object g;
     SimParams_shared_dict := SimParams_shared_dict g;
     results_dict := <[i := d]> (results_dict g);
     lock := lock g;
     trace := trace g |}.

(** Where an exception raised in the [try] body leads: the handler
    [except Exception as e: with lock: results_dict[index] = {'error': str(e)}]. *)
Definition handler (e : exn) : tpc := PAcquire (error_dict e).

(** One step of thread [t] running [_thread_worker] with arguments [a].
    [None]: the thread cannot move (the lock is held by another thread, an
    engine call does not return, or the call has finished). *)
Definition tstep (a : targs) (t : nat) (g : Shared) (l : tlocal)
  : option (Shared * tlocal) :=
  match pc l with
  | PLoadEquipment =>
      match load_equipments_and_configs (equipment (t_config a)) with
      | Ok eq => Some (g, goto l (PLoadNetwork eq))
      | Raise e => Some (g, goto l (handler e))
      | Hang => None
      end
  | PLoadNetwork eq =>
      match load_network (topology (t_config a)) eq with
      | Ok net => Some (g, goto l (PBackup eq net))
      | Raise e => Some (g, goto l (handler e))
      | Hang => None
      end
  | PBackup eq net =>
      (* _thread_local.sim_params_backup = deepcopy(SimParams._shared_dict) *)
      let (addr, g') := deepcopy g in
      Some (emit t (EvBackup (shared_value g)) g',
            {| pc := PSetParams eq net; sim_params_backup := Some addr |})
  | PSetParams eq net =>
      (* SimParams.set_params({}) *)
      let before := shared_value g in
      Some (emit t (EvSetParams before)
              (mutate (set_params empty_settings before) g),
            goto l (PDesign eq net))
  | PDesign eq net =>
      let trxs := _find_transceivers net in
      match getitem_list trxs 0, getitem_list trxs 1 with
      | Ok source, Ok destination =>
          match designed_network eq net source destination (t_power a)
                  (shared_value g) with
          | (Ok (net', req, ref_req), s') =>
              Some (mutate s' g, goto l (PSimulate eq net' req ref_req))
          | (Raise e, s') => Some (mutate s' g, goto l (handler e))
          | (Hang, _) => None
          end
      | Raise e, _ => Some (g, goto l (handler e))
      | _, Raise e => Some (g, goto l (handler e))
      | _, _ => None
      end
  | PSimulate eq net req ref_req =>
      match transmission_simulation eq net req ref_req (shared_value g) with
      | (Ok path, s') =>
          match getitem_last path with
          | Ok dest => Some (mutate s' g, goto l (PAcquire (result_dict dest)))
          | Raise e => Some (mutate s' g, goto l (handler e))
          | Hang => None
          end
      | (Raise e, s') => Some (mutate s' g, goto l (handler e))
      | (Hang, _) => None
      end
  | PAcquire entry =>
      (* with lock: *)
      match lock g with
      | None => Some (emit t EvAcquire (with_lock (Some t) g), goto l (PStore entry))
      | Some _ => None
      end
  | PStore entry =>
      (* results_dict[index] = entry *)
      Some (emit t (EvStore (t_index a) entry) (with_result (t_index a) entry g),
            goto l PRelease)
  | PRelease =>
      Some (emit t EvRelease (with_lock None g), goto l PFinally)
  | PFinally =>
      (* if hasattr(_thread_local, 'sim_params_backup'):
             SimParams._shared_dict = _thread_local.sim_params_backup *)
      match sim_params_backup l with
      | Some addr =>
          let g' := rebind addr g in
          Some (emit t (EvRestore (shared_value g')) g', goto l PDone)
      | None => Some (g, goto l PDone)
      end
  | PDone => None
  end.

(** A batch: the shared state and the threads, with their arguments. *)
Record System : Type := {
  shared : Shared;
  threads : list (targs * tlocal);
}.

(** The scheduler lets thread [t] take one step; nothing changes when the
    thread cannot move or does not exist. *)
Definition sched_step (sys : System) (t : nat) : System :=
  match threads sys !! t with
  | Some (a, l) =>
      match tstep a t (shared sys) l with
      | Some (g', l') => {| shared := g'; threads := <[t := (a, l')]> (threads sys) |}
      | None => sys
      end
  | None => sys
  end.

(** A schedule is the sequence of threads the scheduler picks. *)
Definition run_sched (sched : list nat) (sys : System) : System :=
  fold_left sched_step sched sys.

Definition is_done (p : tpc) : bool :=
  match p with PDone => true | _ => false end.

(** [for t in threads: t.join()] returns when every thread has finished;
    [join] takes no timeout. *)
Definition all_done (sys : System) : bool :=
  forallb (fun th => is_done (pc th.2)) (threads sys).

(** A thread that has just been started: nothing is in its
    [threading.local] storage. *)
Definition fresh_thread : tlocal := {| pc := PLoadEquipment; sim_params_backup := None |}.

(** [threading.Thread(target=_thread_worker, args=(config, p, results_dict, i, lock))]
    for [i, p in enumerate(ps)], on an empty registry. *)
Definition spawn (config : Config) (ps : list (option Q)) : list (targs * tlocal) :=
  imap (fun i p => ({| t_config := config; t_power := p; t_index := i |}, fresh_thread)) ps.

(** The shared state when a batch starts: the shared dictionary, with
    value [s], is the only object. *)
Definition initial_shared (s : Store) : Shared :=
  {| objects := fun _ => s; next_object := 1; SimParams_shared_dict := 0;
     results_dict := ∅; lock := None; trace := [] |}.

Definition batch (config : Config) (ps : list (option Q)) (s : Store) : System :=
  {| shared := initial_shared s; threads := spawn config ps |}.

(** Start the threads of a batch, let them run as [sched] says, and join
    them.  [Hang] stands for a coordinator still blocked in [join] when the
    schedule ends. *)
Definition run_threads (sched : list nat) (config : Config)
    (ps : list (option Q)) : ST World (gmap nat pydict) :=
  fun w =>
    let sys := run_sched sched (batch config ps (shared_dict w)) in
    let w' := {| shared_dict := shared_value (shared sys);
                 stdout := stdout w; ticks := ticks w |} in
    if all_done sys then (Ok (results_dict (shared sys)), w') else (Hang, w').

(** The body of the first verification loop of
    [test_deep_copy_thread_local]: the status of thread [i]. *)
Definition thread_same_status (reference : pydict) (result : option pydict)
  : ST World bool :=
  match result with
  | None => _ <- print "Thread: NO RESULT" ;; ret false
  | Some result =>
      if contains result "error" then
        _ <- lift (getitem result "error") ;;
        _ <- print "Thread: ERROR" ;; ret false
      else
        gsnr_match <- series_match "gsnr_values" atol_thread result reference ;;
        _ <- lift (getitem result "avg_gsnr") ;;
        _ <- print (if gsnr_match then "Thread: [PASS]" else "Thread: [FAIL]") ;;
        ret gsnr_match
  end.

(** The body of the second verification loop: thread [i] against
    [references_diff[i]]. *)
Definition thread_diff_status (references_diff : list pydict)
    (i : nat) (result : option pydict) : ST World bool :=
  match result with
  | None => _ <- print "Thread: ERROR - NO RESULT" ;; ret false
  | Some result =>
      if contains result "error" then
        _ <- print "Thread: ERROR" ;; ret false
      else
        ref <- lift (getitem_list references_diff i) ;;
        gsnr_match <- series_match "gsnr_values" atol_thread result ref ;;
        _ <- lift (getitem result "avg_gsnr") ;;
        _ <- lift (getitem ref "avg_gsnr") ;;
        _ <- print (if gsnr_match then "Thread: [PASS]"
                    else "Thread: [FAIL (race condition?)]") ;;
        ret gsnr_match
  end.

(** [test_deep_copy_thread_local()], with the schedules of its two
    batches.  The timing lines are left out. *)
Definition test_deep_copy_thread_local (sched sched_diff : list nat)
  : ST World bool :=
  let config := _get_edfa_config in
  reference <- on_store (_run_single_simulation config None) ;;
  _ <- lift (getitem reference "avg_gsnr") ;;
  results <- run_threads sched config (replicate NUM_WORKERS None) ;;
  statuses <-
    for_each (fun i => thread_same_status reference (results !! i))
      (seq 0 NUM_WORKERS) ;;
  let same_param_pass := forallb id statuses in
  results_diff <- run_threads sched_diff config (map Some powers) ;;
  references_diff <- reference_runs config powers ;;
  statuses_diff <-
    for_each (fun i => thread_diff_status references_diff i (results_diff !! i))
      (seq 0 NUM_WORKERS) ;;
  let diff_param_pass := forallb id statuses_diff in
  let overall := same_param_pass && diff_param_pass in
  _ <- (if overall then ret tt
        else print "NOTE: Thread-based approach may exhibit race conditions") ;;
  _ <- print (if overall then "APPROACH 2 RESULT: PASS"
              else "APPROACH 2 RESULT: FAIL") ;;
  ret overall.

End Simulation.

(** ** The benchmark script *)

(** An entry of [BENCHMARKS]. *)
Record BenchConfig : Type := {
  b_topology : string;
  b_equipment : string;
  b_sim_params : option string;
  b_source : option string;
  b_destination : option string;
}.

(** The dictionary of timing lists [benchmark_network] fills. *)
Record BenchResults : Type := {
  equipment_load : list pyfloat;
  network_load : list pyfloat;
  network_design : list pyfloat;
  transmission_sim : list pyfloat;
}.

(** [NUM_RUNS = 3] *)
Definition NUM_RUNS : nat := 3.

Definition no_results : BenchResults :=
  {| equipment_load := []; network_load := [];
     network_design := []; transmission_sim := [] |}.

(** [results['equipment_load'].append(t)] and its three siblings. *)
Definition append_equipment_load (t : pyfloat) (r : BenchResults) : BenchResults :=
  {| equipment_load := equipment_load r ++ [t]; network_load := network_load r;
     network_design := network_design r; transmission_sim := transmission_sim r |}.

Definition append_network_load (t : pyfloat) (r : BenchResults) : BenchResults :=
  {| equipment_load := equipment_load r; network_load := network_load r ++ [t];
     network_design := network_design r; transmission_sim := transmission_sim r |}.

Definition append_network_design (t : pyfloat) (r : BenchResults) : BenchResults :=
  {| equipment_load := equipment_load r; network_load := network_load r;
     network_design := network_design r ++ [t];
     transmission_sim := transmission_sim r |}.

Definition append_transmission_sim (t : pyfloat) (r : BenchResults) : BenchResults :=
  {| equipment_load := equipment_load r; network_load := network_load r;
     network_design := network_design r;
     transmission_sim := transmission_sim r ++ [t] |}.

(** [a or b] on an optional string: [None] and [''] are falsy. *)
Definition py_or (a : option string) (b : outcome string) : outcome string :=
  match a with
  | Some "" => b
  | Some s => Ok s
  | None => b
  end.

Section Benchmark.
Context {E : Engine} {R : Runtime}.

(** [time.perf_counter()] *)
Definition clock : ST World Q :=
  fun w =>
    (Ok (perf_counter (ticks w)),
     {| shared_dict := shared_dict w; stdout := stdout w; ticks := S (ticks w) |}).

(** [_time_it(func, *args, **kwargs)] *)
Definition _time_it {A} (func : ST World A) : ST World (A * pyfloat) :=
  start <- clock ;;
  result <- func ;;
  stop <- clock ;;
  ret (result, Finite (stop - start)).

(** The source and destination of a run, or [None] where
    [benchmark_network] prints its warning and returns the results. *)
Definition find_endpoints (config : BenchConfig) (network : Network)
  : ST World (option (string * string)) :=
  match b_source config, b_destination config with
  | Some source, Some destination => ret (Some (source, destination))
  | source, destination =>
      let trx_uids := _find_transceivers network in
      if (length trx_uids <? 2)%nat then
        _ <- print "WARNING: Not enough transceivers, skipping simulation." ;;
        ret None
      else
        source' <- lift (py_or source (getitem_list trx_uids 0)) ;;
        destination' <- lift (py_or destination (getitem_list trx_uids 1)) ;;
        ret (Some (source', destination'))
  end.

(** The loop [for run in range(NUM_RUNS)] of [benchmark_network], with
    [runs] iterations left and the timings gathered so far. *)
Fixpoint benchmark_runs (config : BenchConfig) (runs : nat)
    (results : BenchResults) : ST World BenchResults :=
  match runs with
  | O => ret results
  | S runs' =>
      (* Phase 1: Equipment load *)
      timed_eqpt <-
        _time_it (lift (load_equipments_and_configs (b_equipment config))) ;;
      let '(equipment', t_eqpt) := timed_eqpt in
      let results := append_equipment_load t_eqpt results in
      (* Phase 2: Network load *)
      timed_net <- _time_it (lift (load_network (b_topology config) equipment')) ;;
      let '(network, t_net) := timed_net in
      let results := append_network_load t_net results in
      (* Phase 3: Set SimParams *)
      sim_params <-
        match b_sim_params config with
        | Some file => lift (load_json file)
        | None => ret empty_settings
        end ;;
      _ <- on_store (fun s => (Ok tt, set_params sim_params s)) ;;
      (* Find source/destination *)
      endpoints <- find_endpoints config network ;;
      match endpoints with
      | None => ret results
      | Some (source, destination) =>
          (* Phase 3: Network design *)
          designed <-
            try_except
              (d <- _time_it
                      (on_store
                         (designed_network equipment' network source destination None)) ;;
               ret (Some d))
              (fun e => _ <- print "WARNING: Network design failed" ;; ret None) ;;
          match designed with
          | None => benchmark_runs config runs' (append_network_design NaN results)
          | Some (network_d, req, ref_req, t_design) =>
              let results := append_network_design t_design results in
              (* Phase 4: Transmission simulation *)
              simulated <-
                try_except
                  (d <- _time_it
                          (on_store
                             (transmission_simulation equipment' network_d req ref_req)) ;;
                   ret d.2)
                  (fun e => _ <- print "WARNING: Simulation failed" ;; ret NaN) ;;
              benchmark_runs config runs' (append_transmission_sim simulated results)
          end
      end
  end.

(** [benchmark_network(name, config)]; [name] only appears in the printed
    warnings. *)
Definition benchmark_network (name : string) (config : BenchConfig)
  : ST World BenchResults :=
  benchmark_runs config NUM_RUNS no_results.

(** [statistics.mean(data)] *)
Definition statistics_mean (data : list pyfloat) : outcome pyfloat :=
  match data with
  | [] => Raise StatisticsError
  | _ :: _ => Ok (mean_of data)
  end.

(** [statistics.stdev(data)]: the square root of the sample variance; it
    needs two data points. *)
Definition statistics_stdev (data : list pyfloat) : outcome pyfloat :=
  if (length data <? 2)%nat then Raise StatisticsError
  else
    Ok match finite_values data with
       | Some qs =>
           let n := inject_Z (Z.of_nat (length qs)) in
           let m := (Qsum qs / n)%Q in
           let ss := Qsum (map (fun x => (x - m) * (x - m))%Q qs) in
           Finite (py_sqrt (ss / (n - 1)))
       | None => NaN
       end.

(** [x * 1000] *)
Definition times_1000 (x : pyfloat) : pyfloat :=
  match x with
  | Finite q => Finite (q * 1000)
  | NaN => NaN
  end.

(** [_fmt(values)] *)
Definition _fmt (values : list pyfloat) : outcome string :=
  let clean := List.filter (fun v => float_eq v v) values in
  match clean with
  | [] => Ok "N/A"
  | _ :: _ =>
      match statistics_mean clean with
      | Ok mean =>
          let m := times_1000 mean in
          if (1 <? length clean)%nat then
            match statistics_stdev clean with
            | Ok stdev =>
                let s := times_1000 stdev in
                Ok (format_f 8 1 m +:+ " +/- " +:+ format_f 6 1 s +:+ " ms")
            | Raise e => Raise e
            | Hang => Hang
            end
          else Ok (format_f 8 1 m +:+ " ms")
      | Raise e => Raise e
      | Hang => Hang
      end
  end.

End Benchmark.

(** ** The entry points of the two scripts *)

(** ['\n'] *)
Definition newline : string := String (Ascii.ascii_of_nat 10) EmptyString.

(** [c * n] *)
Fixpoint str_repeat (c : string) (n : nat) : string :=
  match n with
  | O => EmptyString
  | S n' => c +:+ str_repeat c n'
  end.

(** ["%-20s" % s] and [f"{s:<20}"], for any width: [s], then spaces up to
    the width. *)
Definition ljust (width : nat) (s : string) : string :=
  s +:+ str_repeat " " (width - String.length s).

(** ["%*s" % (width, s)] and [f"{s:>{width}}"]: spaces up to the width,
    then [s]. *)
Definition rjust (width : nat) (s : string) : string :=
  str_repeat " " (width - String.length s) +:+ s.

(** [a + b] on floats. *)
Definition py_add (a b : pyfloat) : pyfloat :=
  match a, b with
  | Finite x, Finite y => Finite (x + y)
  | _, _ => NaN
  end.

(** [sum(values)]: from the left, starting at 0. *)
Definition py_sum (values : list pyfloat) : pyfloat :=
  fold_left py_add values (Finite 0).

(** [d[name]] on the dictionary of all results. *)
Definition getitem_results (d : gmap string BenchResults) (name : string)
  : outcome BenchResults :=
  match d !! name with
  | Some r => Ok r
  | None => Raise (KeyError name)
  end.

Module benchmark.
Section Main.
Context {E : Engine} {R : Runtime}.

(** The table [BENCHMARKS], in the order of its keys; the paths are
    relative to the repository. *)
Definition BENCHMARKS : list (string * BenchConfig) :=
  [("edfa_example",
    {| b_topology := "gnpy/example-data/edfa_example_network.json";
       b_equipment := "gnpy/example-data/eqpt_config.json";
       b_sim_params := None; b_source := None; b_destination := None |});
   ("meshTopologyExampleV2",
    {| b_topology := "gnpy/example-data/meshTopologyExampleV2.json";
       b_equipment := "gnpy/example-data/eqpt_config.json";
       b_sim_params := None; b_source := None; b_destination := None |});
   ("multiband_example",
    {| b_topology := "gnpy/example-data/multiband_example_network.json";
       b_equipment := "gnpy/example-data/eqpt_config_multiband.json";
       b_sim_params := Some "gnpy/example-data/sim_params.json";
       b_source := None; b_destination := None |})].

(** [col_width = 28] *)
Definition col_width : nat := 28.

(** [zip(phases, phase_labels)]: the label of each phase and the timing
    list [all_results[name].get(phase, [])] reads; the four keys are always
    present. *)
Definition phases : list (string * (BenchResults -> list pyfloat)) :=
  [("Equipment Load", equipment_load); ("Network Load", network_load);
   ("Network Design", network_design); ("Transmission Sim", transmission_sim)].

(** [row = label; for name in BENCHMARKS: row += cell(name)] *)
Definition table_row (label : string) (cell : string -> ST World string)
    (names : list string) : ST World string :=
  cells <- for_each cell names ;;
  ret (fold_left (fun row c => row +:+ c) cells label).

(** The loop over the phases that fills [total_vals] for one network: the
    mean of every phase that has an entry other than NaN. *)
Definition total_vals (results : BenchResults) : ST World (list pyfloat) :=
  per_phase <-
    for_each
      (fun phase : string * (BenchResults -> list pyfloat) =>
         let vals := phase.2 results in
         let clean := List.filter (fun v => float_eq v v) vals in
         match clean with
         | [] => ret []
         | _ :: _ => m <- lift (statistics_mean clean) ;; ret [m]
         end)
      phases ;;
  ret (concat per_phase).

(** The cell of the TOTAL row for one network. *)
Definition total_cell (results : BenchResults) : ST World string :=
  vals <- total_vals results ;;
  match vals with
  | [] => ret (rjust col_width "N/A")
  | _ :: _ =>
      let total_ms := times_1000 (py_sum vals) in
      ret (format_f (col_width - 3) 1 total_ms +:+ " ms")
  end.

(** [main()], for the table [benchmarks]. *)
Definition main (benchmarks : list (string * BenchConfig)) : ST World unit :=
  let names := map fst benchmarks in
  let rule := str_repeat "-" (20 + col_width * length benchmarks) in
  _ <- print (str_repeat "=" 80) ;;
  _ <- print "GNPy Benchmark" ;;
  _ <- print "Running 3 iterations per measurement" ;;
  _ <- print (str_repeat "=" 80) ;;
  measured <-
    for_each
      (fun entry : string * BenchConfig =>
         _ <- print (newline +:+ "--- Benchmarking: " +:+ entry.1 +:+ " ---") ;;
         results <- benchmark_network entry.1 entry.2 ;;
         ret (entry.1, results))
      benchmarks ;;
  let all_results : gmap string BenchResults :=
    fold_left (fun d nr => <[nr.1 := nr.2]> d) measured ∅ in
  (* Print formatted results table *)
  _ <- print (newline +:+ str_repeat "=" 80) ;;
  _ <- print "RESULTS SUMMARY" ;;
  _ <- print (str_repeat "=" 80) ;;
  (* Header *)
  header <- table_row (ljust 20 "Phase") (fun name => ret (rjust col_width name)) names ;;
  _ <- print header ;;
  _ <- print rule ;;
  (* Data rows *)
  _ <- for_each
         (fun phase : string * (BenchResults -> list pyfloat) =>
            row <- table_row (ljust 20 phase.1)
                     (fun name =>
                        results <- lift (getitem_results all_results name) ;;
                        cell <- lift (_fmt (phase.2 results)) ;;
                        ret (rjust col_width cell))
                     names ;;
            print row)
         phases ;;
  (* Total row *)
  _ <- print rule ;;
  row <- table_row (ljust 20 "TOTAL")
           (fun name =>
              results <- lift (getitem_results all_results name) ;;
              total_cell results)
           names ;;
  _ <- print row ;;
  print (newline +:+ str_repeat "=" 80).

End Main.
End benchmark.

Module test_concurrency.
Section Main.
Context {E : Engine}.

(** The recommendation [main] prints for the two verdicts. *)
Definition recommend (result_1 result_2 : bool) : ST World unit :=
  if result_1 && negb result_2 then
    _ <- print "  RECOMMENDATION: Use multiprocessing.Pool for concurrent simulations." ;;
    print "  SimParams class-level state makes thread-based approaches unreliable."
  else if result_1 && result_2 then
    print "  Both approaches passed. Process pool is still recommended for safety."
  else if negb result_1 && negb result_2 then
    print "  Both approaches failed. Simulations should be run sequentially."
  else ret tt.

(** [main()].  [ws] and [ws_diff] are the stores of the pool processes,
    [sched] and [sched_diff] the schedules of the two thread batches. *)
Definition main (ws ws_diff : nat -> Store) (sched sched_diff : list nat)
  : ST World unit :=
  _ <- print (str_repeat "=" 70) ;;
  _ <- print "SimParams Concurrency Validation" ;;
  _ <- print "Workers: 4" ;;
  _ <- print (str_repeat "=" 70) ;;
  result_1 <- test_process_pool_isolation ws ws_diff ;;
  result_2 <- test_deep_copy_thread_local sched sched_diff ;;
  _ <- print (newline +:+ str_repeat "=" 70) ;;
  _ <- print "FINAL SUMMARY" ;;
  _ <- print (str_repeat "=" 70) ;;
  _ <- print ("  Approach 1 (Process Pool):       "
              +:+ (if result_1 then "PASS" else "FAIL")) ;;
  _ <- print ("  Approach 2 (Deep Copy + Thread):  "
              +:+ (if result_2 then "PASS" else "FAIL")) ;;
  _ <- print EmptyString ;;
  _ <- recommend result_1 result_2 ;;
  print (str_repeat "=" 70).

End Main.
End test_concurrency.

(** ** The helpers of the Streamlit application *)

Module app.

(** The classes of [gnpy.core.elements] the application names. *)
Inductive element_class : Type :=
| Transceiver | Fiber | RamanFiber | Edfa | Roadm | Fused.

(** [cls.__name__] *)
Definition class_name (cls : element_class) : string :=
  match cls with
  | Transceiver => "Transceiver"
  | Fiber => "Fiber"
  | RamanFiber => "RamanFiber"
  | Edfa => "Edfa"
  | Roadm => "Roadm"
  | Fused => "Fused"
  end.

(** What the application reads of a node of the network:
    [isinstance(node, cls)], [type(node).__name__] and [node.uid]. *)
Class Elements : Type := {
  element : Type;
  isinstance : element -> element_class -> bool;
  type_name : element -> string;
  element_uid : element -> string;
}.

Section Helpers.
Context {N : Elements}.

(** [_element_type_name(node)] *)
Definition _element_type_name (node : element) : string :=
  match List.find (isinstance node)
          [Transceiver; Fiber; RamanFiber; Edfa; Roadm; Fused] with
  | Some cls => class_name cls
  | None => type_name node
  end.

(** [_get_transceivers(network)], from [network.nodes()]: a later node
    replaces an earlier one of the same uid. *)
Definition _get_transceivers (nodes : list element) : gmap string element :=
  fold_left (fun (d : gmap string element) n => <[element_uid n := n]> d)
    (List.filter (fun n => isinstance n Transceiver) nodes) ∅.

(** The counting loop of [tutorial_1]:
    [type_counts[t] = type_counts.get(t, 0) + 1]. *)
Definition type_counts (nodes : list element) : gmap string nat :=
  fold_left
    (fun (counts : gmap string nat) node =>
       let t := _element_type_name node in
       <[t := (default 0 (counts !! t) + 1)%nat]> counts)
    nodes ∅.

(** [sorted(transceivers.keys())] in [tutorial_2] and [tutorial_3]. *)
Definition trx_uids (nodes : list element) : list string :=
  merge_sort (fun a b => Is_true (String.leb a b))
    (map fst (map_to_list (_get_transceivers nodes))).

(** [[uid for uid in trx_uids if uid != source]] *)
Definition dest_options (uids : list string) (source : string) : list string :=
  List.filter (fun uid => negb (String.eqb uid source)) uids.

End Helpers.
End app.

(** ** Small engines, used to run the scripts on concrete inputs *)

Definition trx (name : string) : Node := {| uid := name; is_transceiver := true |}.
Definition roadm (name : string) : Node := {| uid := name; is_transceiver := false |}.

(** An engine over a store that is a counter: [set_params] resets it to 0
    and each engine call increments it.  [eqpt] is what loading the
    equipment does, [net] the nodes of the loaded network, [design] what
    [designed_network] does for a given power, and [gsnr] the GSNR the
    simulation reports for that power and counter. *)
Definition toy_engine (eqpt : outcome unit) (net : list Node)
    (design : option Q -> outcome unit) (gsnr : option Q -> nat -> Q)
  : Engine :=
  {| Equipment := unit;
     Network := list Node;
     Request := option Q;
     Settings := unit;
     Store := nat;
     empty_settings := tt;
     load_json := fun _ => Ok tt;
     load_equipments_and_configs := fun _ => eqpt;
     load_network := fun _ _ => Ok net;
     nodes := fun n => n;
     set_params := fun _ _ => O;
     designed_network := fun _ n _ _ power s =>
       match design power with
       | Ok _ => (Ok (n, power, power), S s)
       | Raise e => (Raise e, S s)
       | Hang => (Hang, s)
       end;
     transmission_simulation := fun _ _ req _ s =>
       (Ok [ {| snr := [Finite (gsnr req s)]; osnr_ase := [Finite 30] |} ], S s) |}.

Definition two_trx : list Node := [trx "A"; roadm "R"; trx "B"].

(** The launch power shifts the GSNR. *)
Definition gsnr_by_power (power : option Q) (s : nat) : Q :=
  match power with
  | Some p => 20 + p
  | None => 20
  end.

Definition good_engine : Engine :=
  toy_engine (Ok tt) two_trx (fun _ => Ok tt) gsnr_by_power.

(** The launch power has no effect. *)
Definition flat_engine : Engine :=
  toy_engine (Ok tt) two_trx (fun _ => Ok tt) (fun _ _ => 20%Q).

Definition world0 {E : Engine} (s : Store) : World :=
  {| shared_dict := s; stdout := []; ticks := 0 |}.

(** A network with a single transceiver. *)
Definition lonely_engine : Engine :=
  toy_engine (Ok tt) [trx "A"; roadm "R"] (fun _ => Ok tt) gsnr_by_power.

(** A runtime whose clock advances by one per reading. *)
Definition toy_runtime : Runtime :=
  {| perf_counter := fun k => inject_Z (Z.of_nat k);
     py_sqrt := fun q => q;
     format_f := fun _ _ _ => "0.0" |}.

(** An entry of [BENCHMARKS] with nothing preset. *)
Definition auto_config : BenchConfig :=
  {| b_topology := "network.json"; b_equipment := "eqpt_config.json";
     b_sim_params := None; b_source := None; b_destination := None |}.

(** [designed_network] fails for the launch power -1 dBm. *)
Definition ServiceError : exn := Exn "ServiceError" "no viable path".

Definition fragile_design (power : option Q) : outcome unit :=
  match power with
  | Some p => if Qeq_bool p (-1) then Raise ServiceError else Ok tt
  | None => Ok tt
  end.

Definition fragile_engine : Engine :=
  toy_engine (Ok tt) two_trx fragile_design gsnr_by_power.

(** Round-robin schedules of the four threads of a batch. *)
Definition round_robin (rounds : nat) : list nat :=
  List.concat (replicate rounds (seq 0 NUM_WORKERS)).

(** Loading the equipment file fails. *)
Definition ConfigError : exn := Exn "EquipmentConfigError" "malformed equipment file".

Definition broken_engine : Engine :=
  toy_engine (Raise ConfigError) two_trx (fun _ => Ok tt) gsnr_by_power.

(** [designed_network] never returns for the launch power 0 dBm. *)
Definition hanging_design (power : option Q) : outcome unit :=
  match power with
  | Some p => if Qeq_bool p 0 then Hang else Ok tt
  | None => Ok tt
  end.

Definition hanging_engine : Engine :=
  toy_engine (Ok tt) two_trx hanging_design gsnr_by_power.


(** Nodes given by their uid and their class; a [RamanFiber] is also a
    [Fiber], as in [gnpy.core.elements]. *)
Definition toy_isinstance (n : string * app.element_class)
    (cls : app.element_class) : bool :=
  match n.2, cls with
  | app.Transceiver, app.Transceiver => true
  | app.Fiber, app.Fiber => true
  | app.RamanFiber, app.RamanFiber => true
  | app.RamanFiber, app.Fiber => true
  | app.Edfa, app.Edfa => true
  | app.Roadm, app.Roadm => true
  | app.Fused, app.Fused => true
  | _, _ => false
  end.

Definition toy_elements : app.Elements :=
  {| app.element := string * app.element_class;
     app.isinstance := toy_isinstance;
     app.type_name := fun n => app.class_name n.2;
     app.element_uid := fst |}.
(** ** What the report of [_fmt] is computed from *)

(** The entries of a timing list that are not NaN, in order. *)
Fixpoint non_nan (values : list pyfloat) : list Q :=
  match values with
  | [] => []
  | Finite q :: rest => q :: non_nan rest
  | NaN :: rest => non_nan rest
  end.

(** The mean and the sample standard deviation of rationals, as
    [statistics.mean] and [statistics.stdev] compute them. *)
Definition Qmean (qs : list Q) : Q :=
  (Qsum qs / inject_Z (Z.of_nat (length qs)))%Q.

Definition sample_stdev {R : Runtime} (qs : list Q) : Q :=
  let n := inject_Z (Z.of_nat (length qs)) in
  py_sqrt (Qsum (map (fun x => (x - Qmean qs) * (x - Qmean qs))%Q qs) / (n - 1)).

(** ** Closeness, as propositions *)



(** A destination whose series hold one value each. *)
Definition flat_element (gsnr osnr : Q) : Element :=
  {| snr := [Finite gsnr]; osnr_ase := [Finite osnr] |}.


(** ** Reading the history of a batch *)

Section Histories.
Context {E : Engine}.

(** The events thread [t] caused, in order. *)
Definition events_of (t : nat) (tr : list (nat * event)) : list event :=
  map snd (List.filter (fun te => Nat.eqb te.1 t) tr).

Definition is_backup (ev : event) : bool :=
  match ev with EvBackup _ => true | _ => false end.

Definition is_restore (ev : event) : bool :=
  match ev with EvRestore _ => true | _ => false end.

(** How many events of a kind a thread caused. *)
Definition count_events (kind : event -> bool) (evs : list event) : nat :=
  length (List.filter kind evs).

(** The registry writes among some events: index and entry. *)
Definition stored_entries (evs : list event) : list (nat * pydict) :=
  flat_map (fun ev => match ev with EvStore i e => [(i, e)] | _ => [] end) evs.

(** Replaying the history against the lock: [Some owner] when every
    acquire found the lock free, and every registry write and release was
    made by the thread holding it; [None] otherwise. *)
Definition lock_step (owner : option (option nat)) (te : nat * event)
  : option (option nat) :=
  match owner, te with
  | Some None, (t, EvAcquire) => Some (Some t)
  | Some (Some _), (_, EvAcquire) => None
  | Some (Some o), (t, EvRelease) => if Nat.eqb o t then Some None else None
  | Some None, (_, EvRelease) => None
  | Some (Some o), (t, EvStore _ _) => if Nat.eqb o t then owner else None
  | Some None, (_, EvStore _ _) => None
  | _, _ => owner
  end.

Definition lock_owner (tr : list (nat * event)) : option (option nat) :=
  fold_left lock_step tr (Some None).

(** The two shapes of a registry entry. *)
Definition is_result_entry (entry : pydict) : Prop :=
  dom entry = ({["avg_gsnr"; "avg_osnr"; "gsnr_values"; "osnr_values"]} : gset string).

Definition is_error_entry (entry : pydict) : Prop :=
  exists e : exn, entry = {["error" := VStr (exn_str e)]}.

Definition well_formed (entry : pydict) : Prop :=
  is_result_entry entry \/ is_error_entry entry.

(** Program points inside [with lock:], after the lock was taken. *)
Definition in_critical (p : tpc) : bool :=
  match p with PStore _ | PRelease => true | _ => false end.

(** Program points after the registry write. *)
Definition has_stored (p : tpc) : bool :=
  match p with PRelease | PFinally | PDone => true | _ => false end.

(** Program points before the backup statement. *)
Definition before_backup (p : tpc) : bool :=
  match p with PLoadEquipment | PLoadNetwork _ | PBackup _ _ => true | _ => false end.

(** *** The invariant of a batch *)

(** What holds of thread [t], with private state [l], at every moment of
    a batch. *)
Record thread_ok (g : Shared) (t : nat) (l : tlocal) : Prop := {
  ok_critical : in_critical (pc l) = true <-> lock g = Some t;
  ok_fresh : before_backup (pc l) = true -> sim_params_backup l = None;
  ok_backups :
    count_events is_backup (events_of t (trace g)) =
    match sim_params_backup l with Some _ => 1 | None => 0 end;
  ok_restores :
    count_events is_restore (events_of t (trace g)) =
    if is_done (pc l) then count_events is_backup (events_of t (trace g)) else 0;
  ok_stored :
    if has_stored (pc l)
    then exists e, stored_entries (events_of t (trace g)) = [(t, e)] /\
                   results_dict g !! t = Some e /\ well_formed e
    else stored_entries (events_of t (trace g)) = [];
  ok_entry : forall e, pc l = PAcquire e \/ pc l = PStore e -> well_formed e;
}.

Definition own_index (te : nat * event) : Prop :=
  match te.2 with EvStore i _ => i = te.1 | _ => True end.

(** Every entry of the registry was written by some thread. *)
Definition registry_ok (g : Shared) : Prop :=
  forall i e, results_dict g !! i = Some e ->
              exists t, In (t, EvStore i e) (trace g).

(** The invariant of a whole batch: every thread writes under its own
    number and satisfies [thread_ok], the history respects the lock, and
    the registry holds only what threads wrote. *)
Definition batch_inv (sys : System) : Prop :=
  (forall t a l, threads sys !! t = Some (a, l) ->
                 t_index a = t /\ thread_ok (shared sys) t l) /\
  lock_owner (trace (shared sys)) = Some (lock (shared sys)) /\
  Forall own_index (trace (shared sys)) /\
  registry_ok (shared sys).

(** Program points up to and including the reset [SimParams.set_params({})]. *)
Definition before_reset (p : tpc) : bool :=
  match p with
  | PLoadEquipment | PLoadNetwork _ | PBackup _ _ | PSetParams _ _ => true
  | _ => false
  end.

(** Program points between the reset and the end of the [try] body. *)
Definition computing (p : tpc) : bool :=
  match p with
  | PSetParams _ _ | PDesign _ _ | PSimulate _ _ _ _ => true
  | _ => false
  end.

(** What holds of a thread that runs alone, started on a shared
    dictionary of value [s0]: the reset finds [s0] and the restore leaves
    [s0]; the thread's copy is an object of its own, of value [s0], which
    the shared attribute does not refer to before the restore. *)
Record solo_ok (s0 : Store) (g : Shared) (l : tlocal) : Prop := {
  solo_resets : forall b, In (EvSetParams b) (events_of 0 (trace g)) -> b = s0;
  solo_restores : forall r, In (EvRestore r) (events_of 0 (trace g)) -> r = s0;
  solo_alloc : (SimParams_shared_dict g < next_object g)%nat;
  solo_backup :
    forall addr, sim_params_backup l = Some addr ->
      (addr < next_object g)%nat /\ objects g addr = s0 /\
      (pc l <> PDone -> addr <> SimParams_shared_dict g);
  solo_fresh : before_backup (pc l) = true -> sim_params_backup l = None;
  solo_before : before_reset (pc l) = true -> shared_value g = s0;
  solo_no_backup :
    sim_params_backup l = None ->
    shared_value g = s0 /\ computing (pc l) = false /\
    forall b, ~ In (EvSetParams b) (events_of 0 (trace g));
  solo_done :
    pc l = PDone ->
    shared_value g = s0 /\
    (sim_params_backup l <> None -> In (EvRestore s0) (events_of 0 (trace g)));
}.

(** Program points of a worker up to its call of [designed_network], for
    the equipment and network its loads return. *)
Definition waiting_for_design (eq : Equipment) (net : Network) (p : tpc) : Prop :=
  p = PLoadEquipment \/ p = PLoadNetwork eq \/ p = PBackup eq net \/
  p = PSetParams eq net \/ p = PDesign eq net.

(** The engine never returns from [designed_network] for the Job of [a]. *)
Definition design_hangs (a : targs) (eq : Equipment) (net : Network) : Prop :=
  load_equipments_and_configs (equipment (t_config a)) = Ok eq /\
  load_network (topology (t_config a)) eq = Ok net /\
  (2 <= length (_find_transceivers net))%nat /\
  forall src dst st, (designed_network eq net src dst (t_power a) st).1 = Hang.

(** [set_params] replaces the store wholesale: what it leaves does not
    depend on what it found. *)
Definition wholesale : Prop :=
  forall (m : Settings) (s s' : Store), set_params m s = set_params m s'.

End Histories.
Section SoloProgress.
Context {E : Engine}.


End SoloProgress.
(** ** Progress of a batch of threads *)

Section LivenessDefs.
Context {E : Engine}.

(** An upper bound on the steps a worker still has to take. *)
Definition steps_left (p : tpc) : nat :=
  match p with
  | PLoadEquipment => 10
  | PLoadNetwork _ => 9
  | PBackup _ _ => 8
  | PSetParams _ _ => 7
  | PDesign _ _ => 6
  | PSimulate _ _ _ _ => 5
  | PAcquire _ => 4
  | PStore _ => 3
  | PRelease => 2
  | PFinally => 1
  | PDone => 0
  end.

(** Every call into the engine returns or raises. *)
Definition engine_returns : Prop :=
  (forall file, load_equipments_and_configs file <> Hang) /\
  (forall file eq, load_network file eq <> Hang) /\
  (forall eq net src dst p s, (designed_network eq net src dst p s).1 <> Hang) /\
  (forall eq net req ref_req s,
      (transmission_simulation eq net req ref_req s).1 <> Hang).

(** The registry is indexed by threads of the batch, and a thread of the
    batch holds the lock when it is held. *)
Definition batch_bounds (sys : System) : Prop :=
  (forall i e, results_dict (shared sys) !! i = Some e ->
               (i < length (threads sys))%nat) /\
  (forall t, lock (shared sys) = Some t -> (t < length (threads sys))%nat).

(** The schedule that runs the [n] workers one after the other, each for
    the ten steps of its body. *)
Definition one_by_one (n : nat) : list nat :=
  flat_map (replicate 10) (seq 0 n).

End LivenessDefs.

(** ** Edge cases of the checks *)

(** [all(v == v for v in values)]: no entry is NaN. *)
Definition nan_free (values : list pyfloat) : bool :=
  forallb (fun v => float_eq v v) values.

(** ** What the benchmark keeps true of its timing lists *)

Section BenchDefs.
Context {E : Engine} {R : Runtime}.

(** A recorded time: a clock difference satisfying [T]. *)
Definition timed (T : Q -> Prop) (v : pyfloat) : Prop :=
  exists q, v = Finite q /\ T q.

(** What [benchmark_network] keeps true of the timing lists while it
    fills them; [T] holds of every time recorded. *)
Definition timings_ok (T : Q -> Prop) (r : BenchResults) : Prop :=
  length (equipment_load r) = length (network_load r) /\
  (length (network_design r) <= length (network_load r))%nat /\
  length (transmission_sim r) = length (non_nan (network_design r)) /\
  Forall (timed T) (equipment_load r) /\
  Forall (timed T) (network_load r) /\
  Forall (fun v => v = NaN \/ timed T v) (network_design r) /\
  Forall (fun v => v = NaN \/ timed T v) (transmission_sim r).

(** A call that takes no clock reading. *)
Definition keeps_ticks {A} (f : ST World A) : Prop :=
  forall w, ticks (f w).2 = ticks w.

End BenchDefs.

(** ** Reading the report of the benchmark *)

(** The last character of a string. *)
Fixpoint last_char (s : string) : option Ascii.ascii :=
  match s with
  | EmptyString => None
  | String c EmptyString => Some c
  | String _ rest => last_char rest
  end.

(** What a phase contributes to the TOTAL row: the mean of its entries
    that are not NaN, or nothing when it has none. *)
Definition phase_mean (vals : list pyfloat) : list Q :=
  match non_nan vals with
  | [] => []
  | qs => [Qmean qs]
  end.

(** ** Which object the class attribute refers to *)

Section RebindDefs.
Context {E : Engine}.

(** The copies the workers took are objects allocated after the original
    dictionary, which has address 0. *)
Definition copies_fresh (sys : System) : Prop :=
  (1 <= next_object (shared sys))%nat /\
  forall t a l addr,
    threads sys !! t = Some (a, l) -> sim_params_backup l = Some addr ->
    (1 <= addr < next_object (shared sys))%nat.

(** What the class attribute [SimParams._shared_dict] refers to: the
    original dictionary as long as no worker with a copy has finished,
    the copy of a finished worker afterwards. *)
Definition attribute_ok (sys : System) : Prop :=
  (SimParams_shared_dict (shared sys) = 0%nat /\
   forall t a l, threads sys !! t = Some (a, l) -> pc l = PDone ->
                 sim_params_backup l = None) \/
  (exists t a l addr,
      threads sys !! t = Some (a, l) /\ pc l = PDone /\
      sim_params_backup l = Some addr /\
      SimParams_shared_dict (shared sys) = addr).

End RebindDefs.

(** ** Counting and collecting the nodes of the application *)

Section AppDefs.
Context {N : app.Elements}.

(** One round of the counting loop of [tutorial_1]. *)
Definition count_step (counts : gmap string nat) (node : app.element)
  : gmap string nat :=
  let t := app._element_type_name node in
  <[t := (default 0 (counts !! t) + 1)%nat]> counts.

(** The sum of the counts. *)
Definition counts_sum (counts : gmap string nat) : nat :=
  map_fold (fun _ c acc => (c + acc)%nat) 0%nat counts.

(** One round of the dictionary comprehension of [_get_transceivers]. *)
Definition put_node (d : gmap string app.element) (n : app.element)
  : gmap string app.element :=
  <[app.element_uid n := n]> d.

End AppDefs.

(** ** The shape of what runs return and workers record *)

Section EntryShapes.
Context {E : Engine}.

(** A mapping a run returns. *)
Definition is_result (r : pydict) : Prop := exists d, r = result_dict d.

(** What a worker records: a mapping of a run, or an error entry. *)
Definition is_entry (r : pydict) : Prop :=
  is_result r \/ exists e, r = error_dict e.

(** Every entry of the registry, and every entry a worker is about to
    write, has one of the two shapes. *)
Definition entries_shaped (sys : System) : Prop :=
  (forall i r, results_dict (shared sys) !! i = Some r -> is_entry r) /\
  (forall t a l e, threads sys !! t = Some (a, l) ->
                   pc l = PAcquire e \/ pc l = PStore e -> is_entry e).

End EntryShapes.

(** * Properties *)

Section FmtProperties.
Context {E : Engine} {R : Runtime}.

Lemma float_eq_self v : float_eq v v = true <-> v <> NaN.
Proof.
  destruct v as [q|]; simpl.
  - split; [discriminate | intros _; apply Qeq_bool_iff; reflexivity].
  - split; [discriminate | congruence].
Qed.

Lemma clean_is_finite values :
  List.filter (fun v => float_eq v v) values = map Finite (non_nan values).
Proof.
  induction values as [|[q|] rest IH]; simpl; auto.
  assert (Hq : Qeq_bool q q = true) by (apply Qeq_bool_iff; reflexivity).
  rewrite Hq, IH. reflexivity.
Qed.

Lemma finite_values_map_Finite qs : finite_values (map Finite qs) = Some qs.
Proof. induction qs as [|q qs IH]; simpl; [|rewrite IH]; reflexivity. Qed.

Lemma non_nan_nil_iff values :
  non_nan values = [] <-> Forall (fun v => v = NaN) values.
Proof.
  induction values as [|[q|] rest IH]; simpl.
  - split; auto.
  - split; [discriminate | intros H; inversion H; discriminate].
  - rewrite IH. split; [intros H; constructor; auto | intros H; inversion H; auto].
Qed.

Lemma string_length_app (s1 s2 : string) :
  String.length (s1 +:+ s2) = (String.length s1 + String.length s2)%nat.
Proof. induction s1 as [|c s1 IH]; simpl; [|rewrite IH]; reflexivity. Qed.

Lemma ms_suffix_not_NA (s : string) : s +:+ " ms" <> "N/A".
Proof.
  intros H. destruct s as [|c s]; [discriminate|].
  apply (f_equal String.length) in H.
  simpl in H. rewrite string_length_app in H. simpl in H. lia.
Qed.

(** [_fmt] in terms of the non-NaN entries alone. *)
Lemma fmt_unfold values :
  _fmt values =
  match non_nan values with
  | [] => Ok "N/A"
  | q :: qs =>
      let m := Finite (Qmean (q :: qs) * 1000) in
      if (1 <? length (q :: qs))%nat
      then Ok (format_f 8 1 m +:+ " +/- "
               +:+ format_f 6 1 (Finite (sample_stdev (q :: qs) * 1000)) +:+ " ms")
      else Ok (format_f 8 1 m +:+ " ms")
  end.
Proof.
  unfold _fmt. rewrite clean_is_finite.
  destruct (non_nan values) as [|q qs] eqn:Hnn; [reflexivity|].
  change (map Finite (q :: qs)) with (Finite q :: map Finite qs).
  unfold statistics_mean, statistics_stdev, mean_of.
  change (Finite q :: map Finite qs) with (map Finite (q :: qs)).
  rewrite finite_values_map_Finite, length_map.
  destruct qs as [|q' qs]; reflexivity.
Qed.

(** C10: [_fmt] returns "N/A" exactly when the list is empty or every entry
    is NaN; otherwise it formats the mean of the non-NaN entries (times
    1000) and, when more than one entry is not NaN, their sample standard
    deviation.  NaN entries never enter the statistics: the report of a
    list is the report of its non-NaN entries. *)
Theorem fmt_ignores_nan (values : list pyfloat) :
  (_fmt values = Ok "N/A" <-> Forall (fun v => v = NaN) values) /\
  _fmt values = _fmt (map Finite (non_nan values)) /\
  match non_nan values with
  | [] => _fmt values = Ok "N/A"
  | [q] => _fmt values = Ok (format_f 8 1 (Finite (Qmean [q] * 1000)) +:+ " ms")
  | qs =>
      _fmt values =
      Ok (format_f 8 1 (Finite (Qmean qs * 1000)) +:+ " +/- "
          +:+ format_f 6 1 (Finite (sample_stdev qs * 1000)) +:+ " ms")
  end.
Proof.
  split; [|split].
  - rewrite fmt_unfold, <- non_nan_nil_iff.
    destruct (non_nan values) as [|q qs]; [tauto|].
    split; [|discriminate].
    cbv zeta. destruct (1 <? length (q :: qs))%nat; intros H; exfalso.
    + injection H as H. apply (f_equal String.length) in H.
      rewrite !string_length_app in H. simpl in H. lia.
    + injection H as H. exact (ms_suffix_not_NA _ H).
  - rewrite !fmt_unfold.
    assert (Hid : forall qs, non_nan (map Finite qs) = qs).
    { induction qs as [|q qs IH]; simpl; [|rewrite IH]; reflexivity. }
    rewrite Hid. reflexivity.
  - rewrite fmt_unfold. destruct (non_nan values) as [|q [|q' qs]]; reflexivity.
Qed.

End FmtProperties.

Section BenchmarkProperties.
Context {E : Engine} {R : Runtime}.

(** Looking up the endpoints never indexes out of bounds: it returns,
    whatever the network. *)
Lemma find_endpoints_returns config net w :
  exists o w', find_endpoints config net w = (Ok o, w').
Proof.
  unfold find_endpoints.
  assert (Hgo : forall src dst,
    exists o w',
      (let trx_uids := _find_transceivers net in
       if (length trx_uids <? 2)%nat
       then _ <- print "WARNING: Not enough transceivers, skipping simulation." ;;
            ret None
       else
         source' <- lift (py_or src (getitem_list trx_uids 0)) ;;
         destination' <- lift (py_or dst (getitem_list trx_uids 1)) ;;
         ret (Some (source', destination'))) w = (Ok o, w')).
  { intros src dst. cbv zeta.
    destruct (length (_find_transceivers net) <? 2)%nat eqn:Hlen.
    - eexists _, _. reflexivity.
    - apply Nat.ltb_ge in Hlen.
      destruct (_find_transceivers net) as [|u0 [|u1 us]] eqn:Htrx;
        simpl in Hlen; try lia.
      unfold bind, lift, ret, getitem_list. simpl.
      destruct src as [[|c s]|], dst as [[|c' s']|]; simpl;
        eexists _, _; reflexivity. }
  destruct (b_source config) as [src|], (b_destination config) as [dst|].
  - eexists _, _. reflexivity.
  - apply Hgo.
  - apply Hgo.
  - apply Hgo.
Qed.

(** C8: when the source or the destination is not preset and the network
    that was loaded (with the equipment and, if the configuration names
    one, the sim-params file) has fewer than two transceivers,
    [benchmark_network] returns during its first run, before any network
    design or simulation: both timing lists are empty, and each load was
    timed once.  Its lookup of the two endpoints never indexes out of
    bounds, whatever the network.  [_run_single_simulation] has no such
    guard: on the same network it raises [IndexError]. *)
Theorem benchmark_skips_small_network
    (name : string) (config : BenchConfig) (w : World)
    (eq : Equipment) (net : Network) :
  b_source config = None \/ b_destination config = None ->
  load_equipments_and_configs (b_equipment config) = Ok eq ->
  load_network (b_topology config) eq = Ok net ->
  (forall file, b_sim_params config = Some file ->
                exists st, load_json file = Ok st) ->
  (length (_find_transceivers net) < 2)%nat ->
  (exists r w',
      benchmark_network name config w = (Ok r, w') /\
      network_design r = [] /\ transmission_sim r = [] /\
      length (equipment_load r) = 1%nat /\ length (network_load r) = 1%nat) /\
  (forall net' w0, exists o w', find_endpoints config net' w0 = (Ok o, w')) /\
  (forall (cfg : Config) power s,
      load_equipments_and_configs (equipment cfg) = Ok eq ->
      load_network (topology cfg) eq = Ok net ->
      (_run_single_simulation cfg power s).1 = Raise IndexError).
Proof.
  intros Hnone Heq Hnet Hjson Hlen.
  split; [|split; [intros net' w0; apply find_endpoints_returns|]].
  - unfold benchmark_network, NUM_RUNS. simpl.
    unfold bind at 1. unfold _time_it at 1, clock, bind, lift, ret. simpl.
    rewrite Heq. simpl. rewrite Hnet. simpl.
    assert (Hset : exists st,
      match b_sim_params config with
      | Some file => load_json file
      | None => Ok empty_settings
      end = Ok st).
    { destruct (b_sim_params config) as [file|]; [apply Hjson; reflexivity|].
      eexists; reflexivity. }
    destruct Hset as [st Hst].
    destruct (b_sim_params config) as [file|]; simpl; rewrite ?Hst; simpl.
    all: unfold on_store, find_endpoints, print; simpl.
    all: apply Nat.ltb_lt in Hlen.
    all: destruct Hnone as [Hs | Hd].
    all: try rewrite Hs; try rewrite Hd.
    all: destruct (b_source config), (b_destination config); try discriminate.
    all: cbv zeta; rewrite Hlen; simpl.
    all: eexists _, _; repeat split; reflexivity.
  - intros cfg power s Heq' Hnet'.
    unfold _run_single_simulation, bind, lift. simpl.
    rewrite Heq'. simpl. rewrite Hnet'. simpl.
    destruct (_find_transceivers net) as [|u0 [|u1 us]]; simpl in *; try lia.
    + reflexivity.
    + reflexivity.
Qed.

End BenchmarkProperties.

Lemma benchmark_skips_small_network_witness :
  exists r w',
    @benchmark_network lonely_engine toy_runtime "lonely" auto_config
      (@world0 lonely_engine O) = (Ok r, w') /\
    network_design r = [] /\ transmission_sim r = [].
Proof.
  destruct (@benchmark_skips_small_network lonely_engine toy_runtime
              "lonely" auto_config (@world0 lonely_engine O) tt
              [trx "A"; roadm "R"]) as [(r & w' & Hrun & Hd & Hs & _) _].
  - left; reflexivity.
  - reflexivity.
  - reflexivity.
  - intros file Hfile; discriminate Hfile.
  - simpl; lia.
  - exists r, w'. auto.
Defined.


Section VerifierProperties.
Context {E : Engine}.




Lemma result_dict_gsnr d : result_dict d !! "gsnr_values" = Some (VList (snr d)).
Proof. reflexivity. Qed.

Lemma result_dict_osnr d : result_dict d !! "osnr_values" = Some (VList (osnr_ase d)).
Proof. reflexivity. Qed.

Lemma result_dict_avg_gsnr d :
  result_dict d !! "avg_gsnr" = Some (VFloat (np_mean (snr d))).
Proof. reflexivity. Qed.

Lemma result_dict_avg_osnr d :
  result_dict d !! "avg_osnr" = Some (VFloat (np_mean (osnr_ase d))).
Proof. reflexivity. Qed.

Lemma result_dict_no_error d : contains (result_dict d) "error" = false.
Proof. reflexivity. Qed.

End VerifierProperties.

Section VerifierTheorems.
Context {E : Engine}.

Lemma series_match_gsnr {S} atol d dref (s : S) :
  series_match "gsnr_values" atol (result_dict d) (result_dict dref) s =
  (allclose (VList (snr d)) (VList (snr dref)) atol, s).
Proof.
  unfold series_match, bind, lift, getitem.
  rewrite !result_dict_gsnr. destruct (allclose _ _ _); reflexivity.
Qed.

Lemma series_match_osnr {S} atol d dref (s : S) :
  series_match "osnr_values" atol (result_dict d) (result_dict dref) s =
  (allclose (VList (osnr_ase d)) (VList (osnr_ase dref)) atol, s).
Proof.
  unfold series_match, bind, lift, getitem.
  rewrite !result_dict_osnr. destruct (allclose _ _ _); reflexivity.
Qed.

Lemma process_same_status_result d dref (w : World) g o :
  allclose (VList (snr d)) (VList (snr dref)) atol_process = Ok g ->
  allclose (VList (osnr_ase d)) (VList (osnr_ase dref)) atol_process = Ok o ->
  (process_same_status (result_dict dref) (result_dict d) w).1 = Ok (g && o).
Proof.
  intros Hg Ho. unfold process_same_status.
  unfold bind at 1. rewrite series_match_gsnr, Hg.
  unfold bind at 1. rewrite series_match_osnr, Ho.
  unfold bind, lift, getitem, print, ret.
  rewrite result_dict_avg_gsnr, result_dict_avg_osnr. reflexivity.
Qed.

Lemma process_diff_status_result d dref (w : World) g :
  allclose (VList (snr d)) (VList (snr dref)) atol_process = Ok g ->
  (process_diff_status (result_dict d, result_dict dref) w).1 = Ok g.
Proof.
  intros Hg. unfold process_diff_status.
  unfold bind at 1. rewrite series_match_gsnr, Hg.
  destruct g; [reflexivity|].
  unfold bind, lift, getitem, print, ret.
  rewrite !result_dict_avg_gsnr. reflexivity.
Qed.

Lemma thread_same_status_result d dref (w : World) g :
  allclose (VList (snr d)) (VList (snr dref)) atol_thread = Ok g ->
  (thread_same_status (result_dict dref) (Some (result_dict d)) w).1 = Ok g.
Proof.
  intros Hg. unfold thread_same_status. rewrite result_dict_no_error.
  unfold bind at 1. rewrite series_match_gsnr, Hg.
  unfold bind, lift, getitem, print, ret.
  rewrite result_dict_avg_gsnr. reflexivity.
Qed.

Lemma thread_diff_status_result refs i d dref (w : World) g :
  refs !! i = Some (result_dict dref) ->
  allclose (VList (snr d)) (VList (snr dref)) atol_thread = Ok g ->
  (thread_diff_status refs i (Some (result_dict d)) w).1 = Ok g.
Proof.
  intros Hi Hg. unfold thread_diff_status. rewrite result_dict_no_error.
  unfold bind at 1. unfold lift at 1, getitem_list. rewrite Hi.
  unfold bind at 1. rewrite series_match_gsnr, Hg.
  unfold bind, lift, getitem, print, ret.
  rewrite !result_dict_avg_gsnr. reflexivity.
Qed.


End VerifierTheorems.


Section OracleProperties.
Context {E : Engine}.

Lemma for_each_raise {S A B} (body : A -> ST S B) pre x post s rs s' e s'' :
  for_each body pre s = (Ok rs, s') ->
  body x s' = (Raise e, s'') ->
  for_each body (pre ++ x :: post) s = (Raise e, s'').
Proof.
  revert s rs. induction pre as [|a pre IH]; intros s rs Hpre Hx; simpl in *.
  - injection Hpre as _ <-. unfold bind. rewrite Hx. reflexivity.
  - unfold bind at 1 in Hpre. unfold bind at 1.
    destruct (body a s) as [[y|e'|] s1]; try discriminate.
    unfold bind in Hpre.
    destruct (for_each body pre s1) as [[ys|e'|] s2] eqn:Hrest; try discriminate.
    unfold ret in Hpre. injection Hpre as _ <-.
    unfold bind at 1. rewrite (IH s1 ys Hrest Hx). reflexivity.
Qed.

(** C3, as the code has it: the reference runs have no exception handler.
    When the engine raises for one Job, after the Jobs before it ran, the
    loop over the Jobs raises that exception: nothing is recorded for the
    Job and the Jobs after it are not run.  Both test functions let an
    exception of their first reference run through. *)
Theorem reference_failure_aborts (config : Config) (pre post : list Q) (p : Q)
    (w w1 w2 : World) (rs : list pydict) (e : exn) :
  reference_runs config pre w = (Ok rs, w1) ->
  on_store (_run_single_simulation config (Some p)) w1 = (Raise e, w2) ->
  reference_runs config (pre ++ p :: post) w = (Raise e, w2) /\
  (forall ws ws_diff sched sched_diff w0 w0' e0,
      on_store (_run_single_simulation _get_edfa_config None) w0 = (Raise e0, w0') ->
      test_process_pool_isolation ws ws_diff w0 = (Raise e0, w0') /\
      test_deep_copy_thread_local sched sched_diff w0 = (Raise e0, w0')).
Proof.
  intros Hpre Hp. split.
  - unfold reference_runs in *. eapply for_each_raise; eassumption.
  - intros ws ws_diff sched sched_diff w0 w0' e0 H0. split.
    + unfold test_process_pool_isolation. cbv zeta.
      unfold bind at 1. rewrite H0. reflexivity.
    + unfold test_deep_copy_thread_local. cbv zeta.
      unfold bind at 1. rewrite H0. reflexivity.
Qed.

End OracleProperties.

Lemma reference_failure_aborts_witness :
  @reference_runs fragile_engine _get_edfa_config ([-2] ++ -1 :: [0; 1])%Q
    (@world0 fragile_engine O)
  = (Raise ServiceError,
     (@Build_World fragile_engine 1%nat [] O)).
Proof.
  apply (@reference_failure_aborts fragile_engine _get_edfa_config
           [-2]%Q [0; 1]%Q (-1)%Q (@world0 fragile_engine O)
           (@Build_World fragile_engine 2%nat [] O)
           (@Build_World fragile_engine 1%nat [] O)
           [result_dict (flat_element (20 + -2) 30)] ServiceError).
  - vm_compute. reflexivity.
  - vm_compute. reflexivity.
Defined.

(** With an engine that fails for -1 dBm, the reference runs over the four
    powers of the scripts raise: there is no list of results, with or
    without an error entry.  [test_deep_copy_thread_local], whose threads
    all recorded an entry, raises with them. *)
Lemma reference_failure_not_recorded :
  (@reference_runs fragile_engine _get_edfa_config powers
     (@world0 fragile_engine O)).1 = Raise ServiceError /\
  (~ exists results,
       (@reference_runs fragile_engine _get_edfa_config powers
          (@world0 fragile_engine O)).1 = Ok results) /\
  (@test_deep_copy_thread_local fragile_engine (round_robin 20) (round_robin 20)
     (@world0 fragile_engine O)).1 = Raise ServiceError.
Proof.
  split; [vm_compute; reflexivity|]. split.
  - intros (results & H). revert H. vm_compute. discriminate.
  - vm_compute. reflexivity.
Qed.
Section VerdictProperties.
Context {E : Engine}.

Lemma for_each_Ok_Forall2 {S A B} (body : A -> ST S B) l s ys s' :
  for_each body l s = (Ok ys, s') ->
  Forall2 (fun x y => exists sa sb, body x sa = (Ok y, sb)) l ys.
Proof.
  revert s ys s'. induction l as [|x l IH]; intros s ys s' H; simpl in H.
  - injection H as <- _. constructor.
  - unfold bind at 1 in H.
    destruct (body x s) as [[y|e|] s1] eqn:Hx; try discriminate.
    unfold bind in H.
    destruct (for_each body l s1) as [[ys'|e|] s2] eqn:Hl; try discriminate.
    injection H as <- _.
    constructor; [exists s, s1; exact Hx | eapply IH; exact Hl].
Qed.

Lemma guarded_pool_map_cases ws tasks (w : World) :
  match pool_map ws 0 tasks with
  | Ok results => guarded_pool_map ws tasks w = (Ok (Some results), w)
  | Raise e => exists w', guarded_pool_map ws tasks w = (Ok None, w')
  | Hang => guarded_pool_map ws tasks w = (Hang, w)
  end.
Proof.
  unfold guarded_pool_map, try_except, bind, lift, ret.
  destruct (pool_map ws 0 tasks); eauto.
Qed.

(** C4, as the code has it: when [test_process_pool_isolation] returns a
    verdict, either one of the two pool dispatches raised and the verdict
    is false, or the verdict is the conjunction of the per-job statuses of
    the same-parameters check and of the per-job matches of the
    differing-parameters check against the references.  Whether the
    concurrent results differ from each other ([all_same]) selects a
    printed line and is no part of the verdict. *)
Theorem verdict_is_conjunction (ws ws_diff : nat -> Store) (w w' : World)
    (verdict : bool) :
  test_process_pool_isolation ws ws_diff w = (Ok verdict, w') ->
  let config := _get_edfa_config in
  let tasks := replicate NUM_WORKERS (config, None) in
  let tasks_diff := map (fun p => (config, Some p)) powers in
  (exists e, pool_map ws 0 tasks = Raise e /\ verdict = false) \/
  (exists e, pool_map ws_diff 0 tasks_diff = Raise e /\ verdict = false) \/
  (exists reference results results_diff references_diff statuses matches,
      (on_store (_run_single_simulation config None) w).1 = Ok reference /\
      pool_map ws 0 tasks = Ok results /\
      pool_map ws_diff 0 tasks_diff = Ok results_diff /\
      (exists w1, (reference_runs config powers w1).1 = Ok references_diff) /\
      Forall2 (fun r b => exists wa wb,
                   process_same_status reference r wa = (Ok b, wb))
        results statuses /\
      Forall2 (fun p b => exists wa wb, process_diff_status p wa = (Ok b, wb))
        (zip results_diff references_diff) matches /\
      verdict = forallb id statuses && forallb id matches).
Proof.
  intros H. cbv zeta. unfold test_process_pool_isolation in H. cbv zeta in H.
  unfold bind at 1 in H.
  destruct (on_store _ w) as [[reference|e|] w1] eqn:Href; try discriminate.
  unfold bind at 1 in H.
  destruct (lift _ w1) as [[v|e|] w2]; try discriminate.
  unfold bind at 1 in H.
  pose proof (guarded_pool_map_cases ws
                (replicate NUM_WORKERS (_get_edfa_config, None)) w2) as Hp.
  destruct (pool_map ws 0 _) as [results|e|] eqn:Hpool.
  2:{ destruct Hp as [w3 Hp]. rewrite Hp in H. injection H as <- _.
      left. eauto. }
  2:{ rewrite Hp in H. discriminate. }
  rewrite Hp in H. clear Hp.
  unfold bind at 1 in H.
  destruct (for_each _ results w2) as [[statuses|e|] w3] eqn:Hst; try discriminate.
  unfold bind at 1 in H.
  pose proof (guarded_pool_map_cases ws_diff
                (map (fun p => (_get_edfa_config, Some p)) powers) w3) as Hp.
  destruct (pool_map ws_diff 0 _) as [results_diff|e|] eqn:Hpool2.
  2:{ destruct Hp as [w4 Hp]. rewrite Hp in H. injection H as <- _.
      right; left. eauto. }
  2:{ rewrite Hp in H. discriminate. }
  rewrite Hp in H. clear Hp.
  unfold bind at 1 in H.
  destruct (for_each _ results_diff w3) as [[gsnr_vals|e|] w4]; try discriminate.
  unfold bind at 1 in H.
  match type of H with
  | match ?c w4 with _ => _ end = _ =>
      destruct (c w4) as [[u|e|] w5]; try discriminate
  end.
  unfold bind at 1 in H.
  destruct (reference_runs _ _ w5) as [[references_diff|e|] w6] eqn:Hrefs;
    try discriminate.
  unfold bind at 1 in H.
  destruct (for_each _ (zip results_diff references_diff) w6)
    as [[matches|e|] w7] eqn:Hm; try discriminate.
  unfold bind at 1 in H.
  match type of H with
  | match ?c w7 with _ => _ end = _ =>
      destruct (c w7) as [[u'|e|] w8]; try discriminate
  end.
  unfold bind at 1 in H. unfold print at 1 in H. unfold ret in H.
  injection H as <- _.
  right; right.
  exists reference, results, results_diff, references_diff, statuses, matches.
  split; [reflexivity|].
  split; [reflexivity|]. split; [reflexivity|].
  split; [exists w5; rewrite Hrefs; reflexivity|].
  split; [eapply for_each_Ok_Forall2; exact Hst|].
  split; [eapply for_each_Ok_Forall2; exact Hm | reflexivity].
Qed.

End VerdictProperties.

Lemma verdict_is_conjunction_witness :
  (exists e, @pool_map good_engine (fun _ => O) 0
               (replicate NUM_WORKERS (_get_edfa_config, None)) = Raise e /\
             true = false) \/
  (exists e, @pool_map good_engine (fun _ => O) 0
               (map (fun p => (_get_edfa_config, Some p)) powers) = Raise e /\
             true = false) \/
  (exists reference results results_diff references_diff statuses matches,
      (on_store (@_run_single_simulation good_engine _get_edfa_config None)
         (@world0 good_engine O)).1 = Ok reference /\
      @pool_map good_engine (fun _ => O) 0
        (replicate NUM_WORKERS (_get_edfa_config, None)) = Ok results /\
      @pool_map good_engine (fun _ => O) 0
        (map (fun p => (_get_edfa_config, Some p)) powers) = Ok results_diff /\
      (exists w1, (@reference_runs good_engine _get_edfa_config powers w1).1
                  = Ok references_diff) /\
      Forall2 (fun r b => exists wa wb,
                   @process_same_status good_engine reference r wa = (Ok b, wb))
        results statuses /\
      Forall2 (fun p b => exists wa wb,
                   @process_diff_status good_engine p wa = (Ok b, wb))
        (zip results_diff references_diff) matches /\
      true = forallb id statuses && forallb id matches).
Proof.
  eapply (@verdict_is_conjunction good_engine (fun _ => O) (fun _ => O)
            (@world0 good_engine O)).
  vm_compute. reflexivity.
Defined.

(** With an engine on which the launch power has no effect, the four
    concurrent results of the differing-parameters check are one and the
    same mapping, the warning is printed, and the verdict is still true. *)
Lemma identical_results_still_pass :
  (exists r, @pool_map flat_engine (fun _ => O) 0
               (map (fun p => (_get_edfa_config, Some p)) powers)
             = Ok [r; r; r; r]) /\
  (@test_process_pool_isolation flat_engine (fun _ => O) (fun _ => O)
     (@world0 flat_engine O)).1 = Ok true /\
  In "WARNING: All power levels produced identical GSNR"
    (stdout (@test_process_pool_isolation flat_engine (fun _ => O) (fun _ => O)
               (@world0 flat_engine O)).2).
Proof.
  split; [|split].
  - eexists. vm_compute. reflexivity.
  - vm_compute. reflexivity.
  - vm_compute. tauto.
Qed.
Section HistoryFacts.
Context {E : Engine}.

(** *** Histories, one event at a time *)

Lemma events_of_app t tr1 tr2 :
  events_of t (tr1 ++ tr2) = events_of t tr1 ++ events_of t tr2.
Proof. unfold events_of. rewrite List.filter_app, map_app. reflexivity. Qed.

Lemma events_of_snoc_own t tr ev :
  events_of t (tr ++ [(t, ev)]) = events_of t tr ++ [ev].
Proof.
  rewrite events_of_app. unfold events_of at 2. simpl.
  rewrite Nat.eqb_refl. reflexivity.
Qed.

Lemma events_of_snoc_other t t' tr ev :
  t' <> t -> events_of t (tr ++ [(t', ev)]) = events_of t tr.
Proof.
  intros Hne. rewrite events_of_app. unfold events_of at 2. simpl.
  destruct (Nat.eqb_spec t' t); [contradiction|]. apply app_nil_r.
Qed.

Lemma count_events_snoc kind evs ev :
  count_events kind (evs ++ [ev]) =
  (count_events kind evs + (if kind ev then 1 else 0))%nat.
Proof.
  unfold count_events. rewrite List.filter_app, length_app. simpl.
  destruct (kind ev); reflexivity.
Qed.

Lemma stored_entries_snoc evs ev :
  stored_entries (evs ++ [ev]) =
  stored_entries evs ++ match ev with EvStore i e => [(i, e)] | _ => [] end.
Proof.
  unfold stored_entries. rewrite flat_map_app. simpl.
  rewrite app_nil_r. reflexivity.
Qed.

Lemma lock_owner_snoc tr te :
  lock_owner (tr ++ [te]) = lock_step (lock_owner tr) te.
Proof. unfold lock_owner. rewrite fold_left_app. reflexivity. Qed.

(** *** Registry entries *)

Lemma result_dict_well_formed dest : well_formed (result_dict dest).
Proof.
  left. unfold is_result_entry, result_dict.
  rewrite !dom_insert_L, dom_empty_L. set_solver.
Qed.

Lemma error_dict_well_formed e : well_formed (error_dict e).
Proof.
  right. exists e. unfold error_dict. apply insert_empty.
Qed.

End HistoryFacts.

(** Case analysis on one step of a thread, and rewriting of histories
    that grew by one event. *)
Ltac tstep_cases H :=
  unfold tstep, deepcopy in H; cbv beta iota zeta in H;
  repeat match type of H with
         | context [match ?x with _ => _ end] => destruct x eqn:?
         end;
  try discriminate; injection H as <- <-.

Ltac hist :=
  repeat first
    [ rewrite events_of_snoc_own
    | rewrite events_of_snoc_other by congruence
    | rewrite count_events_snoc
    | rewrite stored_entries_snoc
    | rewrite lock_owner_snoc ].

Section BatchInvariant.
Context {E : Engine}.

Lemma tstep_own a t g l g' l' :
  t_index a = t ->
  thread_ok g t l ->
  tstep a t g l = Some (g', l') ->
  thread_ok g' t l'.
Proof.
  intros Hidx [Hcrit Hfresh Hbk Hrs Hst Hen] H.
  tstep_cases H.
  all: simpl in *.
  all: constructor; simpl; hist; simpl; rewrite ?Nat.add_0_r, ?app_nil_r.
  all: try (first [ assumption | discriminate | reflexivity ]).
  all: try (unfold handler; intros e' [He|He]; try discriminate;
            injection He as <-;
            first [ apply result_dict_well_formed
                  | apply error_dict_well_formed
                  | apply Hen; auto ]).
  all: try (split; intros; first [ reflexivity | discriminate ]).
  all: try (rewrite Hfresh in Hbk by reflexivity; rewrite Hbk; reflexivity).
  all: try (intros; discriminate).
  all: try match goal with
           | Hb : sim_params_backup _ = _ |- _ =>
               rewrite Hb in *; rewrite ?Hrs, ?Hbk; reflexivity
           end.
  all: try (rewrite Hrs, Hbk; reflexivity).
  - (* the registry write *)
    rewrite Hst, Hidx. simpl. exists entry.
    split; [reflexivity|]. split; [apply lookup_insert_eq|].
    apply Hen. auto.
Qed.

Lemma tstep_frame a t g l g' l' t' l2 :
  t_index a = t ->
  thread_ok g t l ->
  tstep a t g l = Some (g', l') ->
  t' <> t ->
  thread_ok g t' l2 ->
  thread_ok g' t' l2.
Proof.
  intros Hidx [Hcrit _ _ _ _ _] H Hne [Hcrit2 Hfresh2 Hbk2 Hrs2 Hst2 Hen2].
  tstep_cases H.
  all: simpl in *.
  all: constructor; simpl; hist; try assumption.
  all: try (rewrite lookup_insert_ne by congruence; assumption).
  - (* acquire: the lock was free *)
    split; intros Hc; [apply Hcrit2 in Hc; discriminate | congruence].
  - (* release: this thread held the lock *)
    assert (Hl : lock g = Some t) by (apply Hcrit; reflexivity).
    rewrite Hl in Hcrit2.
    split; intros Hc; [apply Hcrit2 in Hc; congruence | discriminate].
Qed.

Lemma tstep_lock a t g l g' l' :
  thread_ok g t l ->
  lock_owner (trace g) = Some (lock g) ->
  tstep a t g l = Some (g', l') ->
  lock_owner (trace g') = Some (lock g').
Proof.
  intros [Hcrit _ _ _ _ _] Hlock H.
  tstep_cases H.
  all: simpl in *; hist; rewrite ?Hlock; try reflexivity.
  all: try (destruct (lock g); reflexivity).
  - rewrite (proj1 Hcrit eq_refl). simpl. rewrite Nat.eqb_refl. reflexivity.
  - rewrite (proj1 Hcrit eq_refl). simpl. rewrite Nat.eqb_refl. reflexivity.
Qed.

Lemma tstep_own_index a t g l g' l' :
  t_index a = t ->
  Forall own_index (trace g) ->
  tstep a t g l = Some (g', l') ->
  Forall own_index (trace g').
Proof.
  intros Hidx Hall H.
  tstep_cases H.
  all: simpl; try assumption.
  all: apply Forall_app; split; [assumption|].
  all: constructor; [|constructor].
  all: unfold own_index; simpl; auto.
Qed.

Lemma tstep_registry a t g l g' l' :
  registry_ok g ->
  tstep a t g l = Some (g', l') ->
  registry_ok g'.
Proof.
  intros Hreg H i e.
  tstep_cases H.
  all: simpl; try (apply Hreg).
  all: try (intros Hi; destruct (Hreg i e Hi) as [t' Ht']; exists t';
            apply in_or_app; left; exact Ht').
  intros Hi. destruct (decide (t_index a = i)) as [<-|Hne].
  - rewrite lookup_insert_eq in Hi. injection Hi as <-.
    exists t. apply in_or_app. right. left. reflexivity.
  - rewrite lookup_insert_ne in Hi by assumption.
    destruct (Hreg i e Hi) as [t' Ht']. exists t'.
    apply in_or_app. left. exact Ht'.
Qed.

Lemma sched_step_inv sys t : batch_inv sys -> batch_inv (sched_step sys t).
Proof.
  intros Hinv. pose proof Hinv as (Hth & Hlock & Hown & Hreg). unfold sched_step.
  destruct (threads sys !! t) as [[a l]|] eqn:Ht; [|exact Hinv].
  destruct (tstep a t (shared sys) l) as [[g' l']|] eqn:Hstep; [|exact Hinv].
  destruct (Hth t a l Ht) as [Hidx Hok].
  split; [|split; [|split]]; simpl.
  - intros t' a' l2 Hlook.
    destruct (decide (t' = t)) as [->|Hne].
    + rewrite list_lookup_insert_eq in Hlook by (eapply lookup_lt_Some; eassumption).
      injection Hlook as <- <-. split; [assumption|].
      exact (tstep_own a t _ l g' l' Hidx Hok Hstep).
    + rewrite list_lookup_insert_ne in Hlook by congruence.
      destruct (Hth t' a' l2 Hlook) as [Hidx' Hok'].
      split; [assumption|].
      exact (tstep_frame a t _ l g' l' t' l2 Hidx Hok Hstep Hne Hok').
  - exact (tstep_lock a t _ l g' l' Hok Hlock Hstep).
  - exact (tstep_own_index a t _ l g' l' Hidx Hown Hstep).
  - exact (tstep_registry a t _ l g' l' Hreg Hstep).
Qed.

Lemma run_sched_inv sched sys : batch_inv sys -> batch_inv (run_sched sched sys).
Proof.
  unfold run_sched. revert sys.
  induction sched as [|t sched IH]; intros sys Hinv; simpl; [assumption|].
  apply IH, sched_step_inv, Hinv.
Qed.

Lemma spawn_lookup config ps t a l :
  spawn config ps !! t = Some (a, l) ->
  exists p, ps !! t = Some p /\
            a = {| t_config := config; t_power := p; t_index := t |} /\ l = fresh_thread.
Proof.
  unfold spawn. rewrite list_lookup_imap.
  destruct (ps !! t) as [p|]; simpl; [|discriminate].
  intros [= <- <-]. eauto.
Qed.

Lemma batch_inv_initial config ps s : batch_inv (batch config ps s).
Proof.
  split; [|split; [|split]].
  - intros t a l Hlook. simpl in Hlook.
    destruct (spawn_lookup _ _ _ _ _ Hlook) as (p & _ & -> & ->).
    split; [reflexivity|].
    constructor; simpl; try reflexivity.
    + split; discriminate.
    + intros e [He|He]; discriminate.
  - reflexivity.
  - constructor.
  - intros i e Hi. unfold batch, initial_shared in Hi.
    cbn [shared results_dict] in Hi.
    rewrite lookup_empty in Hi. discriminate.
Qed.

Lemma batch_inv_reachable sched config ps s :
  batch_inv (run_sched sched (batch config ps s)).
Proof. apply run_sched_inv, batch_inv_initial. Qed.

Lemma in_events_of t ev tr : In (t, ev) tr -> In ev (events_of t tr).
Proof.
  intros Hin. unfold events_of.
  apply (in_map snd _ (t, ev)). apply filter_In. split; [assumption|].
  simpl. apply Nat.eqb_refl.
Qed.

Lemma in_stored_entries i e evs :
  In (EvStore i e) evs -> In (i, e) (stored_entries evs).
Proof.
  intros Hin. unfold stored_entries. apply in_flat_map.
  exists (EvStore i e). split; [assumption|]. left. reflexivity.
Qed.


(** C2, as the code has it: under every schedule, a worker that has
    terminated ran the restore step as many times as it took the backup,
    which is once at most: exactly once on every exit path on which the
    backup was taken, and not at all when the exception came before it
    ([hasattr] guards the restore). *)
Theorem restore_follows_backup (config : Config) (ps : list (option Q))
    (s : Store) (sched : list nat) (t : nat) (a : targs) (l : tlocal) :
  let sys := run_sched sched (batch config ps s) in
  let evs := events_of t (trace (shared sys)) in
  threads sys !! t = Some (a, l) ->
  pc l = PDone ->
  count_events is_restore evs = count_events is_backup evs /\
  count_events is_backup evs =
    match sim_params_backup l with Some _ => 1%nat | None => 0%nat end.
Proof.
  intros sys evs Hlook Hdone.
  destruct (batch_inv_reachable sched config ps s) as (Hth & _).
  destruct (Hth t a l Hlook) as [_ Hok].
  pose proof (ok_restores _ _ _ Hok) as Hrs. rewrite Hdone in Hrs.
  split; [exact Hrs | exact (ok_backups _ _ _ Hok)].
Qed.

End BatchInvariant.

Lemma restore_follows_backup_witness :
  count_events is_restore
    (events_of 0
       (trace (shared (@run_sched good_engine (round_robin 20)
                         (@batch good_engine _get_edfa_config (map Some powers) O)))))
  = 1%nat.
Proof.
  edestruct (@restore_follows_backup good_engine _get_edfa_config
               (map Some powers) O (round_robin 20) 0%nat) as (Hrs & Hbk).
  - vm_compute. reflexivity.
  - reflexivity.
  - rewrite Hrs, Hbk. reflexivity.
Defined.

(** When loading the equipment raises, the worker records the error and
    terminates without having taken a backup, and its restore step does
    not run: on this exit path the step is executed zero times. *)
Lemma restore_skipped_without_backup :
  all_done (@run_sched broken_engine (round_robin 20)
              (@batch broken_engine _get_edfa_config [None] O)) = true /\
  results_dict
    (shared (@run_sched broken_engine (round_robin 20)
               (@batch broken_engine _get_edfa_config [None] O))) !! 0%nat
  = Some (error_dict ConfigError) /\
  count_events is_restore
    (events_of 0
       (trace (shared (@run_sched broken_engine (round_robin 20)
                         (@batch broken_engine _get_edfa_config [None] O)))))
  = 0%nat.
Proof.
  split; [|split]; vm_compute; reflexivity.
Qed.
Section SoloRun.
Context {E : Engine}.

Lemma tstep_solo s0 a g l g' l' :
  solo_ok s0 g l ->
  tstep a 0 g l = Some (g', l') ->
  solo_ok s0 g' l'.
Proof.
  intros [Hsets Hrests Halloc Hbk Hfresh Hbefore Hnone Hdone] H.
  tstep_cases H.
  all: unfold shared_value in *; simpl in *.
  all: constructor; unfold shared_value; simpl; hist; simpl.
  all: try match goal with
           | Hb : sim_params_backup ?x = _ |- _ => rewrite Hb in *
           end.
  all: try assumption.
  all: try (intros; discriminate).
  all: try (intros; congruence).
  all: try lia.
  (* the thread's copy stays an object of its own, of value s0 *)
  all: try (intros addr Ha; destruct (Hbk addr Ha) as (Hlt & Hval & Hne);
            split; [exact Hlt|]; split;
            [ rewrite ?fn_lookup_insert_ne
                by (apply not_eq_sym, Hne; discriminate);
              exact Hval
            | intros _; apply Hne; discriminate ]).
  (* histories that grew by one event *)
  all: try (intros x Hin; apply in_app_or in Hin;
            destruct Hin as [Hin|[Hin|[]]];
            [ first [ apply Hsets; exact Hin | apply Hrests; exact Hin ]
            | try discriminate; injection Hin as <-;
              first [ apply Hbefore; reflexivity
                    | apply (Hbk _ eq_refl) ] ]).
  (* a thread without backup *)
  all: try (intros Hn; destruct (Hnone Hn) as (_ & Hc & _); discriminate Hc).
  all: try (intros Hn; destruct (Hnone Hn) as (Hs & Hc & Hno);
            split; [assumption|]; split; [reflexivity|];
            intros b Hin; try (apply in_app_or in Hin;
                               destruct Hin as [Hin|[Hin|[]]]; [|discriminate]);
            exact (Hno b Hin)).
  - (* the backup: a new object with the value of the shared one *)
    intros addr [= <-]. split; [lia|]. split.
    + rewrite fn_lookup_insert. apply Hbefore. reflexivity.
    + intros _. lia.
  - intros _. rewrite fn_lookup_insert_ne by lia. apply Hbefore. reflexivity.
  - (* the restore: the attribute now refers to the copy *)
    apply (Hbk _ eq_refl).
  - intros addr [= <-]. destruct (Hbk _ eq_refl) as (Hlt & Hval & _).
    split; [exact Hlt|]. split; [exact Hval|]. intros Hc. contradiction.
  - intros _. destruct (Hbk _ eq_refl) as (_ & Hval & _).
    split; [exact Hval|]. intros _. rewrite Hval.
    apply in_or_app. right. left. reflexivity.
  - intros _. destruct (Hnone eq_refl) as (Hs & _).
    split; [exact Hs|]. intros Hn. contradiction.
Qed.

Lemma solo_ok_initial s0 : solo_ok s0 (initial_shared s0) fresh_thread.
Proof.
  constructor; simpl.
  - intros b [].
  - intros r [].
  - lia.
  - intros b H; discriminate H.
  - intros _; reflexivity.
  - intros _; reflexivity.
  - intros _. split; [reflexivity|]. split; [reflexivity|]. intros b [].
  - intros H; discriminate H.
Qed.

Lemma sched_step_solo s0 sys t :
  (exists a l, threads sys = [(a, l)] /\ solo_ok s0 (shared sys) l) ->
  exists a l, threads (sched_step sys t) = [(a, l)] /\
              solo_ok s0 (shared (sched_step sys t)) l.
Proof.
  intros (a & l & Hth & Hok). unfold sched_step. rewrite Hth.
  destruct t as [|t]; simpl.
  - destruct (tstep a 0 (shared sys) l) as [[g' l']|] eqn:Hstep; simpl.
    + exists a, l'. split; [reflexivity|]. eapply tstep_solo; eassumption.
    + exists a, l. auto.
  - exists a, l. auto.
Qed.

Lemma run_sched_solo s0 sched sys :
  (exists a l, threads sys = [(a, l)] /\ solo_ok s0 (shared sys) l) ->
  exists a l, threads (run_sched sched sys) = [(a, l)] /\
              solo_ok s0 (shared (run_sched sched sys)) l.
Proof.
  unfold run_sched. revert sys.
  induction sched as [|t sched IH]; intros sys H; simpl; [exact H|].
  apply IH, sched_step_solo, H.
Qed.

(** C7: a thread task that runs alone leaves [SimParams._shared_dict] as
    it found it.  Under every schedule of a one-task batch started on a
    shared dictionary of value [s0]: the value the task observes just
    before its reset step and the value observed just after its restore
    step are equal (both are [s0]); and once the task has terminated the
    shared dictionary has the value [s0] again, the restore step having
    run whenever the reset step did. *)
Theorem solo_round_trip (config : Config) (p : option Q) (s0 : Store)
    (sched : list nat) :
  let sys := run_sched sched (batch config [p] s0) in
  let evs := events_of 0 (trace (shared sys)) in
  (forall before restored,
      In (EvSetParams before) evs -> In (EvRestore restored) evs ->
      restored = before) /\
  (all_done sys = true ->
   shared_value (shared sys) = s0 /\
   forall before, In (EvSetParams before) evs -> In (EvRestore before) evs).
Proof.
  intros sys evs.
  destruct (run_sched_solo s0 sched (batch config [p] s0)) as (a & l & Hth & Hok).
  { eexists _, _. split; [reflexivity|]. apply solo_ok_initial. }
  fold sys in Hth, Hok. split.
  - intros before restored Hb Hr.
    rewrite (solo_resets _ _ _ Hok before Hb).
    apply (solo_restores _ _ _ Hok restored Hr).
  - intros Hdone. unfold all_done in Hdone. rewrite Hth in Hdone.
    simpl in Hdone. rewrite andb_true_r in Hdone.
    assert (Hpc : pc l = PDone) by (destruct (pc l); try discriminate; reflexivity).
    destruct (solo_done _ _ _ Hok Hpc) as [Hs Hrestored].
    split; [exact Hs|]. intros before Hb.
    rewrite (solo_resets _ _ _ Hok before Hb).
    apply Hrestored. intros Hnone.
    destruct (solo_no_backup _ _ _ Hok Hnone) as (_ & _ & Hno).
    exact (Hno before Hb).
Qed.

End SoloRun.

(** The round trip on a run: the engine leaves the shared dictionary at
    2, the reset found 5 and the restore leaves 5. *)
Example solo_round_trip_run :
  let sys := @run_sched good_engine (replicate 10 0%nat)
               (@batch good_engine _get_edfa_config [None] 5%nat) in
  all_done sys = true /\
  In (@EvSetParams good_engine 5%nat) (events_of 0 (trace (shared sys))) /\
  In (@EvRestore good_engine 5%nat) (events_of 0 (trace (shared sys))) /\
  @shared_value good_engine (shared sys) = 5%nat.
Proof. vm_compute. tauto. Qed.


(** With a second task the round trip can fail.  Task 1 takes its backup
    after task 0 has reset the dictionary, and resets after task 0 has
    restored: it then changes, in place, the very object task 0 restored
    (the attribute refers to task 0's copy, at address 1), and its own
    restore leaves the value 0 where the batch found 5. *)
Example round_trip_needs_isolation :
  let sched := replicate 4 0%nat ++ replicate 3 1%nat
               ++ replicate 6 0%nat ++ replicate 7 1%nat in
  let sys := @run_sched good_engine sched
               (@batch good_engine _get_edfa_config [None; None] 5%nat) in
  all_done sys = true /\
  @shared_value good_engine (shared sys) = 0%nat /\
  @objects good_engine (shared sys) 1%nat = 2%nat.
Proof. vm_compute. tauto. Qed.
Section Hanging.
Context {E : Engine}.

Lemma tstep_waiting a t g l g' l' eq net :
  design_hangs a eq net ->
  waiting_for_design eq net (pc l) ->
  tstep a t g l = Some (g', l') ->
  waiting_for_design eq net (pc l').
Proof.
  intros (Heq & Hnet & Hlen & Hhang) Hw H. unfold tstep in H.
  destruct Hw as [Hpc|[Hpc|[Hpc|[Hpc|Hpc]]]]; rewrite Hpc in H.
  - rewrite Heq in H. injection H as <- <-. right; left. reflexivity.
  - rewrite Hnet in H. injection H as <- <-. right; right; left. reflexivity.
  - injection H as <- <-. right; right; right; left. reflexivity.
  - injection H as <- <-. right; right; right; right. reflexivity.
  - exfalso.
    destruct (_find_transceivers net) as [|u0 [|u1 us]]; simpl in Hlen; try lia.
    unfold getitem_list in H. simpl in H.
    specialize (Hhang u0 u1 (shared_value g)).
    destruct (designed_network eq net u0 u1 (t_power a) (shared_value g))
      as [[[[n r1] r2]|e|] s']; simpl in Hhang; discriminate.
Qed.

Lemma waiting_not_done eq net p :
  waiting_for_design eq net p -> is_done p = false /\ has_stored p = false.
Proof. intros [->|[->|[->|[->| ->]]]]; split; reflexivity. Qed.

Lemma run_sched_waiting sched sys t a l eq net :
  design_hangs a eq net ->
  threads sys !! t = Some (a, l) ->
  waiting_for_design eq net (pc l) ->
  exists l', threads (run_sched sched sys) !! t = Some (a, l') /\
             waiting_for_design eq net (pc l').
Proof.
  intros Hhang. unfold run_sched. revert sys l.
  induction sched as [|t' sched IH]; intros sys l Hlook Hw; simpl; [eauto|].
  assert (Hstep : exists l1, threads (sched_step sys t') !! t = Some (a, l1) /\
                             waiting_for_design eq net (pc l1)).
  { unfold sched_step. destruct (decide (t' = t)) as [->|Hne].
    - rewrite Hlook.
      destruct (tstep a t (shared sys) l) as [[g' l1]|] eqn:Hstep; simpl; [|eauto].
      exists l1. split.
      + apply list_lookup_insert_eq. eapply lookup_lt_Some; eassumption.
      + eapply tstep_waiting; eassumption.
    - destruct (threads sys !! t') as [[a' l2]|]; [|eauto].
      destruct (tstep a' t' (shared sys) l2) as [[g' l3]|]; simpl; [|eauto].
      exists l. split; [|assumption].
      rewrite list_lookup_insert_ne by assumption. assumption. }
  destruct Hstep as (l1 & Hlook1 & Hw1). eapply IH; eassumption.
Qed.

(** A batch with a worker that never returns: under every schedule the
    join has not completed and the registry has nothing for that worker. *)
Lemma hung_worker_never_done config ps s t p eq net sched :
  ps !! t = Some p ->
  design_hangs {| t_config := config; t_power := p; t_index := t |} eq net ->
  all_done (run_sched sched (batch config ps s)) = false /\
  results_dict (shared (run_sched sched (batch config ps s))) !! t = None.
Proof.
  intros Hp Hhang.
  set (a := {| t_config := config; t_power := p; t_index := t |}) in *.
  assert (Hinit : threads (batch config ps s) !! t = Some (a, fresh_thread)).
  { simpl. unfold spawn. rewrite list_lookup_imap, Hp. reflexivity. }
  destruct (run_sched_waiting sched _ t a fresh_thread eq net Hhang Hinit)
    as (l & Hlook & Hw); [left; reflexivity|].
  destruct (waiting_not_done _ _ _ Hw) as [Hnd Hns].
  split.
  - destruct (all_done _) eqn:Hall; [|reflexivity].
    unfold all_done in Hall. rewrite forallb_forall in Hall.
    assert (Hin : In (a, l) (threads (run_sched sched (batch config ps s)))).
    { apply list_elem_of_In. eapply list_elem_of_lookup_2. exact Hlook. }
    specialize (Hall _ Hin). simpl in Hall. congruence.
  - destruct (batch_inv_reachable sched config ps s) as (Hth & _ & Hown & Hreg).
    destruct (Hth t a l Hlook) as [_ Hok].
    pose proof (ok_stored _ _ _ Hok) as Hst. rewrite Hns in Hst.
    destruct (results_dict _ !! t) as [e|] eqn:He; [exfalso|reflexivity].
    destruct (Hreg t e He) as [t' Hin].
    rewrite Forall_forall in Hown.
    assert (Heqt : t = t').
    { apply (Hown (t', EvStore t e)). apply list_elem_of_In. exact Hin. }
    subst t'. apply in_events_of, in_stored_entries in Hin.
    rewrite Hst in Hin. exact Hin.
Qed.

Lemma pool_map_hang ws k tasks i task :
  tasks !! i = Some task ->
  (_process_worker task (ws (k + i)%nat)).1 = Hang ->
  pool_map ws k tasks = Hang.
Proof.
  revert k i. induction tasks as [|t0 tasks IH]; intros k i Hi Hhang;
    [discriminate|].
  destruct i as [|i]; simpl in *.
  - injection Hi as ->. rewrite Nat.add_0_r in Hhang. rewrite Hhang. reflexivity.
  - rewrite (IH (S k) i Hi) by (rewrite <- Nat.add_succ_comm in Hhang; exact Hhang).
    destruct ((_process_worker t0 (ws k)).1); reflexivity.
Qed.

Lemma run_single_hang config p eq net s :
  design_hangs {| t_config := config; t_power := p; t_index := 0 |} eq net ->
  (_run_single_simulation config p s).1 = Hang.
Proof.
  intros (Heq & Hnet & Hlen & Hhang). simpl in *.
  unfold _run_single_simulation, bind, lift.
  rewrite Heq, Hnet.
  destruct (_find_transceivers net) as [|u0 [|u1 us]]; simpl in Hlen; try lia.
  unfold getitem_list. simpl.
  specialize (Hhang u0 u1 (set_params empty_settings s)).
  destruct (designed_network eq net u0 u1 p (set_params empty_settings s))
    as [[[[n r1] r2]|e|] s']; simpl in Hhang; try discriminate. reflexivity.
Qed.

(** C6, as the code has it: neither strategy bounds its wait.  When the
    engine never returns from [designed_network] for the Job of worker
    [t], then under every schedule of the thread batch the join has not
    completed and the registry holds nothing for that worker, no timeout
    entry either; [run_threads] does not return; and [pool.map] over the
    same Jobs does not return. *)
Theorem hung_worker_blocks_batch (config : Config) (ps : list (option Q))
    (t : nat) (p : option Q) (eq : Equipment) (net : Network) :
  ps !! t = Some p ->
  load_equipments_and_configs (equipment config) = Ok eq ->
  load_network (topology config) eq = Ok net ->
  (2 <= length (_find_transceivers net))%nat ->
  (forall src dst st, (designed_network eq net src dst p st).1 = Hang) ->
  (forall sched s,
      all_done (run_sched sched (batch config ps s)) = false /\
      results_dict (shared (run_sched sched (batch config ps s))) !! t = None) /\
  (forall sched w, (run_threads sched config ps w).1 = Hang) /\
  (forall ws, pool_map ws 0 (map (fun q => (config, q)) ps) = Hang).
Proof.
  intros Hp Heq Hnet Hlen Hhang.
  assert (Hd : forall i, design_hangs
                 {| t_config := config; t_power := p; t_index := i |} eq net).
  { intros i. repeat split; assumption. }
  split; [|split].
  - intros sched s. eapply hung_worker_never_done; [exact Hp | apply Hd].
  - intros sched w. unfold run_threads.
    destruct (hung_worker_never_done config ps (shared_dict w) t p eq net sched
                Hp (Hd t)) as [Hnd _].
    rewrite Hnd. reflexivity.
  - intros ws. eapply (pool_map_hang ws 0 _ t (config, p)).
    + rewrite list_lookup_fmap, Hp. reflexivity.
    + simpl. eapply run_single_hang. apply (Hd 0%nat).
Qed.

End Hanging.
Lemma hanging_engine_design_hangs t :
  @design_hangs hanging_engine
    {| t_config := _get_edfa_config; t_power := Some 0%Q; t_index := t |}
    tt two_trx.
Proof.
  split; [reflexivity|]. split; [reflexivity|]. split; [simpl; lia|].
  intros src dst st. reflexivity.
Qed.

Lemma hung_worker_blocks_batch_witness :
  (forall sched s,
      all_done (@run_sched hanging_engine sched
                  (@batch hanging_engine _get_edfa_config (map Some powers) s))
      = false /\
      results_dict
        (shared (@run_sched hanging_engine sched
                   (@batch hanging_engine _get_edfa_config (map Some powers) s)))
        !! 2%nat = None) /\
  (forall ws, @pool_map hanging_engine ws 0
                (map (fun q => (_get_edfa_config, q)) (map Some powers)) = Hang).
Proof.
  destruct (@hung_worker_blocks_batch hanging_engine _get_edfa_config
              (map Some powers) 2%nat (Some 0%Q) tt two_trx)
    as (Hthreads & _ & Hpool).
  - reflexivity.
  - reflexivity.
  - reflexivity.
  - simpl. lia.
  - intros src dst st. reflexivity.
  - split; assumption.
Defined.

(** With an engine that never returns for 0 dBm: the process-pool test
    never returns; in the thread batch the three other workers finish and
    record their entries, yet under every schedule the join is still
    blocked and the hung worker has no entry, so no timeout is reported. *)
Lemma no_timeout_on_hang :
  (@test_process_pool_isolation hanging_engine (fun _ => O) (fun _ => O)
     (@world0 hanging_engine O)).1 = Hang /\
  (exists r0 r1 r3,
      let reg := results_dict
                   (shared (@run_sched hanging_engine (round_robin 20)
                              (@batch hanging_engine _get_edfa_config
                                 (map Some powers) O))) in
      reg !! 0%nat = Some r0 /\ reg !! 1%nat = Some r1 /\ reg !! 3%nat = Some r3) /\
  (forall sched,
      all_done (@run_sched hanging_engine sched
                  (@batch hanging_engine _get_edfa_config (map Some powers) O))
      = false /\
      results_dict
        (shared (@run_sched hanging_engine sched
                   (@batch hanging_engine _get_edfa_config (map Some powers) O)))
        !! 2%nat = None /\
      (@run_threads hanging_engine sched _get_edfa_config (map Some powers)
         (@world0 hanging_engine O)).1 = Hang).
Proof.
  split; [vm_compute; reflexivity|]. split.
  - eexists _, _, _. vm_compute. repeat split.
  - intros sched.
    destruct (@hung_worker_never_done hanging_engine _get_edfa_config
                (map Some powers) O 2%nat (Some 0%Q) tt two_trx sched
                eq_refl (hanging_engine_design_hangs 2%nat)) as [Hnd Hnone].
    split; [exact Hnd|]. split; [exact Hnone|].
    unfold run_threads. simpl shared_dict. rewrite Hnd. reflexivity.
Qed.
Section IsolatedRun.
Context {E : Engine}.

(** What a reference run that returns went through. *)
Lemma run_single_Ok_inv config p s ref :
  (_run_single_simulation config p s).1 = Ok ref ->
  exists eq net src dst net' req ref_req s1 path s2 dest,
    load_equipments_and_configs (equipment config) = Ok eq /\
    load_network (topology config) eq = Ok net /\
    getitem_list (_find_transceivers net) 0 = Ok src /\
    getitem_list (_find_transceivers net) 1 = Ok dst /\
    designed_network eq net src dst p (set_params empty_settings s)
      = (Ok (net', req, ref_req), s1) /\
    transmission_simulation eq net' req ref_req s1 = (Ok path, s2) /\
    getitem_last path = Ok dest /\
    ref = result_dict dest.
Proof.
  unfold _run_single_simulation, bind, lift, ret. intros H.
  destruct (load_equipments_and_configs (equipment config)) as [eq|e|] eqn:Heq;
    try discriminate.
  destruct (load_network (topology config) eq) as [net|e|] eqn:Hnet;
    try discriminate.
  destruct (getitem_list (_find_transceivers net) 0) as [src|e|] eqn:Hsrc;
    try discriminate.
  destruct (getitem_list (_find_transceivers net) 1) as [dst|e|] eqn:Hdst;
    try discriminate.
  destruct (designed_network eq net src dst p (set_params empty_settings s))
    as [[[[net' req] ref_req]|e|] s1] eqn:Hd; try discriminate.
  destruct (transmission_simulation eq net' req ref_req s1)
    as [[path|e|] s2] eqn:Ht; try discriminate.
  destruct (getitem_last path) as [dest|e|] eqn:Hl; try discriminate.
  simpl in H. injection H as <-.
  exists eq, net, src, dst, net', req, ref_req, s1, path, s2, dest.
  repeat split; assumption || reflexivity.
Qed.

Lemma run_single_wholesale config p s s' :
  wholesale ->
  (_run_single_simulation config p s).1 = (_run_single_simulation config p s').1.
Proof.
  intros Hw. unfold _run_single_simulation, bind, lift, ret.
  destruct (load_equipments_and_configs (equipment config)) as [eq|e|];
    try reflexivity.
  destruct (load_network (topology config) eq) as [net|e|]; try reflexivity.
  rewrite (Hw empty_settings s s'); reflexivity.
Qed.



End IsolatedRun.
Section SoloProgressFacts.
Context {E : Engine}.



End SoloProgressFacts.

Section IsolatedRunTheorem.
Context {E : Engine}.





End IsolatedRunTheorem.



(** *** A batch makes progress *)

Section Liveness.
Context {E : Engine}.

Lemma tstep_measure a t g l g' l' :
  tstep a t g l = Some (g', l') ->
  (steps_left (pc l') < steps_left (pc l))%nat.
Proof.
  intros H. tstep_cases H.
  all: simpl; unfold handler; simpl; lia.
Qed.

Lemma steps_left_bound p : (steps_left p <= 10)%nat.
Proof. destruct p; simpl; lia. Qed.

Lemma steps_left_done p : steps_left p = 0%nat -> p = PDone.
Proof. destruct p; simpl; intros; try discriminate; reflexivity. Qed.

Lemma tstep_enabled a t g l :
  engine_returns ->
  pc l <> PDone ->
  (forall e, pc l = PAcquire e -> lock g = None) ->
  exists g' l', tstep a t g l = Some (g', l').
Proof.
  intros (Heq & Hnet & Hdes & Hsim) Hnd Hacq. unfold tstep.
  destruct (pc l) as [|eq|eq net|eq net|eq net|eq net req ref_req|e|e| | |] eqn:Hpc.
  - specialize (Heq (equipment (t_config a))).
    destruct (load_equipments_and_configs _); [eauto|eauto|congruence].
  - specialize (Hnet (topology (t_config a)) eq).
    destruct (load_network _ _); [eauto|eauto|congruence].
  - unfold deepcopy. eauto.
  - eauto.
  - unfold getitem_list.
    destruct (_find_transceivers net !! 0%nat) as [src|]; [|eauto].
    destruct (_find_transceivers net !! 1%nat) as [dst|]; [|eauto].
    specialize (Hdes eq net src dst (t_power a) (shared_value g)).
    destruct (designed_network _ _ _ _ _ _) as [[[[net' req] ref_req]|e|] s'];
      [eauto|eauto|]. simpl in Hdes. congruence.
  - specialize (Hsim eq net req ref_req (shared_value g)).
    destruct (transmission_simulation _ _ _ _ _) as [[path|e|] s'];
      [|eauto|simpl in Hsim; congruence].
    unfold getitem_last. destruct (last path); eauto.
  - rewrite (Hacq e eq_refl). eauto.
  - eauto.
  - eauto.
  - destruct (sim_params_backup l); eauto.
  - congruence.
Qed.

Lemma tstep_lock_own a t g l g' l' :
  (forall t', lock g = Some t' -> t' = t) ->
  tstep a t g l = Some (g', l') ->
  forall t', lock g' = Some t' -> t' = t.
Proof.
  intros Hl H. tstep_cases H.
  all: simpl; try assumption.
  all: intros t'; congruence.
Qed.

Lemma sched_step_length sys t :
  length (threads (sched_step sys t)) = length (threads sys).
Proof.
  unfold sched_step. destruct (threads sys !! t) as [[a l]|]; [|reflexivity].
  destruct (tstep a t (shared sys) l) as [[g' l']|]; [|reflexivity].
  simpl. apply length_insert.
Qed.

Lemma run_sched_length sched sys :
  length (threads (run_sched sched sys)) = length (threads sys).
Proof.
  unfold run_sched. revert sys.
  induction sched as [|t sched IH]; intros sys; simpl; [reflexivity|].
  rewrite IH. apply sched_step_length.
Qed.

Lemma sched_step_other sys t t' :
  t' <> t -> threads (sched_step sys t) !! t' = threads sys !! t'.
Proof.
  intros Hne. unfold sched_step.
  destruct (threads sys !! t) as [[a l]|]; [|reflexivity].
  destruct (tstep a t (shared sys) l) as [[g' l']|]; [|reflexivity].
  simpl. apply list_lookup_insert_ne. congruence.
Qed.

Lemma sched_step_bounds sys t :
  batch_inv sys -> batch_bounds sys -> batch_bounds (sched_step sys t).
Proof.
  intros (Hth & _) [Hreg Hlock]. unfold sched_step.
  destruct (threads sys !! t) as [[a l]|] eqn:Ht; [|split; assumption].
  destruct (tstep a t (shared sys) l) as [[g' l']|] eqn:Hstep; [|split; assumption].
  destruct (Hth t a l Ht) as [Hidx _].
  pose proof (lookup_lt_Some _ _ _ Ht) as Hlt.
  unfold batch_bounds. simpl. rewrite length_insert.
  tstep_cases Hstep.
  all: simpl; split; try assumption.
  all: try (intros t'; congruence).
  intros i e' Hi. destruct (decide (t_index a = i)) as [<-|Hne].
  - rewrite Hidx. exact Hlt.
  - rewrite lookup_insert_ne in Hi by assumption. eapply Hreg, Hi.
Qed.

Lemma run_sched_bounds sched sys :
  batch_inv sys -> batch_bounds sys -> batch_bounds (run_sched sched sys).
Proof.
  unfold run_sched. revert sys.
  induction sched as [|t sched IH]; intros sys Hinv Hb; simpl; [assumption|].
  apply IH; [apply sched_step_inv, Hinv | apply sched_step_bounds; assumption].
Qed.

Lemma batch_bounds_initial config ps s : batch_bounds (batch config ps s).
Proof.
  split; simpl.
  - intros i e Hi. rewrite lookup_empty in Hi. discriminate.
  - intros t Ht. discriminate.
Qed.

Lemma spawn_length config ps : length (spawn config ps) = length ps.
Proof. unfold spawn. apply length_imap. Qed.

Lemma all_done_lookup sys :
  all_done sys = true <->
  forall t a l, threads sys !! t = Some (a, l) -> pc l = PDone.
Proof.
  unfold all_done. rewrite forallb_forall. split.
  - intros H t a l Ht.
    specialize (H (a, l)). simpl in H.
    assert (Hin : In (a, l) (threads sys)).
    { apply list_elem_of_In. eapply list_elem_of_lookup_2, Ht. }
    specialize (H Hin). destruct (pc l); try discriminate. reflexivity.
  - intros H [a l] Hin. apply list_elem_of_In, list_elem_of_lookup_1 in Hin.
    destruct Hin as [t Ht]. simpl. rewrite (H t a l Ht). reflexivity.
Qed.


Lemma run_alone t a k : forall sys l,
  engine_returns ->
  batch_inv sys ->
  (forall t', lock (shared sys) = Some t' -> t' = t) ->
  threads sys !! t = Some (a, l) ->
  (steps_left (pc l) <= k)%nat ->
  let sys' := run_sched (replicate k t) sys in
  batch_inv sys' /\
  lock (shared sys') = None /\
  (exists l', threads sys' !! t = Some (a, l') /\ pc l' = PDone) /\
  (forall t', t' <> t -> threads sys' !! t' = threads sys !! t').
Proof.
  induction k as [|k IH]; intros sys l Hret Hinv Hown Ht Hk; simpl.
  - assert (Hpc : pc l = PDone) by (apply steps_left_done; lia).
    split; [assumption|]. split; [|split; [eauto|reflexivity]].
    destruct Hinv as (Hth & _). destruct (Hth t a l Ht) as [_ Hok].
    destruct (lock (shared sys)) as [t'|] eqn:Hl; [|reflexivity].
    rewrite (Hown t' eq_refl) in Hl.
    apply (ok_critical _ _ _ Hok) in Hl. rewrite Hpc in Hl. discriminate.
  - destruct (tstep a t (shared sys) l) as [[g' l']|] eqn:Hstep.
    + assert (Hs : sched_step sys t
                   = {| shared := g'; threads := <[t := (a, l')]> (threads sys) |}).
      { unfold sched_step. rewrite Ht, Hstep. reflexivity. }
      pose proof (lookup_lt_Some _ _ _ Ht) as Hlt.
      destruct (IH (sched_step sys t) l' Hret) as (Hinv' & Hlock' & Hdone' & Hoth').
      * apply sched_step_inv, Hinv.
      * rewrite Hs. simpl. eapply tstep_lock_own; eassumption.
      * rewrite Hs. simpl. apply list_lookup_insert_eq. exact Hlt.
      * pose proof (tstep_measure _ _ _ _ _ _ Hstep). lia.
      * split; [exact Hinv'|]. split; [exact Hlock'|]. split; [exact Hdone'|].
        intros t' Hne. rewrite (Hoth' t' Hne). apply sched_step_other, Hne.
    + assert (Hs : sched_step sys t = sys).
      { unfold sched_step. rewrite Ht, Hstep. reflexivity. }
      rewrite Hs.
      assert (Hpc : pc l = PDone).
      { destruct (is_done (pc l)) eqn:Hd;
          [destruct (pc l); try discriminate; reflexivity|].
        assert (Hnd : pc l <> PDone)
          by (intros Hpc; rewrite Hpc in Hd; discriminate).
        destruct (tstep_enabled a t (shared sys) l Hret Hnd) as (g' & l' & Hst).
        - intros e He. destruct (lock (shared sys)) as [t'|] eqn:Hl; [|reflexivity].
          rewrite (Hown t' eq_refl) in Hl.
          destruct Hinv as (Hth & _). destruct (Hth t a l Ht) as [_ Hok].
          apply (ok_critical _ _ _ Hok) in Hl. rewrite He in Hl. discriminate.
        - congruence. }
      apply (IH sys l Hret Hinv Hown Ht). rewrite Hpc. simpl. lia.
Qed.

Lemma run_sched_app sched1 sched2 sys :
  run_sched (sched1 ++ sched2) sys = run_sched sched2 (run_sched sched1 sys).
Proof. unfold run_sched. apply fold_left_app. Qed.

Lemma one_by_one_run n : forall m sys,
  engine_returns ->
  batch_inv sys ->
  lock (shared sys) = None ->
  (m + n <= length (threads sys))%nat ->
  (forall t a l, (t < m)%nat -> threads sys !! t = Some (a, l) -> pc l = PDone) ->
  let sys' := run_sched (flat_map (replicate 10) (seq m n)) sys in
  batch_inv sys' /\
  lock (shared sys') = None /\
  (forall t a l, (t < m + n)%nat -> threads sys' !! t = Some (a, l) -> pc l = PDone).
Proof.
  induction n as [|n IH]; intros m sys Hret Hinv Hlock Hlen Hdone.
  - simpl. split; [assumption|]. split; [assumption|].
    intros t a l Hlt. apply Hdone. lia.
  - change (flat_map (replicate 10) (seq m (S n)))
      with (replicate 10 m ++ flat_map (replicate 10) (seq (S m) n)).
    rewrite run_sched_app. cbv zeta.
    destruct (lookup_lt_is_Some_2 (threads sys) m ltac:(lia)) as [[a l] Hm].
    destruct (run_alone m a 10 sys l Hret Hinv) as (Hinv' & Hlock' & Hdone' & Hoth').
    + intros t'. rewrite Hlock. discriminate.
    + exact Hm.
    + apply steps_left_bound.
    + destruct (IH (S m) (run_sched (replicate 10 m) sys) Hret Hinv' Hlock')
        as (Hinv2 & Hlock2 & Hdone2).
      * rewrite run_sched_length. lia.
      * intros t a' l' Hlt Ht.
        destruct (decide (t = m)) as [->|Hne].
        -- destruct Hdone' as (l2 & Hl2 & Hpc). rewrite Hl2 in Ht.
           injection Ht as <- <-. exact Hpc.
        -- rewrite (Hoth' t Hne) in Ht. apply (Hdone t a' l'); [lia|exact Ht].
      * split; [exact Hinv2|]. split; [exact Hlock2|].
        intros t a' l' Hlt. apply Hdone2. lia.
Qed.

(** X1: the registry lock gives mutual exclusion.  Under every schedule
    of a batch, two workers that are both inside [with lock:] (at the
    registry write or at the release) are the same worker, and that worker
    is the one holding the lock. *)
Theorem registry_lock_excludes (config : Config) (ps : list (option Q))
    (s : Store) (sched : list nat) (t1 t2 : nat) (a1 a2 : targs) (l1 l2 : tlocal) :
  let sys := run_sched sched (batch config ps s) in
  threads sys !! t1 = Some (a1, l1) ->
  threads sys !! t2 = Some (a2, l2) ->
  in_critical (pc l1) = true ->
  in_critical (pc l2) = true ->
  t1 = t2 /\ lock (shared sys) = Some t1.
Proof.
  intros sys H1 H2 Hc1 Hc2.
  destruct (batch_inv_reachable sched config ps s) as (Hth & _).
  fold sys in Hth.
  destruct (Hth t1 a1 l1 H1) as [_ Hok1]. destruct (Hth t2 a2 l2 H2) as [_ Hok2].
  apply (ok_critical _ _ _ Hok1) in Hc1. apply (ok_critical _ _ _ Hok2) in Hc2.
  split; [congruence|exact Hc1].
Qed.

(** X2: once [join] has returned for every thread of a batch, the
    registry has an entry, of the result shape or of the error shape, at
    exactly the indices of the workers started: the NO RESULT branch of the
    verification loops cannot be taken for a worker of the batch, and
    there is no entry at any other index. *)
Theorem joined_registry_indices (config : Config) (ps : list (option Q))
    (s : Store) (sched : list nat) :
  let sys := run_sched sched (batch config ps s) in
  all_done sys = true ->
  forall i, (exists entry, results_dict (shared sys) !! i = Some entry /\
                           well_formed entry)
            <-> (i < length ps)%nat.
Proof.
  intros sys Hdone i.
  pose proof (batch_inv_reachable sched config ps s) as Hinv.
  pose proof (run_sched_bounds sched _ (batch_inv_initial config ps s)
                (batch_bounds_initial config ps s)) as [Hreg _].
  fold sys in Hinv, Hreg.
  assert (Hlen : length (threads sys) = length ps).
  { unfold sys. rewrite run_sched_length. simpl. apply spawn_length. }
  split.
  - intros (e & He & _). rewrite <- Hlen. eapply Hreg, He.
  - intros Hlt. rewrite <- Hlen in Hlt.
    destruct (lookup_lt_is_Some_2 _ _ Hlt) as [[a l] Ht].
    destruct Hinv as (Hth & _). destruct (Hth i a l Ht) as [_ Hok].
    pose proof (ok_stored _ _ _ Hok) as Hst.
    rewrite (proj1 (all_done_lookup sys) Hdone i a l Ht) in Hst. simpl in Hst.
    destruct Hst as (e & _ & He & Hwf). eauto.
Qed.


(** X4: ten steps per worker are enough.  When every engine call
    returns or raises, the schedule that runs the workers one after the
    other, ten steps each, ends with every thread joined: [run_threads]
    returns the registry, which has an entry for every worker. *)
Theorem one_by_one_completes (config : Config) (ps : list (option Q)) (w : World) :
  engine_returns ->
  exists registry,
    (run_threads (one_by_one (length ps)) config ps w).1 = Ok registry /\
    forall i, (i < length ps)%nat -> is_Some (registry !! i).
Proof.
  intros Hret. unfold run_threads.
  set (sys := run_sched (one_by_one (length ps)) (batch config ps (shared_dict w))).
  destruct (one_by_one_run (length ps) 0 (batch config ps (shared_dict w)) Hret)
    as (Hinv & _ & Hdone).
  - apply batch_inv_initial.
  - reflexivity.
  - simpl. rewrite spawn_length. lia.
  - intros t a l Hlt. lia.
  - fold (one_by_one (length ps)) in Hinv, Hdone. fold sys in Hinv, Hdone.
    assert (Hlen : length (threads sys) = length ps).
    { unfold sys. rewrite run_sched_length. simpl. apply spawn_length. }
    assert (Hall : all_done sys = true).
    { apply all_done_lookup. intros t a l Ht. apply (Hdone t a l); [|exact Ht].
      simpl. rewrite <- Hlen. eapply lookup_lt_Some, Ht. }
    rewrite Hall. simpl. eexists. split; [reflexivity|].
    intros i Hlt. rewrite <- Hlen in Hlt.
    destruct (lookup_lt_is_Some_2 _ _ Hlt) as [[a l] Ht].
    destruct Hinv as (Hth & _). destruct (Hth i a l Ht) as [_ Hok].
    pose proof (ok_stored _ _ _ Hok) as Hst.
    rewrite (Hdone i a l ltac:(simpl; lia) Ht) in Hst. simpl in Hst.
    destruct Hst as (e & _ & He & _). eauto.
Qed.

End Liveness.

Lemma good_engine_returns : @engine_returns good_engine.
Proof. repeat split; intros; discriminate. Qed.

Lemma registry_lock_excludes_witness :
  0%nat = 0%nat /\
  lock (shared (@run_sched good_engine (replicate 7 0%nat)
                  (@batch good_engine _get_edfa_config (map Some powers) O)))
  = Some 0%nat.
Proof.
  eapply (@registry_lock_excludes good_engine _get_edfa_config (map Some powers)
            O (replicate 7 0%nat) 0%nat 0%nat).
  - vm_compute. reflexivity.
  - vm_compute. reflexivity.
  - reflexivity.
  - reflexivity.
Defined.

Lemma joined_registry_indices_witness :
  exists entry,
    results_dict
      (shared (@run_sched good_engine (round_robin 20)
                 (@batch good_engine _get_edfa_config (map Some powers) O)))
      !! 3%nat = Some entry /\ well_formed entry.
Proof.
  apply (@joined_registry_indices good_engine _get_edfa_config (map Some powers)
           O (round_robin 20)).
  - vm_compute. reflexivity.
  - vm_compute. lia.
Defined.


Lemma one_by_one_completes_witness :
  exists registry,
    (@run_threads good_engine (one_by_one 4) _get_edfa_config (map Some powers)
       (@world0 good_engine O)).1 = Ok registry /\
    forall i, (i < 4)%nat -> is_Some (registry !! i).
Proof.
  apply (@one_by_one_completes good_engine _get_edfa_config (map Some powers)
           (@world0 good_engine O)).
  exact good_engine_returns.
Defined.

(** ** Edge cases of the checks *)

Section VerifierEdges.
Context {E : Engine}.

Lemma isclose_mono atol atol' rtol a b :
  (atol <= atol')%Q ->
  isclose atol rtol a b = true -> isclose atol' rtol a b = true.
Proof.
  intros Hle. unfold isclose. destruct a as [x|], b as [y|]; try discriminate.
  rewrite !Qle_bool_iff. intros H.
  eapply Qle_trans; [exact H|].
  apply Qplus_le_compat; [exact Hle | apply Qle_refl].
Qed.

Lemma allclose_mono atol atol' a b :
  (atol <= atol')%Q ->
  allclose a b atol = Ok true -> allclose a b atol' = Ok true.
Proof.
  intros Hle. unfold allclose.
  destruct (as_array a) as [xs|e|]; try discriminate.
  destruct (as_array b) as [ys|e|]; try discriminate.
  destruct (broadcast xs ys) as [ps|]; try discriminate.
  intros [= H]. f_equal. rewrite forallb_forall in *.
  intros p Hp. eapply isclose_mono; [exact Hle | apply H, Hp].
Qed.

Lemma atol_process_le_thread : (atol_process <= atol_thread)%Q.
Proof. vm_compute. discriminate. Qed.

(** X5: the thread check is the looser one.  Whatever the two mappings
    hold, a result without an error key that the first process-pool check
    reports as PASS against a reference is reported as PASS by the first
    thread check against the same reference. *)
Theorem process_pass_implies_thread_pass (reference result : pydict)
    (w w' : World) :
  contains result "error" = false ->
  (process_same_status reference result w).1 = Ok true ->
  (thread_same_status reference (Some result) w').1 = Ok true.
Proof.
  intros Herr. unfold process_same_status, thread_same_status, series_match.
  rewrite Herr. unfold bind, lift, ret, print.
  destruct (getitem result "gsnr_values") as [a|e|]; try discriminate.
  destruct (getitem reference "gsnr_values") as [b|e|]; try discriminate.
  destruct (allclose a b atol_process) as [g|e|] eqn:Hg; try discriminate.
  destruct (getitem result "osnr_values") as [a'|e|]; try discriminate.
  destruct (getitem reference "osnr_values") as [b'|e|]; try discriminate.
  destruct (allclose a' b' atol_process) as [o|e|]; try discriminate.
  destruct (getitem result "avg_gsnr") as [v|e|]; try discriminate.
  destruct (getitem result "avg_osnr") as [v'|e|]; try discriminate.
  simpl. intros [= H]. apply andb_true_iff in H. destruct H as [-> _].
  rewrite (allclose_mono _ _ _ _ atol_process_le_thread Hg). reflexivity.
Qed.

Lemma isclose_self atol x :
  (0 <= atol)%Q -> isclose atol default_rtol x x = float_eq x x.
Proof.
  intros Hatol. destruct x as [q|]; [|reflexivity]. cbn [isclose float_eq].
  rewrite Qeq_bool_refl. apply Qle_bool_iff.
  assert (Heq : (q - q == 0)%Q) by ring. rewrite Heq.
  change (Qabs 0) with 0%Q.
  apply (Qle_trans _ (atol + 0)%Q).
  - rewrite Qplus_0_r. exact Hatol.
  - apply Qplus_le_compat; [apply Qle_refl|].
    apply Qmult_le_0_compat; [vm_compute; discriminate | apply Qabs_nonneg].
Qed.

Lemma allclose_same atol xs :
  (0 <= atol)%Q -> allclose (VList xs) (VList xs) atol = Ok (nan_free xs).
Proof.
  intros Hatol. unfold allclose, as_array, broadcast. rewrite Nat.eqb_refl.
  f_equal. unfold nan_free. induction xs as [|x xs IH]; [reflexivity|].
  simpl. rewrite IH, (isclose_self _ _ Hatol). reflexivity.
Qed.

(** X6: NaN is close to nothing.  A result compared with a reference equal
    to itself passes a check exactly when the series the check reads hold
    no NaN: a run that reproduces its reference value for value is reported
    FAIL as soon as one of those values is NaN. *)
Theorem nan_fails_self_check (d : Element) (w : World) :
  (process_same_status (result_dict d) (result_dict d) w).1
  = Ok (nan_free (snr d) && nan_free (osnr_ase d)) /\
  (process_diff_status (result_dict d, result_dict d) w).1
  = Ok (nan_free (snr d)) /\
  (thread_same_status (result_dict d) (Some (result_dict d)) w).1
  = Ok (nan_free (snr d)).
Proof.
  split; [|split].
  - apply process_same_status_result; apply allclose_same; vm_compute; discriminate.
  - apply process_diff_status_result; apply allclose_same; vm_compute; discriminate.
  - apply thread_same_status_result; apply allclose_same; vm_compute; discriminate.
Qed.

Lemma broadcast_refused xs ys :
  length xs <> length ys -> length xs <> 1%nat -> length ys <> 1%nat ->
  broadcast xs ys = None.
Proof.
  intros Hne Hx Hy. unfold broadcast.
  destruct (Nat.eqb_spec (length xs) (length ys)) as [Heq|_]; [contradiction|].
  destruct xs as [|x [|x' xs]]; simpl in *; try congruence;
    destruct ys as [|y [|y' ys]]; simpl in *; congruence.
Qed.

(** X7: series of different lengths are not reported as FAIL.  When the
    GSNR series of a result and of its reference differ in length and
    neither has length one, [allclose] cannot broadcast them and each check
    raises [ValueError] in place of a status. *)
Theorem length_mismatch_raises (d dref : Element) (w : World) :
  length (snr d) <> length (snr dref) ->
  length (snr d) <> 1%nat ->
  length (snr dref) <> 1%nat ->
  (process_same_status (result_dict dref) (result_dict d) w).1 = Raise ValueError /\
  (process_diff_status (result_dict d, result_dict dref) w).1 = Raise ValueError /\
  (thread_same_status (result_dict dref) (Some (result_dict d)) w).1
  = Raise ValueError.
Proof.
  intros Hne Hx Hy.
  assert (Hall : forall atol,
             allclose (VList (snr d)) (VList (snr dref)) atol = Raise ValueError).
  { intros atol. unfold allclose, as_array.
    rewrite (broadcast_refused _ _ Hne Hx Hy). reflexivity. }
  split; [|split].
  - unfold process_same_status. unfold bind at 1.
    rewrite series_match_gsnr, Hall. reflexivity.
  - unfold process_diff_status. unfold bind at 1.
    rewrite series_match_gsnr, Hall. reflexivity.
  - unfold thread_same_status. rewrite result_dict_no_error. unfold bind at 1.
    rewrite series_match_gsnr, Hall. reflexivity.
Qed.

End VerifierEdges.

Lemma process_pass_implies_thread_pass_witness :
  (@thread_same_status good_engine
     (result_dict (flat_element 20 30))
     (Some (result_dict (flat_element (20 + (1 # 10000)) 30)))
     (@world0 good_engine O)).1 = Ok true.
Proof.
  apply (@process_pass_implies_thread_pass good_engine
           (result_dict (flat_element 20 30))
           (result_dict (flat_element (20 + (1 # 10000)) 30))
           (@world0 good_engine O) (@world0 good_engine O)).
  - reflexivity.
  - vm_compute. reflexivity.
Defined.

Lemma length_mismatch_raises_witness :
  (@process_same_status good_engine
     (result_dict {| snr := [Finite 20; Finite 21; Finite 22]; osnr_ase := [] |})
     (result_dict {| snr := [Finite 20; Finite 21]; osnr_ase := [] |})
     (@world0 good_engine O)).1 = Raise ValueError.
Proof.
  apply (@length_mismatch_raises good_engine
           {| snr := [Finite 20; Finite 21]; osnr_ase := [] |}
           {| snr := [Finite 20; Finite 21; Finite 22]; osnr_ase := [] |}
           (@world0 good_engine O)); simpl; lia.
Defined.

(** ** The process-pool test on an engine that repeats itself *)

Section PoolPasses.
Context {E : Engine}.

Lemma bind_Ok {S A B} (c : ST S A) (k : A -> ST S B) s a :
  (c s).1 = Ok a -> bind c k s = k a (c s).2.
Proof. unfold bind. destruct (c s) as [o s1]. simpl. intros ->. reflexivity. Qed.

Lemma for_each_fst {S A B} (body : A -> ST S B) (f : A -> B) l :
  (forall x, In x l -> forall s, (body x s).1 = Ok (f x)) ->
  forall s, (for_each body l s).1 = Ok (map f l).
Proof.
  induction l as [|x l IH]; intros H s; [reflexivity|]. simpl.
  rewrite (bind_Ok _ _ _ (f x)) by (apply H; left; reflexivity).
  rewrite (bind_Ok _ _ _ (map f l)) by (apply IH; intros y Hy; apply H; right; exact Hy).
  reflexivity.
Qed.

Lemma pool_map_Ok ws k tasks (f : Config * option Q -> pydict) :
  (forall task, In task tasks -> forall s, (_process_worker task s).1 = Ok (f task)) ->
  pool_map ws k tasks = Ok (map f tasks).
Proof.
  revert k. induction tasks as [|task tasks IH]; intros k H; [reflexivity|].
  simpl. rewrite (H task (or_introl eq_refl)).
  rewrite IH by (intros t Ht; apply H; right; exact Ht). reflexivity.
Qed.

Lemma zip_map_same {A B} (h : A -> B) l :
  zip (map h l) (map h l) = map (fun x => (h x, h x)) l.
Proof. induction l as [|x l IH]; [reflexivity|]. simpl. rewrite IH. reflexivity. Qed.

Lemma forallb_map_true {A} (l : list A) :
  forallb id (map (fun _ => true) l) = true.
Proof. induction l; [reflexivity|assumption]. Qed.

Lemma on_store_fst {A} (c : ST Store A) w : (on_store c w).1 = (c (shared_dict w)).1.
Proof. unfold on_store. destruct (c (shared_dict w)). reflexivity. Qed.

(** X8: the process-pool test passes on every engine that repeats
    itself.  When [set_params] replaces the store wholesale and the
    sequential runs for no power and for each of the four powers return
    result mappings whose GSNR series hold no NaN (and, for the run with no
    power, whose OSNR series holds none), [test_process_pool_isolation]
    returns [True], whatever stores the pool processes start from and
    whatever the coordinator's store holds. *)
Theorem process_pool_passes (ws ws_diff : nat -> Store) (w : World)
    (dest_of : option Q -> Element) :
  wholesale ->
  (forall p, In p (None :: map Some powers) ->
     (exists s, (_run_single_simulation _get_edfa_config p s).1
                = Ok (result_dict (dest_of p))) /\
     nan_free (snr (dest_of p)) = true) ->
  nan_free (osnr_ase (dest_of None)) = true ->
  (test_process_pool_isolation ws ws_diff w).1 = Ok true.
Proof.
  intros Hw Hruns Hosnr.
  assert (Hrun : forall p, In p (None :: map Some powers) -> forall s,
             (_run_single_simulation _get_edfa_config p s).1
             = Ok (result_dict (dest_of p))).
  { intros p Hp s. destruct (Hruns p Hp) as [[s0 Hs0] _].
    rewrite (run_single_wholesale _ _ s s0 Hw). exact Hs0. }
  assert (Hnan : forall p, In p (None :: map Some powers) ->
             nan_free (snr (dest_of p)) = true).
  { intros p Hp. apply (Hruns p Hp). }
  assert (Hatol : (0 <= atol_process)%Q) by (vm_compute; discriminate).
  set (h := fun p : Q => result_dict (dest_of (Some p))).
  unfold test_process_pool_isolation. cbv zeta.
  rewrite (bind_Ok _ _ _ (result_dict (dest_of None)))
    by (rewrite on_store_fst; apply Hrun; left; reflexivity).
  rewrite (bind_Ok _ _ _ (VFloat (np_mean (snr (dest_of None))))) by reflexivity.
  set (tasks := replicate NUM_WORKERS (_get_edfa_config, @None Q)).
  set (ref := result_dict (dest_of None)).
  assert (Hpool : pool_map ws 0 tasks = Ok (map (fun _ => ref) tasks)).
  { apply pool_map_Ok. intros task Ht s.
    apply list_elem_of_In, elem_of_replicate in Ht. destruct Ht as [-> _].
    apply Hrun. left. reflexivity. }
  rewrite (bind_Ok _ _ _ (Some (map (fun _ => ref) tasks))).
  2:{ pose proof (guarded_pool_map_cases ws tasks
                    (on_store (_run_single_simulation _get_edfa_config None) w).2)
        as Hg.
      rewrite Hpool in Hg. simpl. rewrite Hg. reflexivity. }
  rewrite (bind_Ok _ _ _ (map (fun _ => true) (map (fun _ => ref) tasks))).
  2:{ apply for_each_fst. intros r Hr s.
      apply in_map_iff in Hr. destruct Hr as (task & <- & _).
      unfold ref. rewrite (process_same_status_result _ _ _ _ _
                             (allclose_same _ _ Hatol) (allclose_same _ _ Hatol)).
      rewrite Hosnr, (Hnan None) by (left; reflexivity). reflexivity. }
  rewrite forallb_map_true.
  set (tasks_diff := map (fun p => (_get_edfa_config, Some p)) powers).
  assert (Hpool2 : pool_map ws_diff 0 tasks_diff = Ok (map h powers)).
  { unfold tasks_diff.
    rewrite (pool_map_Ok _ _ _ (fun task => result_dict (dest_of task.2))).
    - rewrite map_map. reflexivity.
    - intros task Ht s. apply in_map_iff in Ht. destruct Ht as (p & <- & Hp).
      apply (Hrun (Some p)). right. apply in_map. exact Hp. }
  match goal with
  | |- context [bind (guarded_pool_map ws_diff tasks_diff) _ ?w0] =>
      pose proof (guarded_pool_map_cases ws_diff tasks_diff w0) as Hg;
      rewrite Hpool2 in Hg;
      rewrite (bind_Ok _ _ _ (Some (map h powers))) by (rewrite Hg; reflexivity)
  end.
  clear Hg.
  rewrite (bind_Ok _ _ _
             (map (fun r => match r !! "avg_gsnr" with
                            | Some (VFloat f) => f
                            | _ => NaN
                            end) (map h powers))).
  2:{ apply for_each_fst. intros r Hr s.
      apply in_map_iff in Hr. destruct Hr as (p & <- & _). reflexivity. }
  rewrite (bind_Ok _ _ _ tt) by (destruct (all_same _); reflexivity).
  rewrite (bind_Ok _ _ _ (map h powers)).
  2:{ unfold reference_runs. apply for_each_fst. intros p Hp s.
      rewrite on_store_fst. apply Hrun. right. apply in_map. exact Hp. }
  rewrite zip_map_same.
  rewrite (bind_Ok _ _ _ (map (fun _ => true) (map (fun x => (h x, h x)) powers))).
  2:{ apply for_each_fst. intros pr Hpr s.
      apply in_map_iff in Hpr. destruct Hpr as (p & <- & Hp).
      unfold h. rewrite (process_diff_status_result _ _ _ _ (allclose_same _ _ Hatol)).
      rewrite (Hnan (Some p)) by (right; apply in_map; exact Hp). reflexivity. }
  rewrite forallb_map_true. reflexivity.
Qed.
End PoolPasses.

Lemma process_pool_passes_witness :
  (@test_process_pool_isolation good_engine (fun i => i) (fun i => (2 * i)%nat)
     (@world0 good_engine 7%nat)).1 = Ok true.
Proof.
  apply (@process_pool_passes good_engine (fun i => i) (fun i => (2 * i)%nat)
           (@world0 good_engine 7%nat)
           (fun p => flat_element (gsnr_by_power p O) 30)).
  - intros m s s'. reflexivity.
  - intros p [<-|[<-|[<-|[<-|[<-|[]]]]]];
      (split; [exists O; vm_compute; reflexivity | reflexivity]).
  - reflexivity.
Defined.

(** ** What a single run returns and raises *)

Section SingleRun.
Context {E : Engine}.

(** X9: what [_run_single_simulation] returns.  Whenever it returns, the
    mapping has exactly the keys avg_gsnr, avg_osnr, gsnr_values and
    osnr_values (no error key), and its two scalar metrics are the means of
    the two series it carries. *)
Theorem run_single_result_shape (config : Config) (p : option Q) (s : Store)
    (r : pydict) :
  (_run_single_simulation config p s).1 = Ok r ->
  exists gsnr osnr,
    r = <["avg_gsnr" := VFloat (np_mean gsnr)]>
        (<["avg_osnr" := VFloat (np_mean osnr)]>
        (<["gsnr_values" := VList gsnr]>
        (<["osnr_values" := VList osnr]> ∅))) /\
    dom r = ({["avg_gsnr"; "avg_osnr"; "gsnr_values"; "osnr_values"]} : gset string) /\
    contains r "error" = false.
Proof.
  intros H.
  destruct (run_single_Ok_inv _ _ _ _ H)
    as (eq & net & src & dst & net' & req & ref_req & s1 & path & s2 & dest & _ & _
        & _ & _ & _ & _ & _ & ->).
  exists (snr dest), (osnr_ase dest).
  split; [reflexivity|]. split; [|reflexivity].
  unfold result_dict. rewrite !dom_insert_L, dom_empty_L. set_solver.
Qed.

(** X10: a network with fewer than two transceivers.
    [_run_single_simulation] has no guard: it raises [IndexError] from
    [trx_uids[0]] or [trx_uids[1]], after [SimParams] was reset and before
    any engine call, so the store it leaves is the reset one.  A thread
    worker at the same point goes to its handler with the entry
    [{'error': 'list index out of range'}], leaving the shared state as it
    found it. *)
Theorem too_few_transceivers_raise (config : Config) (p : option Q) (s : Store)
    (eq : Equipment) (net : Network) :
  load_equipments_and_configs (equipment config) = Ok eq ->
  load_network (topology config) eq = Ok net ->
  (length (_find_transceivers net) < 2)%nat ->
  _run_single_simulation config p s
  = (Raise IndexError, set_params empty_settings s) /\
  (forall t g l,
      pc l = PDesign eq net ->
      tstep {| t_config := config; t_power := p; t_index := t |} t g l
      = Some (g, goto l (PAcquire {["error" := VStr "list index out of range"]}))).
Proof.
  intros Heq Hnet Hlen.
  assert (Hidx : getitem_list (_find_transceivers net) 0 = Raise IndexError \/
                 (exists src, getitem_list (_find_transceivers net) 0 = Ok src) /\
                 getitem_list (_find_transceivers net) 1 = Raise IndexError).
  { unfold getitem_list.
    destruct (_find_transceivers net) as [|src [|dst trxs]]; simpl in *;
      [left; reflexivity | right; eauto | lia]. }
  split.
  - unfold _run_single_simulation, bind, lift, ret. rewrite Heq, Hnet.
    destruct Hidx as [-> | [[src ->] ->]]; reflexivity.
  - intros t g l Hpc. unfold tstep. rewrite Hpc. simpl.
    destruct Hidx as [-> | [[src ->] ->]]; reflexivity.
Qed.
End SingleRun.

Lemma run_single_result_shape_witness :
  contains
    (result_dict (flat_element 20 30)) "error" = false.
Proof.
  destruct (@run_single_result_shape good_engine _get_edfa_config None O
              (result_dict (flat_element 20 30))) as (gsnr & osnr & _ & _ & H).
  - vm_compute. reflexivity.
  - exact H.
Defined.

Lemma too_few_transceivers_raise_witness :
  @_run_single_simulation lonely_engine _get_edfa_config None 5%nat
  = (Raise IndexError, O).
Proof.
  apply (@too_few_transceivers_raise lonely_engine _get_edfa_config None 5%nat
           tt [trx "A"; roadm "R"]).
  - reflexivity.
  - reflexivity.
  - simpl. lia.
Defined.

(** ** The timing lists of the benchmark *)

Section BenchInvariant.
Context {E : Engine} {R : Runtime}.

Lemma keeps_ticks_lift {A} (o : outcome A) : keeps_ticks (lift o).
Proof. intros w. reflexivity. Qed.

Lemma keeps_ticks_on_store {A} (c : ST Store A) : keeps_ticks (on_store c).
Proof. intros w. unfold on_store. destruct (c (shared_dict w)). reflexivity. Qed.

Lemma time_it_Ok {A} (f : ST World A) w a t w' :
  keeps_ticks f ->
  _time_it f w = (Ok (a, t), w') ->
  t = Finite (perf_counter (S (ticks w)) - perf_counter (ticks w)).
Proof.
  intros Hk. unfold _time_it, bind, clock, ret. simpl.
  match goal with
  | |- context [f ?w0] => pose proof (Hk w0) as Ht; destruct (f w0) as [[a'|e|] w1]
  end; try discriminate.
  simpl in Ht. intros [= _ <- _]. rewrite Ht. reflexivity.
Qed.

Lemma non_nan_app xs ys : non_nan (xs ++ ys) = non_nan xs ++ non_nan ys.
Proof.
  induction xs as [|[q|] xs IH]; simpl; [reflexivity| |assumption].
  rewrite IH. reflexivity.
Qed.

Lemma Forall_append_one {A} (P : A -> Prop) l x :
  Forall P l -> P x -> Forall P (l ++ [x]).
Proof. intros Hl Hx. apply Forall_app. split; [exact Hl|]. constructor; [exact Hx|constructor]. Qed.

Lemma try_except_Ok {S A} (c : ST S A) h s a s' :
  try_except c h s = (Ok a, s') ->
  c s = (Ok a, s') \/ exists e s1, c s = (Raise e, s1) /\ h e s1 = (Ok a, s').
Proof.
  unfold try_except. destruct (c s) as [[a'|e|] s1]; intros H.
  - left. exact H.
  - right. eauto.
  - discriminate.
Qed.

Lemma benchmark_runs_ok (T : Q -> Prop) config k :
  (forall n, T (perf_counter (S n) - perf_counter n)%Q) ->
  forall r0 w r w',
    benchmark_runs config k r0 w = (Ok r, w') ->
    timings_ok T r0 ->
    timings_ok T r /\
    (length (equipment_load r) <= length (equipment_load r0) + k)%nat.
Proof.
  intros HT. induction k as [|k IH]; intros r0 w r w' H Hinv.
  - simpl in H. injection H as <- _. split; [assumption|lia].
  - simpl in H. unfold bind at 1 in H.
    destruct (_time_it _ w) as [[[eq t_eqpt]|e|] w1] eqn:H1; try discriminate.
    apply time_it_Ok in H1; [|apply keeps_ticks_lift].
    unfold bind at 1 in H.
    destruct (_time_it _ w1) as [[[net t_net]|e|] w2] eqn:H2; try discriminate.
    apply time_it_Ok in H2; [|apply keeps_ticks_lift].
    unfold bind at 1 in H.
    match type of H with
    | match ?c w2 with _ => _ end = _ =>
        destruct (c w2) as [[sim_params|e|] w3]; try discriminate
    end.
    unfold bind at 1 in H.
    destruct (on_store _ w3) as [[u|e|] w4]; try discriminate.
    unfold bind at 1 in H.
    destruct (find_endpoints config net w4) as [[[[src dst]|]|e|] w5];
      try discriminate.
    all: destruct Hinv as (Hlen & Hdes & Hsim & Feq & Fnet & Fdes & Fsim).
    all: assert (Teq : timed T t_eqpt) by (subst t_eqpt; eexists; split; [reflexivity|apply HT]).
    all: assert (Tnet : timed T t_net) by (subst t_net; eexists; split; [reflexivity|apply HT]).
    + unfold bind at 1 in H.
      destruct (try_except _ _ w5) as [[[[[[net_d req] ref_req] t_design]|]|e|] w6]
        eqn:Hd; try discriminate.
      * apply try_except_Ok in Hd. destruct Hd as [Hd | (e & s1 & _ & Hd)].
        2:{ unfold bind, print, ret in Hd. discriminate. }
        unfold bind at 1 in Hd.
        destruct (_time_it _ w5) as [[[d t]|e|] w6'] eqn:H3; try discriminate.
        apply time_it_Ok in H3; [|apply keeps_ticks_on_store].
        unfold ret in Hd. injection Hd as -> -> _.
        unfold bind at 1 in H.
        destruct (try_except _ _ w6) as [[t_sim|e|] w7] eqn:Hs; try discriminate.
        assert (Tsim : t_sim = NaN \/ timed T t_sim).
        { apply try_except_Ok in Hs. destruct Hs as [Hs | (e & s1 & _ & Hs)].
          - unfold bind at 1 in Hs.
            destruct (_time_it _ w6) as [[[d' t']|e|] w7'] eqn:H4; try discriminate.
            apply time_it_Ok in H4; [|apply keeps_ticks_on_store].
            unfold ret in Hs. injection Hs as <- _. simpl. right.
            subst t'. eexists; split; [reflexivity|apply HT].
          - unfold bind, print, ret in Hs. injection Hs as <- _. left. reflexivity. }
        apply IH in H.
        -- destruct H as [Hr Hl]. split; [exact Hr|]. simpl in Hl.
           rewrite length_app in Hl. simpl in Hl. lia.
        -- unfold timings_ok. simpl. rewrite !length_app, non_nan_app. simpl.
           subst t_design. simpl. rewrite length_app. simpl.
           repeat split; try lia.
           all: apply Forall_append_one; auto.
           right. eexists; split; [reflexivity|apply HT].
      * apply IH in H.
        -- destruct H as [Hr Hl]. split; [exact Hr|]. simpl in Hl.
           rewrite length_app in Hl. simpl in Hl. lia.
        -- unfold timings_ok. simpl. rewrite !length_app, non_nan_app. simpl.
           rewrite app_nil_r.
           repeat split; try lia; try assumption.
           all: apply Forall_append_one; auto.
    + unfold ret in H. injection H as <- _. simpl. split.
      * unfold timings_ok. simpl. rewrite !length_app. simpl.
        repeat split; try lia; try assumption.
        all: apply Forall_append_one; auto.
      * rewrite length_app. simpl. lia.
Qed.


Lemma timings_ok_empty T : timings_ok T no_results.
Proof. unfold timings_ok. simpl. repeat split; auto; constructor. Qed.

Lemma timed_not_NaN T l : Forall (timed T) l -> Forall (fun v => v <> NaN) l.
Proof.
  intros H. eapply Forall_impl; [exact H|]. intros v (q & -> & _). discriminate.
Qed.

Lemma timed_non_nan (T : Q -> Prop) l :
  Forall (fun v => v = NaN \/ timed T v) l -> Forall T (non_nan l).
Proof.
  induction 1 as [|v l Hv _ IH]; simpl; [constructor|].
  destruct Hv as [-> | (q & -> & Hq)]; [exact IH|]. constructor; assumption.
Qed.

(** X11: the timing lists [benchmark_network] returns.  The two load
    lists have the same length, at most [NUM_RUNS], and hold no NaN; the
    design list is no longer than they are; and the simulation list has one
    entry for every design entry that is not NaN: a run whose design failed
    records NaN for the design and nothing for the simulation. *)
Theorem benchmark_lists_shape (name : string) (config : BenchConfig)
    (w w' : World) (r : BenchResults) :
  benchmark_network name config w = (Ok r, w') ->
  length (equipment_load r) = length (network_load r) /\
  (length (equipment_load r) <= NUM_RUNS)%nat /\
  (length (network_design r) <= length (network_load r))%nat /\
  length (transmission_sim r) = length (non_nan (network_design r)) /\
  Forall (fun v => v <> NaN) (equipment_load r) /\
  Forall (fun v => v <> NaN) (network_load r).
Proof.
  intros H. unfold benchmark_network in H.
  destruct (benchmark_runs_ok (fun _ => True) config NUM_RUNS (fun _ => I)
              _ _ _ _ H (timings_ok_empty _))
    as [(Hlen & Hdes & Hsim & Feq & Fnet & _ & _) Hruns].
  simpl in Hruns.
  split; [exact Hlen|]. split; [exact Hruns|]. split; [exact Hdes|].
  split; [exact Hsim|]. split; eapply timed_not_NaN; eassumption.
Qed.

(** X12: with a clock that never goes back, as [time.perf_counter] is,
    no recorded time is negative: every entry of the four lists is NaN or
    at least 0. *)
Theorem benchmark_times_nonnegative (name : string) (config : BenchConfig)
    (w w' : World) (r : BenchResults) :
  (forall n, (perf_counter n <= perf_counter (S n))%Q) ->
  benchmark_network name config w = (Ok r, w') ->
  Forall (Qle 0) (non_nan (equipment_load r)) /\
  Forall (Qle 0) (non_nan (network_load r)) /\
  Forall (Qle 0) (non_nan (network_design r)) /\
  Forall (Qle 0) (non_nan (transmission_sim r)).
Proof.
  intros Hmono H. unfold benchmark_network in H.
  assert (HT : forall n, (0 <= perf_counter (S n) - perf_counter n)%Q).
  { intros n. specialize (Hmono n).
    apply (Qplus_le_compat _ _ (- perf_counter n) (- perf_counter n)) in Hmono;
      [|apply Qle_refl].
    rewrite Qplus_opp_r in Hmono. exact Hmono. }
  destruct (benchmark_runs_ok (Qle 0) config NUM_RUNS HT _ _ _ _ H
              (timings_ok_empty (Qle 0)))
    as [(_ & _ & _ & Feq & Fnet & Fdes & Fsim) _].
  repeat split; apply (timed_non_nan (Qle 0)); try assumption.
  - eapply Forall_impl; [exact Feq|]. auto.
  - eapply Forall_impl; [exact Fnet|]. auto.
Qed.

Lemma bind_Raise {S A B} (c : ST S A) (k : A -> ST S B) s e :
  (bind c k s).1 = Raise e ->
  (c s).1 = Raise e \/ exists a s1, c s = (Ok a, s1) /\ (k a s1).1 = Raise e.
Proof.
  unfold bind. destruct (c s) as [[a|e'|] s1]; simpl; intros H.
  - right. eauto.
  - left. congruence.
  - discriminate.
Qed.

Lemma time_it_lift_Raise {A} (o : outcome A) w e :
  (_time_it (lift o) w).1 = Raise e -> o = Raise e.
Proof.
  unfold _time_it, bind, clock, lift, ret. simpl.
  destruct o; simpl; intros H; congruence.
Qed.

Lemma time_it_lift_Ok {A} (o : outcome A) w a t w' :
  _time_it (lift o) w = (Ok (a, t), w') -> o = Ok a.
Proof.
  unfold _time_it, bind, clock, lift, ret. simpl.
  destruct o; simpl; intros H; congruence.
Qed.

Lemma try_except_Raise {S A} (c : ST S A) h s e :
  (try_except c h s).1 = Raise e ->
  exists e1 s1, (h e1 s1).1 = Raise e.
Proof.
  unfold try_except. destruct (c s) as [[a|e1|] s1]; simpl; intros H;
    try discriminate. eauto.
Qed.

Lemma benchmark_runs_raises (config : BenchConfig) (runs : nat)
    (r0 : BenchResults) (w : World) (e : exn) :
  (benchmark_runs config runs r0 w).1 = Raise e ->
  load_equipments_and_configs (b_equipment config) = Raise e \/
  (exists eq, load_equipments_and_configs (b_equipment config) = Ok eq /\
              load_network (b_topology config) eq = Raise e) \/
  (exists file, b_sim_params config = Some file /\ load_json file = Raise e).
Proof.
  revert w r0.
  induction runs as [|k IH]; intros w r0 H; [discriminate|].
  simpl in H.
  apply bind_Raise in H as [H | ([eq t_eqpt] & w1 & Heq & H)];
    [left; eapply time_it_lift_Raise, H|].
  apply time_it_lift_Ok in Heq.
  apply bind_Raise in H as [H | ([net t_net] & w2 & _ & H)];
    [right; left; exists eq; split; [exact Heq|]; eapply time_it_lift_Raise, H|].
  apply bind_Raise in H as [H | (sim_params & w3 & _ & H)].
  { right; right. destruct (b_sim_params config) as [file|]; [|discriminate].
    exists file. split; [reflexivity|]. exact H. }
  apply bind_Raise in H as [H | (u & w4 & _ & H)].
  { unfold on_store in H. discriminate. }
  apply bind_Raise in H as [H | (endpoints & w5 & _ & H)].
  { destruct (find_endpoints_returns config net w4) as (o & w' & Hf).
    rewrite Hf in H. discriminate. }
  destruct endpoints as [[src dst]|]; [|discriminate].
  apply bind_Raise in H as [H | (designed & w6 & _ & H)].
  { apply try_except_Raise in H as (e1 & s1 & H). discriminate. }
  destruct designed as [[[[net_d req] ref_req] t_design]|]; [|eapply IH, H].
  apply bind_Raise in H as [H | (simulated & w7 & _ & H)].
  { apply try_except_Raise in H as (e1 & s1 & H). discriminate. }
  eapply IH, H.
Qed.

(** X13: which exceptions leave [benchmark_network].  When it raises, the
    exception is one raised by loading the equipment, the network or the
    sim-params file; exceptions of [designed_network] and
    [transmission_simulation] are caught and never leave it. *)
Theorem benchmark_raises_only_from_loads (name : string) (config : BenchConfig)
    (w : World) (e : exn) :
  (benchmark_network name config w).1 = Raise e ->
  load_equipments_and_configs (b_equipment config) = Raise e \/
  (exists eq, load_equipments_and_configs (b_equipment config) = Ok eq /\
              load_network (b_topology config) eq = Raise e) \/
  (exists file, b_sim_params config = Some file /\ load_json file = Raise e).
Proof.
  unfold benchmark_network. intros H.
  destruct (benchmark_runs_raises config NUM_RUNS no_results w e H)
    as [Heq | [(eq & Heq & Hnet) | (file & Hfile & Hjson)]].
  - left. exact Heq.
  - right. left. exists eq. split; assumption.
  - right. right. exists file. split; assumption.
Qed.

End BenchInvariant.

Lemma benchmark_lists_shape_witness :
  exists r w',
    @benchmark_network good_engine toy_runtime "toy" auto_config
      (@world0 good_engine O) = (Ok r, w') /\
    length (transmission_sim r) = length (non_nan (network_design r)).
Proof.
  eexists _, _. split; [vm_compute; reflexivity|].
  eapply (@benchmark_lists_shape good_engine toy_runtime "toy" auto_config
            (@world0 good_engine O)).
  vm_compute. reflexivity.
Defined.

Lemma toy_runtime_monotone n :
  (@perf_counter toy_runtime n <= @perf_counter toy_runtime (S n))%Q.
Proof. unfold Qle. simpl. lia. Qed.

Lemma benchmark_times_nonnegative_witness :
  exists r w',
    @benchmark_network good_engine toy_runtime "toy" auto_config
      (@world0 good_engine O) = (Ok r, w') /\
    Forall (Qle 0) (non_nan (transmission_sim r)).
Proof.
  eexists _, _. split; [vm_compute; reflexivity|].
  eapply (@benchmark_times_nonnegative good_engine toy_runtime "toy" auto_config
            (@world0 good_engine O)).
  - exact toy_runtime_monotone.
  - vm_compute. reflexivity.
Defined.

Lemma benchmark_raises_only_from_loads_witness :
  @load_equipments_and_configs broken_engine (b_equipment auto_config)
  = Raise ConfigError \/
  (exists eq,
      @load_equipments_and_configs broken_engine (b_equipment auto_config) = Ok eq /\
      @load_network broken_engine (b_topology auto_config) eq = Raise ConfigError) \/
  (exists file, b_sim_params auto_config = Some file /\
                @load_json broken_engine file = Raise ConfigError).
Proof.
  apply (@benchmark_raises_only_from_loads broken_engine toy_runtime "broken"
           auto_config (@world0 broken_engine O)).
  vm_compute. reflexivity.
Defined.

(** ** The report of the benchmark *)

Section TotalRow.
Context {E : Engine} {R : Runtime}.

Lemma last_char_app s t : t <> EmptyString -> last_char (s +:+ t) = last_char t.
Proof.
  intros Ht. induction s as [|c s IH]; [reflexivity|].
  simpl. destruct (s +:+ t) eqn:Hst; [|exact IH].
  destruct s; simpl in Hst; [contradiction|discriminate].
Qed.

Lemma ms_cell_not_NA s t : s +:+ " ms" <> t +:+ "N/A".
Proof.
  intros H. apply (f_equal last_char) in H.
  rewrite !last_char_app in H by discriminate. discriminate.
Qed.

Lemma fmt_NA_iff values : _fmt values = Ok "N/A" <-> non_nan values = [].
Proof.
  rewrite fmt_unfold. destruct (non_nan values) as [|q qs]; [tauto|].
  split; [|discriminate]. cbv zeta.
  destruct (1 <? length (q :: qs))%nat; intros [= H]; exfalso.
  - apply (f_equal String.length) in H.
    rewrite !string_length_app in H. simpl in H. lia.
  - exact (ms_suffix_not_NA _ H).
Qed.

Lemma fmt_returns values : exists s, _fmt values = Ok s.
Proof.
  rewrite fmt_unfold. destruct (non_nan values) as [|q qs]; [eauto|].
  cbv zeta. destruct (1 <? length (q :: qs))%nat; eauto.
Qed.

Lemma py_sum_Finite qs x :
  fold_left py_add (map Finite qs) (Finite x) = Finite (fold_left Qplus qs x).
Proof. revert x. induction qs as [|q qs IH]; intros x; simpl; [reflexivity|apply IH]. Qed.

Lemma total_vals_returns results w :
  benchmark.total_vals results w
  = (Ok (map Finite (flat_map (fun phase => phase_mean (phase.2 results))
                       benchmark.phases)), w).
Proof.
  assert (Hbody : forall vals (w0 : World),
    match List.filter (fun v => float_eq v v) vals with
    | [] => ret []
    | _ :: _ =>
        m <- lift (statistics_mean (List.filter (fun v => float_eq v v) vals)) ;;
        ret [m]
    end w0 = (Ok (map Finite (phase_mean vals)), w0)).
  { intros vals w0. rewrite clean_is_finite. unfold phase_mean.
    destruct (non_nan vals) as [|q qs]; [reflexivity|].
    change (map Finite (q :: qs)) with (Finite q :: map Finite qs) at 1.
    cbv iota. unfold bind, lift, ret, statistics_mean, mean_of.
    change (Finite q :: map Finite qs) with (map Finite (q :: qs)).
    rewrite finite_values_map_Finite. reflexivity. }
  unfold benchmark.total_vals, benchmark.phases. simpl for_each.
  unfold bind at 1. unfold bind at 1. cbv zeta. rewrite Hbody.
  unfold bind at 1. unfold bind at 1. rewrite Hbody.
  unfold bind at 1. unfold bind at 1. rewrite Hbody.
  unfold bind at 1. unfold bind at 1. rewrite Hbody.
  unfold bind, ret. simpl. rewrite !map_app, !app_nil_r. reflexivity.
Qed.

Lemma total_cell_unfold results w :
  benchmark.total_cell results w
  = (Ok match flat_map (fun phase => phase_mean (phase.2 results))
                benchmark.phases with
        | [] => rjust 28 "N/A"
        | means =>
            format_f 25 1 (Finite (fold_left Qplus means 0 * 1000)%Q) +:+ " ms"
        end, w).
Proof.
  unfold benchmark.total_cell, bind. rewrite total_vals_returns.
  destruct (flat_map _ benchmark.phases) as [|m ms]; [reflexivity|].
  change (map Finite (m :: ms)) with (Finite m :: map Finite ms). cbv iota.
  change (Finite m :: map Finite ms) with (map Finite (m :: ms)).
  unfold py_sum. rewrite py_sum_Finite. reflexivity.
Qed.

(** X14: the TOTAL row of the benchmark report.  The cell of a network is
    1000 times the sum of the means of the phases that have an entry other
    than NaN; a phase with none (never reached, or failed in every run) is
    left out of the sum without notice.  The cell reads N/A exactly when
    all four cells of the network's column read N/A. *)
Theorem total_sums_phases_with_data (results : BenchResults) (w : World) :
  let means :=
    flat_map phase_mean
      [equipment_load results; network_load results;
       network_design results; transmission_sim results] in
  benchmark.total_cell results w
  = (Ok match means with
        | [] => rjust 28 "N/A"
        | _ :: _ =>
            format_f 25 1 (Finite ((fold_left Qplus means 0 * 1000)%Q)) +:+ " ms"
        end, w) /\
  ((benchmark.total_cell results w).1 = Ok (rjust 28 "N/A") <->
   forall phase, In phase benchmark.phases -> _fmt (phase.2 results) = Ok "N/A").
Proof.
  intros means.
  pose proof (total_cell_unfold results w) as Hcell.
  change (flat_map _ benchmark.phases) with means in Hcell.
  split; [rewrite Hcell; destruct means; reflexivity|]. rewrite Hcell. simpl fst.
  assert (Hnil : means = [] <->
                 forall phase, In phase benchmark.phases ->
                               non_nan (phase.2 results) = []).
  { unfold means, benchmark.phases, phase_mean. simpl. split.
    - intros H phase [<-|[<-|[<-|[<-|[]]]]]; simpl;
        destruct (non_nan (equipment_load results)),
                 (non_nan (network_load results)),
                 (non_nan (network_design results)),
                 (non_nan (transmission_sim results));
        try discriminate; reflexivity.
    - intros H.
      pose proof (H ("Equipment Load", equipment_load) ltac:(tauto)) as H1.
      pose proof (H ("Network Load", network_load) ltac:(tauto)) as H2.
      pose proof (H ("Network Design", network_design) ltac:(tauto)) as H3.
      pose proof (H ("Transmission Sim", transmission_sim) ltac:(tauto)) as H4.
      simpl in H1, H2, H3, H4. rewrite H1, H2, H3, H4. reflexivity. }
  split.
  - intros H phase Hin. apply fmt_NA_iff. apply Hnil; [|exact Hin].
    destruct means as [|m ms]; [reflexivity|].
    injection H as H. exfalso. exact (ms_cell_not_NA _ _ H).
  - intros H. assert (Hm : means = []).
    { apply Hnil. intros phase Hin. apply fmt_NA_iff, H, Hin. }
    rewrite Hm. reflexivity.
Qed.


Lemma for_each_Raise {S A B} (body : A -> ST S B) l s e :
  (for_each body l s).1 = Raise e ->
  exists x s0, In x l /\ (body x s0).1 = Raise e.
Proof.
  revert s. induction l as [|x l IH]; intros s H; [discriminate|].
  simpl in H. apply bind_Raise in H as [H | (y & s1 & _ & H)].
  - exists x, s. split; [left; reflexivity | exact H].
  - apply bind_Raise in H as [H | (ys & s2 & _ & H)]; [|discriminate].
    destruct (IH _ H) as (x' & s0 & Hin & Hx). exists x', s0.
    split; [right; exact Hin | exact Hx].
Qed.

Lemma table_row_Raise label cell names w e :
  (benchmark.table_row label cell names w).1 = Raise e ->
  exists name s0, In name names /\ (cell name s0).1 = Raise e.
Proof.
  unfold benchmark.table_row. intros H.
  apply bind_Raise in H as [H | (cells & s1 & _ & H)]; [|discriminate].
  eapply for_each_Raise, H.
Qed.

Lemma fold_insert_lookup (measured : list (string * BenchResults))
    (d : gmap string BenchResults) (name : string) :
  is_Some (d !! name) \/ In name (map fst measured) ->
  is_Some (fold_left (fun (d : gmap string BenchResults) nr => <[nr.1 := nr.2]> d)
             measured d !! name).
Proof.
  revert d. induction measured as [|[n r] ms IH]; intros d H; simpl.
  - destruct H as [H|[]]. exact H.
  - apply IH. destruct H as [H|[H|H]].
    + left. destruct (decide (n = name)) as [->|Hne].
      * rewrite lookup_insert_eq. eauto.
      * rewrite lookup_insert_ne by assumption. exact H.
    + left. simpl in H. subst n. rewrite lookup_insert_eq. eauto.
    + right. exact H.
Qed.

Lemma measured_names (benchmarks : list (string * BenchConfig)) w measured w' :
  for_each
    (fun entry : string * BenchConfig =>
       _ <- print (newline +:+ "--- Benchmarking: " +:+ entry.1 +:+ " ---") ;;
       results <- benchmark_network entry.1 entry.2 ;;
       ret (entry.1, results)) benchmarks w = (Ok measured, w') ->
  map fst measured = map fst benchmarks.
Proof.
  intros H. apply for_each_Ok_Forall2 in H.
  induction H as [|x y l ys (sa & sb & Hxy) _ IH]; [reflexivity|].
  simpl. rewrite IH. f_equal.
  unfold bind at 1 in Hxy. unfold print at 1 in Hxy.
  unfold bind in Hxy.
  destruct (benchmark_network _ _ _) as [[r|e|] s1]; try discriminate.
  unfold ret in Hxy. injection Hxy as <- _. reflexivity.
Qed.

(** X15: the report itself cannot fail.  When [main] of the benchmark
    raises, the exception was raised by loading the equipment, the network
    or the sim-params file of one of the benchmarks: looking up the results
    by name, [_fmt] and the TOTAL row never raise. *)
Theorem report_adds_no_failure (benchmarks : list (string * BenchConfig))
    (w : World) (e : exn) :
  (benchmark.main benchmarks w).1 = Raise e ->
  exists name config,
    In (name, config) benchmarks /\
    (load_equipments_and_configs (b_equipment config) = Raise e \/
     (exists eq, load_equipments_and_configs (b_equipment config) = Ok eq /\
                 load_network (b_topology config) eq = Raise e) \/
     (exists file, b_sim_params config = Some file /\ load_json file = Raise e)).
Proof.
  unfold benchmark.main. cbv zeta. intros H.
  do 4 (apply bind_Raise in H as [H | (? & ? & _ & H)]; [discriminate|]).
  apply bind_Raise in H as [H | (measured & w1 & Hm & H)].
  { apply for_each_Raise in H as ([name config] & s0 & Hin & H).
    exists name, config. split; [exact Hin|].
    apply bind_Raise in H as [H | (? & ? & _ & H)]; [discriminate|].
    apply bind_Raise in H as [H | (? & ? & _ & H)]; [|discriminate].
    unfold benchmark_network in H. eapply benchmark_runs_raises, H. }
  exfalso. apply measured_names in Hm.
  assert (Hlook : forall name, In name (map fst benchmarks) ->
            exists r, getitem_results
                        (fold_left (fun d nr => <[nr.1 := nr.2]> d) measured ∅)
                        name = Ok r).
  { intros name Hin. unfold getitem_results.
    destruct (fold_insert_lookup measured ∅ name) as [r Hr].
    - right. rewrite Hm. exact Hin.
    - rewrite Hr. eauto. }
  do 3 (apply bind_Raise in H as [H | (? & ? & _ & H)]; [discriminate|]).
  apply bind_Raise in H as [H | (? & ? & _ & H)].
  { apply table_row_Raise in H as (name & s0 & _ & H). discriminate. }
  do 2 (apply bind_Raise in H as [H | (? & ? & _ & H)]; [discriminate|]).
  apply bind_Raise in H as [H | (? & ? & _ & H)].
  { apply for_each_Raise in H as (phase & s0 & _ & H).
    apply bind_Raise in H as [H | (? & ? & _ & H)]; [|discriminate].
    apply table_row_Raise in H as (name & s1 & Hin & H).
    destruct (Hlook name Hin) as [r Hr].
    apply bind_Raise in H as [H | (res & sg & Hg & H)].
    { unfold lift in H. simpl in H. congruence. }
    apply bind_Raise in H as [H | (? & ? & _ & H)]; [|discriminate].
    destruct (fmt_returns (phase.2 res)) as [c Hc].
    unfold lift in H. simpl in H. congruence. }
  apply bind_Raise in H as [H | (? & ? & _ & H)]; [discriminate|].
  apply bind_Raise in H as [H | (? & ? & _ & H)].
  { apply table_row_Raise in H as (name & s1 & Hin & H).
    destruct (Hlook name Hin) as [r Hr].
    apply bind_Raise in H as [H | (? & ? & Hg & H)].
    { unfold lift in H. simpl in H. congruence. }
    rewrite total_cell_unfold in H. discriminate. }
  apply bind_Raise in H as [H | (? & ? & _ & H)]; discriminate.
Qed.

End TotalRow.

Lemma report_adds_no_failure_witness :
  exists name config,
    In (name, config) benchmark.BENCHMARKS /\
    (@load_equipments_and_configs broken_engine (b_equipment config)
     = Raise ConfigError \/
     (exists eq,
         @load_equipments_and_configs broken_engine (b_equipment config) = Ok eq /\
         @load_network broken_engine (b_topology config) eq = Raise ConfigError) \/
     (exists file, b_sim_params config = Some file /\
                   @load_json broken_engine file = Raise ConfigError)).
Proof.
  apply (@report_adds_no_failure broken_engine toy_runtime benchmark.BENCHMARKS
           (@world0 broken_engine O)).
  vm_compute. reflexivity.
Defined.

(** ** What a PASS of the thread test means *)

Section ThreadVerdict.
Context {E : Engine}.

Lemma bind_Ok_inv {S A B} (c : ST S A) (k : A -> ST S B) s b s' :
  bind c k s = (Ok b, s') ->
  exists a s1, c s = (Ok a, s1) /\ k a s1 = (Ok b, s').
Proof.
  unfold bind. destruct (c s) as [[a|e|] s1]; intros H; try discriminate. eauto.
Qed.







End ThreadVerdict.


(** ** The summary of the concurrency script *)

Section ConcurrencyMain.
Context {E : Engine}.

Lemma print_inv line (w w' : World) u :
  print line w = (Ok u, w') ->
  stdout w' = stdout w ++ [line] /\ shared_dict w' = shared_dict w.
Proof. unfold print. intros [= _ <-]. split; reflexivity. Qed.

Lemma recommend_inv result_1 result_2 (w w' : World) u :
  test_concurrency.recommend result_1 result_2 w = (Ok u, w') ->
  shared_dict w' = shared_dict w /\
  stdout w' = stdout w ++
    match result_1, result_2 with
    | true, false =>
        ["  RECOMMENDATION: Use multiprocessing.Pool for concurrent simulations.";
         "  SimParams class-level state makes thread-based approaches unreliable."]
    | true, true =>
        ["  Both approaches passed. Process pool is still recommended for safety."]
    | false, false =>
        ["  Both approaches failed. Simulations should be run sequentially."]
    | false, true => []
    end.
Proof.
  unfold test_concurrency.recommend.
  destruct result_1, result_2; simpl; unfold bind, print, ret; simpl;
    intros [= _ <-]; simpl; rewrite <- ?app_assoc, ?app_nil_r; split; reflexivity.
Qed.

(** X17: what [main] of the concurrency script reports.  The thread test
    starts from the world the process-pool test left, [SimParams] included.
    After the two tests [main] prints the summary of the two verdicts and
    one recommendation, except for the verdicts FAIL and PASS, in that
    order, for which it prints none; it leaves [SimParams] as the thread
    test left it. *)
Theorem main_summary (ws ws_diff : nat -> Store) (sched sched_diff : list nat)
    (w w' : World) :
  test_concurrency.main ws ws_diff sched sched_diff w = (Ok tt, w') ->
  exists result_1 result_2 w0 w1 w2,
    test_process_pool_isolation ws ws_diff w0 = (Ok result_1, w1) /\
    test_deep_copy_thread_local sched sched_diff w1 = (Ok result_2, w2) /\
    shared_dict w0 = shared_dict w /\
    shared_dict w' = shared_dict w2 /\
    stdout w' =
      stdout w2 ++
      [newline +:+ str_repeat "=" 70; "FINAL SUMMARY"; str_repeat "=" 70;
       "  Approach 1 (Process Pool):       "
         +:+ (if result_1 then "PASS" else "FAIL");
       "  Approach 2 (Deep Copy + Thread):  "
         +:+ (if result_2 then "PASS" else "FAIL");
       EmptyString] ++
      match result_1, result_2 with
      | true, false =>
          ["  RECOMMENDATION: Use multiprocessing.Pool for concurrent simulations.";
           "  SimParams class-level state makes thread-based approaches unreliable."]
      | true, true =>
          ["  Both approaches passed. Process pool is still recommended for safety."]
      | false, false =>
          ["  Both approaches failed. Simulations should be run sequentially."]
      | false, true => []
      end ++ [str_repeat "=" 70].
Proof.
  unfold test_concurrency.main. intros H.
  apply bind_Ok_inv in H as (? & wa & Ha & H). apply print_inv in Ha as [_ Sa].
  apply bind_Ok_inv in H as (? & wb & Hb & H). apply print_inv in Hb as [_ Sb].
  apply bind_Ok_inv in H as (? & wc & Hc & H). apply print_inv in Hc as [_ Sc].
  apply bind_Ok_inv in H as (? & w0 & H0 & H). apply print_inv in H0 as [_ S0].
  apply bind_Ok_inv in H as (result_1 & w1 & H1 & H).
  apply bind_Ok_inv in H as (result_2 & w2 & H2 & H).
  apply bind_Ok_inv in H as (? & w3 & H3 & H). apply print_inv in H3 as [O3 S3].
  apply bind_Ok_inv in H as (? & w4 & H4 & H). apply print_inv in H4 as [O4 S4].
  apply bind_Ok_inv in H as (? & w5 & H5 & H). apply print_inv in H5 as [O5 S5].
  apply bind_Ok_inv in H as (? & w6 & H6 & H). apply print_inv in H6 as [O6 S6].
  apply bind_Ok_inv in H as (? & w7 & H7 & H). apply print_inv in H7 as [O7 S7].
  apply bind_Ok_inv in H as (? & w8 & H8 & H). apply print_inv in H8 as [O8 S8].
  apply bind_Ok_inv in H as (? & w9 & H9 & H). apply recommend_inv in H9 as [S9 O9].
  apply print_inv in H as [O10 S10].
  exists result_1, result_2, w0, w1, w2.
  split; [exact H1|]. split; [exact H2|].
  split; [congruence|]. split; [congruence|].
  rewrite O10, O9, O8, O7, O6, O5, O4, O3.
  rewrite <- !app_assoc. reflexivity.
Qed.

End ConcurrencyMain.

Lemma main_summary_witness :
  exists result_1 result_2 w0 w1 w2,
    @test_process_pool_isolation good_engine (fun _ => O) (fun _ => O) w0
    = (Ok result_1, w1) /\
    @test_deep_copy_thread_local good_engine (round_robin 20) (round_robin 20) w1
    = (Ok result_2, w2).
Proof.
  destruct (@main_summary good_engine (fun _ => O) (fun _ => O)
              (round_robin 20) (round_robin 20) (@world0 good_engine O)
              (@test_concurrency.main good_engine (fun _ => O) (fun _ => O)
                 (round_robin 20) (round_robin 20) (@world0 good_engine O)).2)
    as (r1 & r2 & w0 & w1 & w2 & H1 & H2 & _).
  - vm_compute. reflexivity.
  - exists r1, r2, w0, w1, w2. split; assumption.
Defined.

(** ** The benchmark runs to the end *)

Section BenchCompletes.
Context {E : Engine} {R : Runtime}.

Lemma benchmark_runs_complete config eq net src dst runs :
  engine_returns ->
  load_equipments_and_configs (b_equipment config) = Ok eq ->
  load_network (b_topology config) eq = Ok net ->
  (forall file, b_sim_params config = Some file ->
                exists st, load_json file = Ok st) ->
  (forall w, exists w', find_endpoints config net w = (Ok (Some (src, dst)), w')) ->
  forall r0 w, exists r w',
    benchmark_runs config runs r0 w = (Ok r, w') /\
    length (equipment_load r) = (length (equipment_load r0) + runs)%nat /\
    length (network_load r) = (length (network_load r0) + runs)%nat /\
    length (network_design r) = (length (network_design r0) + runs)%nat.
Proof.
  intros (_ & _ & Hdes & Hsim) Heq Hnet Hjson Hends.
  induction runs as [|k IH]; intros r0 w.
  - exists r0, w. simpl. split; [reflexivity|]. lia.
  - simpl.
    unfold bind at 1. unfold _time_it at 1, bind, clock, lift, ret. simpl.
    rewrite Heq. simpl. rewrite Hnet. simpl.
    assert (Hset : exists st,
      match b_sim_params config with
      | Some file => load_json file
      | None => Ok empty_settings
      end = Ok st).
    { destruct (b_sim_params config) as [file|]; [apply Hjson; reflexivity|].
      eexists; reflexivity. }
    destruct Hset as [st Hst].
    assert (Hsp : forall w0 : World,
      match b_sim_params config with
      | Some file => fun s : World => (load_json file, s)
      | None => fun s : World => (Ok empty_settings, s)
      end w0 = (Ok st, w0)).
    { intros w0. destruct (b_sim_params config); rewrite <- Hst; reflexivity. }
    rewrite Hsp. unfold on_store at 1. simpl.
    match goal with
    | |- context [find_endpoints config net ?w0] =>
        destruct (Hends w0) as [w1 Hw1]; rewrite Hw1
    end.
    cbv beta iota.
    match goal with
    | |- context [try_except ?c ?h w1] =>
        assert (Hd : (exists d w2, try_except c h w1 = (Ok (Some d), w2)) \/
                     (exists w2, try_except c h w1 = (Ok None, w2)))
    end.
    { unfold try_except, _time_it, bind, clock, ret, on_store, print. simpl.
      specialize (Hdes eq net src dst None (shared_dict w1)).
      destruct (designed_network eq net src dst None (shared_dict w1))
        as [[d|e|] s1]; simpl in *.
      - left. eauto.
      - right. unfold print. simpl. eauto.
      - congruence. }
    destruct Hd as [([[[net_d req] ref_req] t_design] & w2 & ->) | (w2 & ->)].
    + cbv beta iota.
      match goal with
      | |- context [try_except ?c ?h w2] =>
          assert (Hs : exists t w3, try_except c h w2 = (Ok t, w3))
      end.
      { unfold try_except, _time_it, bind, clock, ret, on_store, print. simpl.
        specialize (Hsim eq net_d req ref_req (shared_dict w2)).
        destruct (transmission_simulation eq net_d req ref_req (shared_dict w2))
          as [[d|e|] s1]; simpl in *.
        - eauto.
        - unfold print. simpl. eauto.
        - congruence. }
      destruct Hs as (t & w3 & ->).
      match goal with
      | |- context [benchmark_runs config k ?r1 w3] =>
          destruct (IH r1 w3) as (r & w' & Hr & L1 & L2 & L3)
      end.
      exists r, w'. split; [exact Hr|]. simpl in L1, L2, L3.
      rewrite length_app in L1, L2, L3. simpl in L1, L2, L3. lia.
    + match goal with
      | |- context [benchmark_runs config k ?r1 w2] =>
          destruct (IH r1 w2) as (r & w' & Hr & L1 & L2 & L3)
      end.
      exists r, w'. split; [exact Hr|]. simpl in L1, L2, L3.
      rewrite length_app in L1, L2, L3. simpl in L1, L2, L3. lia.
Qed.


Lemma find_endpoints_found config net :
  (exists src dst, b_source config = Some src /\ b_destination config = Some dst) \/
  (2 <= length (_find_transceivers net))%nat ->
  exists src dst, forall w : World,
    find_endpoints config net w = (Ok (Some (src, dst)), w).
Proof.
  intros H. unfold find_endpoints.
  assert (Hgo : (2 <= length (_find_transceivers net))%nat ->
    forall s d : option string,
    exists src dst, forall w : World,
      (let trx_uids := _find_transceivers net in
       if (length trx_uids <? 2)%nat
       then _ <- print "WARNING: Not enough transceivers, skipping simulation." ;;
            ret None
       else
         source' <- lift (py_or s (getitem_list trx_uids 0)) ;;
         destination' <- lift (py_or d (getitem_list trx_uids 1)) ;;
         ret (Some (source', destination'))) w = (Ok (Some (src, dst)), w)).
  { intros Hlen s d. cbv zeta.
    destruct (Nat.ltb_spec (length (_find_transceivers net)) 2) as [Hlt|_]; [lia|].
    destruct (_find_transceivers net) as [|u0 [|u1 us]]; simpl in Hlen; try lia.
    unfold bind, lift, ret, getitem_list. simpl.
    destruct s as [[|c s]|], d as [[|c' d]|]; simpl; eexists _, _; reflexivity. }
  destruct (b_source config) as [s|] eqn:Hs, (b_destination config) as [d|] eqn:Hd.
  - exists s, d. reflexivity.
  - destruct H as [(? & ? & _ & ?)|H]; [discriminate|]. apply Hgo, H.
  - destruct H as [(? & ? & ? & _)|H]; [discriminate|]. apply Hgo, H.
  - destruct H as [(? & ? & ? & _)|H]; [discriminate|]. apply Hgo, H.
Qed.

(** X18: the benchmark of a network runs to the end.  When every engine
    call returns or raises, the equipment, the network and the sim-params
    file load, and the endpoints are preset or the network has two
    transceivers, [benchmark_network] returns after [NUM_RUNS] runs: the
    load lists and the design list have [NUM_RUNS] entries each, failed
    designs and simulations being recorded as NaN. *)
Theorem benchmark_completes (name : string) (config : BenchConfig) (w : World)
    (eq : Equipment) (net : Network) :
  engine_returns ->
  load_equipments_and_configs (b_equipment config) = Ok eq ->
  load_network (b_topology config) eq = Ok net ->
  (forall file, b_sim_params config = Some file ->
                exists st, load_json file = Ok st) ->
  (exists src dst, b_source config = Some src /\ b_destination config = Some dst) \/
  (2 <= length (_find_transceivers net))%nat ->
  exists r w',
    benchmark_network name config w = (Ok r, w') /\
    length (equipment_load r) = NUM_RUNS /\
    length (network_load r) = NUM_RUNS /\
    length (network_design r) = NUM_RUNS /\
    length (transmission_sim r) = length (non_nan (network_design r)).
Proof.
  intros Hret Heq Hnet Hjson Hends.
  destruct (find_endpoints_found config net Hends) as (src & dst & Hfound).
  destruct (benchmark_runs_complete config eq net src dst NUM_RUNS Hret Heq Hnet
              Hjson (fun w0 => ex_intro _ w0 (Hfound w0)) no_results w)
    as (r & w' & Hr & L1 & L2 & L3).
  exists r, w'. unfold benchmark_network. split; [exact Hr|].
  split; [exact L1|]. split; [exact L2|]. split; [exact L3|].
  destruct (benchmark_runs_ok (fun _ => True) config NUM_RUNS (fun _ => I)
              _ _ _ _ Hr (timings_ok_empty _)) as [(_ & _ & Hsim & _) _].
  exact Hsim.
Qed.

End BenchCompletes.

Lemma benchmark_completes_witness :
  exists r w',
    @benchmark_network good_engine toy_runtime "toy" auto_config
      (@world0 good_engine O) = (Ok r, w') /\
    length (equipment_load r) = NUM_RUNS /\
    length (network_load r) = NUM_RUNS /\
    length (network_design r) = NUM_RUNS /\
    length (transmission_sim r) = length (non_nan (network_design r)).
Proof.
  apply (@benchmark_completes good_engine toy_runtime "toy" auto_config
           (@world0 good_engine O) tt two_trx).
  - exact good_engine_returns.
  - reflexivity.
  - reflexivity.
  - intros file Hfile. discriminate Hfile.
  - right. simpl. lia.
Defined.

(** ** Workers that run one after the other *)

Section Sequential.
Context {E : Engine}.

Lemma sched_step_at a t g l g' l' ths :
  (t < length ths)%nat ->
  tstep a t g l = Some (g', l') ->
  sched_step {| shared := g; threads := <[t := (a, l)]> ths |} t
  = {| shared := g'; threads := <[t := (a, l')]> ths |}.
Proof.
  intros Hlt H. unfold sched_step. simpl.
  rewrite list_lookup_insert_eq by exact Hlt. rewrite H.
  rewrite list_insert_insert_eq. reflexivity.
Qed.

(** A worker that runs its ten steps without another thread in between
    records what the reference run returns, whatever the shared dictionary
    holds when it starts. *)
Lemma run_alone_records config p s0 ref t g ths :
  wholesale ->
  (_run_single_simulation config p s0).1 = Ok ref ->
  ths !! t = Some ({| t_config := config; t_power := p; t_index := t |},
                   fresh_thread) ->
  lock g = None ->
  exists g' l',
    run_sched (replicate 10 t) {| shared := g; threads := ths |}
    = {| shared := g';
         threads := <[t := ({| t_config := config; t_power := p; t_index := t |},
                            l')]> ths |} /\
    pc l' = PDone /\ lock g' = None /\
    results_dict g' = <[t := ref]> (results_dict g).
Proof.
  intros Hw Href Ht Hlock.
  destruct (run_single_Ok_inv _ _ _ _ Href)
    as (eq & net & src & dst & net' & req & ref_req & sa & path & sb & dest
        & Heq & Hnet & Hsrc & Hdst & Hd & Hs & Hl & ->).
  set (reset := set_params empty_settings s0) in *.
  assert (Hreset : forall s, set_params empty_settings s = reset)
    by (intros s; apply Hw).
  pose proof (lookup_lt_Some _ _ _ Ht) as Hlt.
  set (a := {| t_config := config; t_power := p; t_index := t |}) in *.
  replace {| shared := g; threads := ths |}
    with {| shared := g; threads := <[t := (a, fresh_thread)]> ths |}
    by (rewrite list_insert_id by exact Ht; reflexivity).
  unfold run_sched. simpl.
  do 10 (erewrite sched_step_at;
         [| exact Hlt
          | unfold tstep, fresh_thread, goto, handler, shared_value, deepcopy; simpl;
            repeat (rewrite fn_lookup_insert
                    || rewrite fn_lookup_insert_ne by lia);
            rewrite ?Hreset, ?Heq, ?Hnet, ?Hsrc, ?Hdst, ?Hd, ?Hs, ?Hl, ?Hlock;
            reflexivity]).
  eexists _, _. split; [reflexivity|]. simpl. auto.
Qed.

Lemma spawn_lookup_Some config ps t p :
  ps !! t = Some p ->
  spawn config ps !! t
  = Some ({| t_config := config; t_power := p; t_index := t |}, fresh_thread).
Proof.
  intros Hp. unfold spawn. rewrite list_lookup_imap, Hp. reflexivity.
Qed.

Lemma one_by_one_records config ps (dest_of : option Q -> Element) n :
  wholesale ->
  (forall p, In p ps ->
     exists s0, (_run_single_simulation config p s0).1 = Ok (result_dict (dest_of p))) ->
  forall m g ths,
    (m + n)%nat = length ps ->
    length ths = length ps ->
    lock g = None ->
    (forall t, (m <= t)%nat -> ths !! t = spawn config ps !! t) ->
    (forall t a l, (t < m)%nat -> ths !! t = Some (a, l) -> pc l = PDone) ->
    (forall t p, (t < m)%nat -> ps !! t = Some p ->
                 results_dict g !! t = Some (result_dict (dest_of p))) ->
    let sys' := run_sched (flat_map (replicate 10) (seq m n))
                  {| shared := g; threads := ths |} in
    all_done sys' = true /\
    (forall t p, ps !! t = Some p ->
                 results_dict (shared sys') !! t = Some (result_dict (dest_of p))).
Proof.
  intros Hw Hruns.
  induction n as [|n IH]; intros m g ths Hmn Hlen Hlock Hfresh Hdone Hreg.
  - simpl. split.
    + apply all_done_lookup. simpl. intros t a l Ht. apply (Hdone t a l); [|exact Ht].
      apply lookup_lt_Some in Ht. lia.
    + intros t p Hp. apply Hreg; [|exact Hp]. apply lookup_lt_Some in Hp. lia.
  - change (flat_map (replicate 10) (seq m (S n)))
      with (replicate 10 m ++ flat_map (replicate 10) (seq (S m) n)).
    rewrite run_sched_app. cbv zeta.
    destruct (lookup_lt_is_Some_2 ps m ltac:(lia)) as [p Hp].
    destruct (Hruns p) as [s0 Hs0].
    { apply list_elem_of_In. eapply list_elem_of_lookup_2, Hp. }
    destruct (run_alone_records config p s0 _ m g ths Hw Hs0) as (g' & l' & -> & Hpc & Hl' & Hr').
    { rewrite Hfresh by lia. apply spawn_lookup_Some, Hp. }
    { exact Hlock. }
    apply IH.
    + lia.
    + rewrite length_insert. exact Hlen.
    + exact Hl'.
    + intros t Ht. rewrite list_lookup_insert_ne by lia. apply Hfresh. lia.
    + intros t a l Ht Hlook. destruct (decide (t = m)) as [->|Hne].
      * rewrite list_lookup_insert_eq in Hlook by lia. injection Hlook as <- <-.
        exact Hpc.
      * rewrite list_lookup_insert_ne in Hlook by congruence.
        apply (Hdone t a l); [lia|exact Hlook].
    + intros t q Ht Hq. rewrite Hr'. destruct (decide (t = m)) as [->|Hne].
      * rewrite lookup_insert_eq. congruence.
      * rewrite lookup_insert_ne by congruence. apply Hreg; [lia|exact Hq].
Qed.

Lemma run_threads_one_by_one config ps (dest_of : option Q -> Element) (w : World) :
  wholesale ->
  (forall p, In p ps ->
     exists s0, (_run_single_simulation config p s0).1 = Ok (result_dict (dest_of p))) ->
  exists registry,
    (run_threads (one_by_one (length ps)) config ps w).1 = Ok registry /\
    forall t p, ps !! t = Some p -> registry !! t = Some (result_dict (dest_of p)).
Proof.
  intros Hw Hruns. unfold run_threads, one_by_one, batch.
  destruct (one_by_one_records config ps dest_of (length ps) Hw Hruns 0
              (initial_shared (shared_dict w)) (spawn config ps))
    as [Hall Hreg].
  - reflexivity.
  - apply spawn_length.
  - reflexivity.
  - reflexivity.
  - intros t a l Ht. lia.
  - intros t p Ht. lia.
  - cbv zeta in Hall, Hreg. rewrite Hall. simpl. eexists. split; [reflexivity|].
    exact Hreg.
Qed.


(** X19: without interleaving the thread test passes.  On an engine whose
    [set_params] replaces the store wholesale and whose sequential runs
    return NaN-free GSNR series, [test_deep_copy_thread_local] returns
    [True] when the workers of each batch run one after the other: each
    worker then records exactly what its reference run returns, whatever
    the workers before it left in [SimParams].  A FAIL of the thread test
    on such an engine is the work of the interleaving. *)
Theorem thread_test_passes_one_by_one (w : World) (dest_of : option Q -> Element) :
  wholesale ->
  (forall p, In p (None :: map Some powers) ->
     (exists s, (_run_single_simulation _get_edfa_config p s).1
                = Ok (result_dict (dest_of p))) /\
     nan_free (snr (dest_of p)) = true) ->
  (test_deep_copy_thread_local (one_by_one NUM_WORKERS) (one_by_one NUM_WORKERS) w).1
  = Ok true.
Proof.
  intros Hw Hruns.
  assert (Hrun : forall p, In p (None :: map Some powers) -> forall s,
             (_run_single_simulation _get_edfa_config p s).1
             = Ok (result_dict (dest_of p))).
  { intros p Hp s. destruct (Hruns p Hp) as [[s0 Hs0] _].
    rewrite (run_single_wholesale _ _ s s0 Hw). exact Hs0. }
  assert (Hnan : forall p, In p (None :: map Some powers) ->
             nan_free (snr (dest_of p)) = true).
  { intros p Hp. apply (Hruns p Hp). }
  assert (Hatol : (0 <= atol_thread)%Q) by (vm_compute; discriminate).
  set (h := fun p : Q => result_dict (dest_of (Some p))).
  set (ref := result_dict (dest_of None)).
  unfold test_deep_copy_thread_local. cbv zeta.
  rewrite (bind_Ok _ _ _ ref)
    by (rewrite on_store_fst; apply Hrun; left; reflexivity).
  rewrite (bind_Ok _ _ _ (VFloat (np_mean (snr (dest_of None))))) by reflexivity.
  match goal with
  | |- context [bind (run_threads _ _ (replicate NUM_WORKERS None)) _ ?w0] =>
      destruct (run_threads_one_by_one _get_edfa_config
                  (replicate NUM_WORKERS None) dest_of w0 Hw)
        as (registry & Hreg & Hlook)
  end.
  { intros p Hp. apply list_elem_of_In, elem_of_replicate in Hp.
    destruct Hp as [-> _]. apply (Hruns None). left. reflexivity. }
  rewrite (bind_Ok _ _ _ registry) by exact Hreg.
  rewrite (bind_Ok _ _ _ (map (fun _ => true) (seq 0 NUM_WORKERS))).
  2:{ apply for_each_fst. intros i Hi s. apply in_seq in Hi.
      unfold NUM_WORKERS in Hi.
      rewrite (Hlook i None) by (apply lookup_replicate_2; unfold NUM_WORKERS; lia).
      unfold ref. rewrite (thread_same_status_result _ _ _ _ (allclose_same _ _ Hatol)).
      rewrite (Hnan None) by (left; reflexivity). reflexivity. }
  rewrite forallb_map_true.
  match goal with
  | |- context [bind (run_threads _ _ (map Some powers)) _ ?w0] =>
      destruct (run_threads_one_by_one _get_edfa_config
                  (map Some powers) dest_of w0 Hw)
        as (registry_diff & Hregd & Hlookd)
  end.
  { intros p Hp. apply (Hruns p). right. exact Hp. }
  rewrite (bind_Ok _ _ _ registry_diff) by exact Hregd.
  rewrite (bind_Ok _ _ _ (map h powers)).
  2:{ unfold reference_runs. apply for_each_fst. intros p Hp s.
      rewrite on_store_fst. apply Hrun. right. apply in_map. exact Hp. }
  rewrite (bind_Ok _ _ _ (map (fun _ => true) (seq 0 NUM_WORKERS))).
  2:{ apply for_each_fst. intros i Hi s. apply in_seq in Hi.
      unfold NUM_WORKERS in Hi.
      destruct (lookup_lt_is_Some_2 powers i ltac:(simpl; lia)) as [p Hp].
      rewrite (Hlookd i (Some p)) by (rewrite list_lookup_fmap, Hp; reflexivity).
      assert (Hin : In (Some p) (None :: map Some powers)).
      { right. apply in_map, list_elem_of_In. eapply list_elem_of_lookup_2, Hp. }
      rewrite (thread_diff_status_result (map h powers) i _ (dest_of (Some p)) _ _
                 ltac:(rewrite list_lookup_fmap, Hp; reflexivity)
                 (allclose_same _ _ Hatol)).
      rewrite (Hnan _ Hin). reflexivity. }
  rewrite forallb_map_true. reflexivity.
Qed.

End Sequential.

Lemma thread_test_passes_one_by_one_witness :
  (@test_deep_copy_thread_local good_engine (one_by_one NUM_WORKERS)
     (one_by_one NUM_WORKERS) (@world0 good_engine 7%nat)).1 = Ok true.
Proof.
  apply (@thread_test_passes_one_by_one good_engine (@world0 good_engine 7%nat)
           (fun p => flat_element (gsnr_by_power p O) 30)).
  - intros m s s'. reflexivity.
  - intros p [<-|[<-|[<-|[<-|[<-|[]]]]]];
      (split; [exists O; vm_compute; reflexivity | reflexivity]).
Defined.

(** ** What the restore leaves in the class attribute *)

Section Rebind.
Context {E : Engine}.

Lemma tstep_not_done a t g l g' l' :
  tstep a t g l = Some (g', l') -> pc l <> PDone.
Proof. intros H Hpc. unfold tstep in H. rewrite Hpc in H. discriminate. Qed.

Lemma tstep_attribute a t g l g' l' :
  tstep a t g l = Some (g', l') ->
  (pc l' <> PDone /\ SimParams_shared_dict g' = SimParams_shared_dict g) \/
  (pc l' = PDone /\ sim_params_backup l' = sim_params_backup l /\
   match sim_params_backup l with
   | Some addr => SimParams_shared_dict g' = addr
   | None => SimParams_shared_dict g' = SimParams_shared_dict g
   end).
Proof.
  intros H. tstep_cases H.
  all: simpl; unfold handler.
  all: try (left; split; [discriminate|reflexivity]).
  all: right; split; [reflexivity|].
  all: match goal with Hb : sim_params_backup _ = _ |- _ => rewrite ?Hb end.
  all: split; reflexivity.
Qed.

Lemma tstep_copy a t g l g' l' :
  tstep a t g l = Some (g', l') ->
  (next_object g <= next_object g')%nat /\
  (sim_params_backup l' = sim_params_backup l \/
   (sim_params_backup l' = Some (next_object g) /\
    next_object g' = S (next_object g))).
Proof.
  intros H. tstep_cases H.
  all: simpl; split; try lia; auto.
Qed.

Lemma sched_step_copies sys t :
  copies_fresh sys -> copies_fresh (sched_step sys t).
Proof.
  intros [Hn Hc]. unfold sched_step.
  destruct (threads sys !! t) as [[a l]|] eqn:Ht; [|split; assumption].
  destruct (tstep a t (shared sys) l) as [[g' l']|] eqn:Hstep; [|split; assumption].
  destruct (tstep_copy _ _ _ _ _ _ Hstep) as [Hle Hb].
  pose proof (lookup_lt_Some _ _ _ Ht) as Hlt.
  split; simpl; [lia|].
  intros t' a' l2 addr Hlook Haddr.
  destruct (decide (t' = t)) as [->|Hne].
  - rewrite list_lookup_insert_eq in Hlook by exact Hlt. injection Hlook as <- <-.
    destruct Hb as [Hb | [Hb Hnext]].
    + rewrite Hb in Haddr. specialize (Hc t a l addr Ht Haddr). lia.
    + rewrite Hb in Haddr. injection Haddr as <-. lia.
  - rewrite list_lookup_insert_ne in Hlook by congruence.
    specialize (Hc t' a' l2 addr Hlook Haddr). lia.
Qed.

Lemma sched_step_attribute sys t :
  attribute_ok sys -> attribute_ok (sched_step sys t).
Proof.
  intros Hattr. unfold sched_step.
  destruct (threads sys !! t) as [[a l]|] eqn:Ht; [|exact Hattr].
  destruct (tstep a t (shared sys) l) as [[g' l']|] eqn:Hstep; [|exact Hattr].
  pose proof (tstep_not_done _ _ _ _ _ _ Hstep) as Hnd.
  pose proof (lookup_lt_Some _ _ _ Ht) as Hlt.
  unfold attribute_ok. simpl.
  destruct (tstep_attribute _ _ _ _ _ _ Hstep) as [[Hpc Hsame] | (Hpc & Hbk & Hto)].
  - rewrite Hsame. destruct Hattr as [[H0 Hnone] | (t' & a' & l2 & addr & Hl & Hd & Hb & Hat)].
    + left. split; [exact H0|]. intros t' a' l2 Hlook Hdone.
      destruct (decide (t' = t)) as [->|Hne].
      * rewrite list_lookup_insert_eq in Hlook by exact Hlt.
        injection Hlook as <- <-. contradiction.
      * rewrite list_lookup_insert_ne in Hlook by congruence. eapply Hnone; eassumption.
    + right. exists t', a', l2, addr.
      assert (Hne : t' <> t) by (intros ->; rewrite Ht in Hl; injection Hl as <- <-; contradiction).
      rewrite list_lookup_insert_ne by congruence. auto.
  - destruct (sim_params_backup l) as [addr|] eqn:Hb.
    + right. exists t, a, l', addr.
      rewrite list_lookup_insert_eq by exact Hlt. rewrite Hbk. auto.
    + rewrite Hto.
      destruct Hattr as [[H0 Hnone] | (t' & a' & l2 & addr & Hl & Hd & Hb' & Hat)].
      * left. split; [exact H0|]. intros t' a' l2 Hlook Hdone.
        destruct (decide (t' = t)) as [->|Hne].
        -- rewrite list_lookup_insert_eq in Hlook by exact Hlt.
           injection Hlook as <- <-. exact Hbk.
        -- rewrite list_lookup_insert_ne in Hlook by congruence.
           eapply Hnone; eassumption.
      * right. exists t', a', l2, addr.
        assert (Hne : t' <> t) by (intros ->; rewrite Ht in Hl; injection Hl as <- <-; contradiction).
        rewrite list_lookup_insert_ne by congruence. auto.
Qed.

Lemma run_sched_rebind sched sys :
  copies_fresh sys -> attribute_ok sys ->
  copies_fresh (run_sched sched sys) /\ attribute_ok (run_sched sched sys).
Proof.
  unfold run_sched. revert sys.
  induction sched as [|t sched IH]; intros sys Hc Ha; simpl; [split; assumption|].
  apply IH; [apply sched_step_copies, Hc | apply sched_step_attribute, Ha].
Qed.

(** X20: the restore rebinds, it does not copy back.  Under every
    schedule, once a worker that took its backup has finished,
    [SimParams._shared_dict] refers to the private deep copy of a finished
    worker, an object other than the dictionary the attribute referred to
    when the batch started: the original dictionary is no longer the
    shared one. *)
Theorem restore_rebinds_to_copy (config : Config) (ps : list (option Q))
    (s : Store) (sched : list nat) (t : nat) (a : targs) (l : tlocal) (addr : nat) :
  let sys := run_sched sched (batch config ps s) in
  threads sys !! t = Some (a, l) ->
  pc l = PDone ->
  sim_params_backup l = Some addr ->
  exists t' a' l' addr',
    threads sys !! t' = Some (a', l') /\ pc l' = PDone /\
    sim_params_backup l' = Some addr' /\
    SimParams_shared_dict (shared sys) = addr' /\
    addr' <> SimParams_shared_dict (shared (batch config ps s)).
Proof.
  intros sys Ht Hpc Hb.
  destruct (run_sched_rebind sched (batch config ps s)) as [[_ Hc] Ha].
  - split; simpl; [lia|]. intros t0 a0 l0 addr0 Hl0 Hb0.
    destruct (spawn_lookup _ _ _ _ _ Hl0) as (p & _ & _ & ->). discriminate.
  - left. split; [reflexivity|]. intros t0 a0 l0 Hl0 Hd0.
    destruct (spawn_lookup _ _ _ _ _ Hl0) as (p & _ & _ & ->). discriminate.
  - fold sys in Hc, Ha.
    destruct Ha as [[_ Hnone] | (t' & a' & l' & addr' & Hl' & Hd' & Hb' & Hat)].
    + rewrite (Hnone t a l Ht Hpc) in Hb. discriminate.
    + exists t', a', l', addr'. repeat split; try assumption.
      simpl. specialize (Hc t' a' l' addr' Hl' Hb'). lia.
Qed.

End Rebind.

Lemma restore_rebinds_to_copy_witness :
  exists t' a' l' addr',
    threads (@run_sched good_engine (round_robin 20)
               (@batch good_engine _get_edfa_config (map Some powers) O)) !! t'
    = Some (a', l') /\ pc l' = PDone /\
    sim_params_backup l' = Some addr' /\
    SimParams_shared_dict
      (shared (@run_sched good_engine (round_robin 20)
                 (@batch good_engine _get_edfa_config (map Some powers) O)))
    = addr' /\
    addr' <> SimParams_shared_dict
               (shared (@batch good_engine _get_edfa_config (map Some powers) O)).
Proof.
  eapply (@restore_rebinds_to_copy good_engine _get_edfa_config (map Some powers)
            O (round_robin 20) 0%nat).
  - vm_compute. reflexivity.
  - reflexivity.
  - reflexivity.
Defined.

(** ** The helpers of the application *)

Section AppProperties.
Context {N : app.Elements}.

(** X21: [_element_type_name] returns the name of the first class of its
    tuple the node is an instance of, and [Fiber] comes before
    [RamanFiber].  When every [RamanFiber] is a [Fiber], as the class is
    declared in gnpy, a Raman fiber is named "Fiber", and a node named
    "RamanFiber" is not an instance of [RamanFiber]: the name can only come
    from the fallback [type(node).__name__]. *)
Theorem raman_fiber_named_fiber (node : app.element) :
  (forall n, app.isinstance n app.RamanFiber = true ->
             app.isinstance n app.Fiber = true) ->
  (app.isinstance node app.RamanFiber = true ->
   app.isinstance node app.Transceiver = false ->
   app._element_type_name node = "Fiber") /\
  (app._element_type_name node = "RamanFiber" ->
   app.isinstance node app.RamanFiber = false /\
   app.type_name node = "RamanFiber").
Proof.
  intros Hsub. unfold app._element_type_name. simpl. split.
  - intros Hraman Htrx. rewrite Htrx, (Hsub node Hraman). reflexivity.
  - pose proof (Hsub node) as Hnode.
    destruct (app.isinstance node app.Transceiver); [discriminate|].
    destruct (app.isinstance node app.Fiber); [discriminate|].
    destruct (app.isinstance node app.RamanFiber);
      [specialize (Hnode eq_refl); discriminate|].
    destruct (app.isinstance node app.Edfa); [discriminate|].
    destruct (app.isinstance node app.Roadm); [discriminate|].
    destruct (app.isinstance node app.Fused); [discriminate|].
    intros H. split; [reflexivity|exact H].
Qed.

(** *** Counting the nodes by type *)

Lemma counts_sum_insert_new (m : gmap string nat) k c :
  m !! k = None -> counts_sum (<[k := c]> m) = (c + counts_sum m)%nat.
Proof.
  intros Hk. unfold counts_sum. apply map_fold_insert_L; [|exact Hk].
  intros. lia.
Qed.

Lemma counts_sum_step (m : gmap string nat) k :
  counts_sum (<[k := (default 0 (m !! k) + 1)%nat]> m) = S (counts_sum m).
Proof.
  destruct (m !! k) as [v|] eqn:Hk; simpl.
  - rewrite <- (insert_delete_eq m k (v + 1)%nat).
    rewrite counts_sum_insert_new by apply lookup_delete_eq.
    assert (Hm : counts_sum (<[k := v]> (delete k m))
                 = (v + counts_sum (delete k m))%nat)
      by apply counts_sum_insert_new, lookup_delete_eq.
    rewrite (insert_delete_id m k v Hk) in Hm. lia.
  - rewrite counts_sum_insert_new by exact Hk. reflexivity.
Qed.

Lemma count_fold_sum nodes counts :
  counts_sum (fold_left count_step nodes counts)
  = (counts_sum counts + length nodes)%nat.
Proof.
  revert counts. induction nodes as [|n nodes IH]; intros counts; simpl; [lia|].
  rewrite IH. unfold count_step. rewrite counts_sum_step. lia.
Qed.

Lemma count_fold_lookup nodes counts t :
  default 0%nat (fold_left count_step nodes counts !! t)
  = (default 0%nat (counts !! t)
     + length (List.filter (fun n => String.eqb (app._element_type_name n) t) nodes))%nat.
Proof.
  revert counts. induction nodes as [|n nodes IH]; intros counts; simpl; [lia|].
  rewrite IH. unfold count_step.
  destruct (String.eqb_spec (app._element_type_name n) t) as [->|Hne].
  - rewrite lookup_insert_eq. simpl. lia.
  - rewrite lookup_insert_ne by exact Hne. reflexivity.
Qed.

Lemma count_fold_positive nodes counts :
  (forall t c, counts !! t = Some c -> (1 <= c)%nat) ->
  forall t c, fold_left count_step nodes counts !! t = Some c -> (1 <= c)%nat.
Proof.
  revert counts. induction nodes as [|n nodes IH]; intros counts Hpos; simpl;
    [exact Hpos|].
  apply IH. intros t c. unfold count_step.
  destruct (decide (app._element_type_name n = t)) as [->|Hne].
  - rewrite lookup_insert_eq. intros [= <-]. lia.
  - rewrite lookup_insert_ne by exact Hne. apply Hpos.
Qed.

(** X22: the per-type counts of [tutorial_1] add up to the number of
    nodes; the count shown for a type is the number of nodes
    [_element_type_name] gives that name, and no type is shown with a count
    of zero. *)
Theorem type_counts_add_up (nodes : list app.element) :
  map_fold (fun _ c acc => (c + acc)%nat) 0%nat (app.type_counts nodes)
  = length nodes /\
  (forall t,
      default 0%nat (app.type_counts nodes !! t)
      = length (List.filter
                  (fun n => String.eqb (app._element_type_name n) t) nodes)) /\
  (forall t c, app.type_counts nodes !! t = Some c -> (1 <= c)%nat).
Proof.
  change (app.type_counts nodes) with (fold_left count_step nodes ∅).
  split; [|split].
  - fold (counts_sum (fold_left count_step nodes ∅)).
    rewrite count_fold_sum. unfold counts_sum. rewrite map_fold_empty. reflexivity.
  - intros t. rewrite count_fold_lookup, lookup_empty. reflexivity.
  - apply count_fold_positive. intros t c Ht. rewrite lookup_empty in Ht.
    discriminate.
Qed.


(** *** The transceivers offered as endpoints *)

Lemma put_fold_lookup nodes d uid n :
  fold_left put_node nodes d !! uid = Some n ->
  d !! uid = Some n \/ (In n nodes /\ app.element_uid n = uid).
Proof.
  revert d. induction nodes as [|m nodes IH]; intros d H; simpl in H; [auto|].
  destruct (IH _ H) as [Hd | [Hin Hu]].
  - unfold put_node in Hd.
    destruct (decide (app.element_uid m = uid)) as [He|Hne].
    + rewrite He, lookup_insert_eq in Hd. injection Hd as <-.
      right. split; [left; reflexivity|exact He].
    + rewrite lookup_insert_ne in Hd by exact Hne. auto.
  - right. split; [right; exact Hin|exact Hu].
Qed.

Lemma put_fold_key nodes d uid :
  is_Some (d !! uid) \/ (exists n, In n nodes /\ app.element_uid n = uid) ->
  is_Some (fold_left put_node nodes d !! uid).
Proof.
  revert d. induction nodes as [|m nodes IH]; intros d H; simpl.
  - destruct H as [H | (n & [] & _)]. exact H.
  - apply IH. unfold put_node.
    destruct (decide (app.element_uid m = uid)) as [He|Hne].
    + left. rewrite He, lookup_insert_eq. eauto.
    + rewrite lookup_insert_ne by exact Hne.
      destruct H as [H | (n & [<-|Hin] & Hu)]; [auto|contradiction|eauto].
Qed.

Lemma leb_total : Total (fun a b : string => Is_true (String.leb a b)).
Proof.
  intros a b. destruct (String.leb_total a b) as [H|H]; rewrite H; simpl; auto.
Qed.

Lemma dest_options_length uids source :
  NoDup uids -> In source uids ->
  S (length (app.dest_options uids source)) = length uids.
Proof.
  unfold app.dest_options. induction 1 as [|u uids Hnin Hnd IH]; intros Hin;
    [destruct Hin|]. simpl.
  destruct (String.eqb_spec u source) as [->|Hne]; simpl.
  - f_equal. clear IH Hin. induction uids as [|v uids IHu]; [reflexivity|].
    simpl. destruct (String.eqb_spec v source) as [->|_]; simpl.
    + exfalso. apply Hnin. left.
    + f_equal. apply IHu.
      * intros Hs. apply Hnin. right. exact Hs.
      * inversion Hnd; assumption.
  - f_equal. apply IH. destruct Hin as [->|Hin]; [contradiction|exact Hin].
Qed.

(** X23: the endpoints [tutorial_2] and [tutorial_3] offer.  The sorted
    uids hold no duplicate and are exactly the uids of the transceivers of
    the network; [_get_transceivers] maps each uid to a transceiver with
    that uid; and for a source picked among them the destination options
    are all the other uids: one option fewer, the source never among
    them. *)
Theorem endpoint_choices (nodes : list app.element) :
  let uids := app.trx_uids nodes in
  NoDup uids /\
  Sorted (fun a b => Is_true (String.leb a b)) uids /\
  (forall uid, In uid uids <->
     exists n, In n nodes /\ app.isinstance n app.Transceiver = true /\
               app.element_uid n = uid) /\
  (forall uid n, app._get_transceivers nodes !! uid = Some n ->
     In n nodes /\ app.isinstance n app.Transceiver = true /\
     app.element_uid n = uid) /\
  (forall source, In source uids ->
     S (length (app.dest_options uids source)) = length uids /\
     ~ In source (app.dest_options uids source) /\
     (forall d, In d (app.dest_options uids source) -> In d uids /\ d <> source)).
Proof.
  intros uids.
  assert (Hperm : uids ≡ₚ map fst (map_to_list (app._get_transceivers nodes)))
    by apply merge_sort_Permutation.
  assert (Hnd : NoDup uids).
  { rewrite Hperm. apply NoDup_fst_map_to_list. }
  assert (Hkeys : forall uid, In uid uids <->
                              is_Some (app._get_transceivers nodes !! uid)).
  { intros uid. rewrite <- list_elem_of_In, Hperm, list_elem_of_fmap. split.
    - intros ([k n] & -> & Hkn). apply elem_of_map_to_list in Hkn. eauto.
    - intros [n Hn]. exists (uid, n). split; [reflexivity|].
      apply elem_of_map_to_list. exact Hn. }
  assert (Hget : forall uid n, app._get_transceivers nodes !! uid = Some n ->
     In n nodes /\ app.isinstance n app.Transceiver = true /\
     app.element_uid n = uid).
  { intros uid n Hn.
    apply (put_fold_lookup _ ∅) in Hn. destruct Hn as [Hn | [Hin Hu]].
    - rewrite lookup_empty in Hn. discriminate.
    - apply filter_In in Hin. destruct Hin as [Hin Ht]. auto. }
  split; [exact Hnd|]. split; [apply Sorted_merge_sort, leb_total|].
  split; [|split; [exact Hget|]].
  - intros uid. rewrite Hkeys. split.
    + intros [n Hn]. exists n. apply Hget, Hn.
    + intros (n & Hin & Ht & Hu). apply (put_fold_key _ ∅). right.
      exists n. split; [|exact Hu]. apply filter_In. auto.
  - intros source Hsrc. split; [apply dest_options_length; assumption|].
    unfold app.dest_options. split.
    + intros Hin. apply filter_In in Hin. destruct Hin as [_ Hne].
      rewrite String.eqb_refl in Hne. discriminate.
    + intros d Hin. apply filter_In in Hin. destruct Hin as [Hin Hne].
      split; [exact Hin|]. intros ->. rewrite String.eqb_refl in Hne. discriminate.
Qed.

End AppProperties.

Lemma toy_elements_hierarchy (n : @app.element toy_elements) :
  @app.isinstance toy_elements n app.RamanFiber = true ->
  @app.isinstance toy_elements n app.Fiber = true.
Proof. destruct n as [u []]; simpl; intros H; try discriminate; reflexivity. Qed.

Lemma raman_fiber_named_fiber_witness :
  @app._element_type_name toy_elements ("Span1", app.RamanFiber) = "Fiber".
Proof.
  destruct (@raman_fiber_named_fiber toy_elements ("Span1", app.RamanFiber)
              toy_elements_hierarchy) as [H _].
  apply H; reflexivity.
Defined.

(** ** What makes the tests raise *)

Section TestFailures.
Context {E : Engine}.

Lemma run_single_is_result config p s r :
  (_run_single_simulation config p s).1 = Ok r -> is_result r.
Proof.
  intros H. destruct (run_single_Ok_inv _ _ _ _ H)
    as (eq & net & src & dst & net' & req & ref_req & s1 & path & s2 & dest & _ & _
        & _ & _ & _ & _ & _ & ->).
  exists dest. reflexivity.
Qed.


Lemma allclose_lists_Raise xs ys atol e :
  allclose (VList xs) (VList ys) atol = Raise e -> e = ValueError.
Proof.
  unfold allclose, as_array. destruct (broadcast xs ys); intros H; congruence.
Qed.

Lemma series_match_result_Raise {S} key atol d dref (s : S) e :
  key = "gsnr_values" \/ key = "osnr_values" ->
  (series_match key atol (result_dict d) (result_dict dref) s).1 = Raise e ->
  e = ValueError.
Proof.
  intros [-> | ->].
  - rewrite series_match_gsnr. simpl. apply allclose_lists_Raise.
  - rewrite series_match_osnr. simpl. apply allclose_lists_Raise.
Qed.




Lemma reference_runs_results config ps w rs w' :
  reference_runs config ps w = (Ok rs, w') -> Forall is_result rs.
Proof.
  unfold reference_runs. intros H. apply for_each_Ok_Forall2 in H.
  induction H as [|p r ps rs (sa & sb & Hr) _ IH]; constructor; [|exact IH].
  eapply run_single_is_result. rewrite <- on_store_fst. rewrite Hr. reflexivity.
Qed.

Lemma reference_runs_Raise config ps w e :
  (reference_runs config ps w).1 = Raise e ->
  exists p s, (_run_single_simulation config p s).1 = Raise e.
Proof.
  unfold reference_runs. intros H.
  apply for_each_Raise in H as (p & s0 & _ & H).
  rewrite on_store_fst in H. eauto.
Qed.




Lemma tstep_entries a t g l g' l' :
  (forall e, pc l = PAcquire e \/ pc l = PStore e -> is_entry e) ->
  (forall i r, results_dict g !! i = Some r -> is_entry r) ->
  tstep a t g l = Some (g', l') ->
  (forall e, pc l' = PAcquire e \/ pc l' = PStore e -> is_entry e) /\
  (forall i r, results_dict g' !! i = Some r -> is_entry r).
Proof.
  intros Hl Hg H. tstep_cases H.
  all: simpl; unfold handler; split; try exact Hg.
  all: try (intros e' [He|He]; try discriminate; injection He as <-).
  all: try (right; eexists; reflexivity).
  all: try (left; eexists; reflexivity).
  all: try (apply Hl; auto).
  intros i r. destruct (decide (t_index a = i)) as [<-|Hne].
  - rewrite lookup_insert_eq. intros [= <-]. apply Hl. auto.
  - rewrite lookup_insert_ne by exact Hne. apply Hg.
Qed.

Lemma batch_entries config ps s : entries_shaped (batch config ps s).
Proof.
  split; simpl.
  - intros i r Hi. rewrite lookup_empty in Hi. discriminate.
  - intros t a l e Hl. destruct (spawn_lookup _ _ _ _ _ Hl) as (p & _ & _ & ->).
    intros [H|H]; discriminate.
Qed.

Lemma sched_step_entries sys t :
  entries_shaped sys -> entries_shaped (sched_step sys t).
Proof.
  intros [Hreg Hth]. unfold sched_step.
  destruct (threads sys !! t) as [[a l]|] eqn:Ht; [|split; assumption].
  destruct (tstep a t (shared sys) l) as [[g' l']|] eqn:Hstep; [|split; assumption].
  destruct (tstep_entries a t _ l g' l' (fun e => Hth t a l e Ht) Hreg Hstep)
    as [Hl' Hg'].
  split; simpl; [exact Hg'|].
  intros t' a' l2 e Hlook. destruct (decide (t' = t)) as [->|Hne].
  - rewrite list_lookup_insert_eq in Hlook by (eapply lookup_lt_Some; eassumption).
    injection Hlook as <- <-. apply Hl'.
  - rewrite list_lookup_insert_ne in Hlook by congruence. eapply Hth, Hlook.
Qed.

Lemma run_threads_entries sched config ps (w w' : World) registry :
  run_threads sched config ps w = (Ok registry, w') ->
  forall i r, registry !! i = Some r -> is_entry r.
Proof.
  unfold run_threads.
  assert (Hsh : entries_shaped (run_sched sched (batch config ps (shared_dict w)))).
  { unfold run_sched. generalize (batch_entries config ps (shared_dict w)).
    generalize (batch config ps (shared_dict w)).
    induction sched as [|t sched IH]; intros sys Hsys; simpl; [exact Hsys|].
    apply IH, sched_step_entries, Hsys. }
  destruct (all_done _); intros [= <- _]. apply Hsh.
Qed.


Lemma run_threads_no_raise sched config ps (w : World) e :
  (run_threads sched config ps w).1 <> Raise e.
Proof. unfold run_threads. destruct (all_done _); discriminate. Qed.

Lemma thread_same_status_Raise reference result w e :
  is_result reference ->
  (forall r, result = Some r -> is_entry r) ->
  (thread_same_status reference result w).1 = Raise e -> e = ValueError.
Proof.
  intros [dref ->] Hres. unfold thread_same_status.
  destruct result as [r|]; [|discriminate].
  destruct (Hres r eq_refl) as [[d ->] | [e0 ->]].
  - rewrite result_dict_no_error. intros H.
    apply bind_Raise in H as [H | (? & ? & _ & H)].
    { eapply series_match_result_Raise, H. auto. }
    apply bind_Raise in H as [H | (? & ? & _ & H)]; [discriminate|].
    apply bind_Raise in H as [H | (? & ? & _ & H)]; discriminate.
  - discriminate.
Qed.

Lemma thread_diff_status_Raise refs i result w e :
  Forall is_result refs ->
  (forall r, result = Some r -> is_entry r) ->
  (thread_diff_status refs i result w).1 = Raise e ->
  e = ValueError \/ e = IndexError.
Proof.
  intros Hrefs Hres. unfold thread_diff_status.
  destruct result as [r|]; [|discriminate].
  destruct (Hres r eq_refl) as [[d ->] | [e0 ->]]; [|discriminate].
  rewrite result_dict_no_error. intros H.
  apply bind_Raise in H as [H | (ref & ? & Href & H)].
  { right. unfold lift, getitem_list in H. destruct (refs !! i); [discriminate|].
    simpl in H. congruence. }
  assert (Rref : is_result ref).
  { unfold lift, getitem_list in Href. destruct (refs !! i) as [ref'|] eqn:Hi;
      [|discriminate]. injection Href as <- _.
    rewrite Forall_forall in Hrefs. eapply Hrefs, list_elem_of_lookup_2, Hi. }
  destruct Rref as [dref ->]. left.
  apply bind_Raise in H as [H | (? & ? & _ & H)].
  { eapply series_match_result_Raise, H. auto. }
  apply bind_Raise in H as [H | (? & ? & _ & H)]; [discriminate|].
  apply bind_Raise in H as [H | (? & ? & _ & H)]; [discriminate|].
  apply bind_Raise in H as [H | (? & ? & _ & H)]; discriminate.
Qed.

Lemma reference_runs_length config ps w rs w' :
  reference_runs config ps w = (Ok rs, w') -> length rs = length ps.
Proof.
  unfold reference_runs. intros H. apply for_each_Ok_Forall2 in H.
  symmetry. eapply Forall2_length, H.
Qed.

(** X25: what can make the thread test raise.  Under every schedule, when
    [test_deep_copy_thread_local] raises, either a sequential reference run
    raised that exception, or the exception is the [ValueError] of
    [allclose] on series of lengths that do not broadcast.  What the
    workers do never raises in the coordinator: their exceptions are
    entries of the registry, and every entry has the keys the checks
    read. *)
Theorem thread_test_raises_only (sched sched_diff : list nat) (w : World) (e : exn) :
  (test_deep_copy_thread_local sched sched_diff w).1 = Raise e ->
  (exists p s, (_run_single_simulation _get_edfa_config p s).1 = Raise e) \/
  e = ValueError.
Proof.
  unfold test_deep_copy_thread_local. cbv zeta. intros H.
  apply bind_Raise in H as [H | (reference & w1 & Href & H)].
  { left. rewrite on_store_fst in H. eauto. }
  assert (Rref : is_result reference).
  { eapply run_single_is_result. rewrite <- on_store_fst, Href. reflexivity. }
  apply bind_Raise in H as [H | (? & w2 & _ & H)].
  { destruct Rref as [d ->]. discriminate. }
  apply bind_Raise in H as [H | (results & w3 & Hres & H)].
  { exfalso. eapply run_threads_no_raise, H. }
  apply bind_Raise in H as [H | (statuses & w4 & _ & H)].
  { right. apply for_each_Raise in H as (i & s0 & _ & H).
    eapply thread_same_status_Raise; [exact Rref| |exact H].
    intros r Hr. eapply run_threads_entries; eassumption. }
  apply bind_Raise in H as [H | (results_diff & w5 & Hresd & H)].
  { exfalso. eapply run_threads_no_raise, H. }
  apply bind_Raise in H as [H | (references_diff & w6 & Hrefs & H)].
  { left. eapply reference_runs_Raise, H. }
  pose proof (reference_runs_length _ _ _ _ _ Hrefs) as Hlen.
  apply reference_runs_results in Hrefs.
  apply bind_Raise in H as [H | (statuses_diff & w7 & _ & H)].
  { right. apply for_each_Raise in H as (i & s0 & Hi & H).
    apply in_seq in Hi.
    assert (Hent : forall r, results_diff !! i = Some r -> is_entry r)
      by (intros r Hr; eapply run_threads_entries; eassumption).
    destruct (thread_diff_status_Raise _ _ _ _ _ Hrefs Hent H) as [He | He];
      [exact He|]. exfalso.
    (* the reference of worker i exists *)
    unfold thread_diff_status in H.
    destruct (results_diff !! i) as [r|]; [|discriminate].
    destruct (Hent r eq_refl) as [[d ->] | [e0 ->]]; [|discriminate].
    rewrite result_dict_no_error in H.
    destruct (lookup_lt_is_Some_2 references_diff i) as [ref Hi'].
    { rewrite Hlen. unfold powers, NUM_WORKERS in *. simpl. simpl in Hi. lia. }
    rewrite Forall_forall in Hrefs.
    destruct (Hrefs ref) as [dref ->]; [eapply list_elem_of_lookup_2, Hi'|].
    apply bind_Raise in H as [H | (ref' & ? & Hr' & H)].
    { unfold lift, getitem_list in H. rewrite Hi' in H. discriminate. }
    unfold lift, getitem_list in Hr'. rewrite Hi' in Hr'. injection Hr' as <- _.
    apply bind_Raise in H as [H | (? & ? & _ & H)].
    { apply (series_match_result_Raise "gsnr_values") in H; [|auto].
      rewrite H in He. discriminate. }
    apply bind_Raise in H as [H | (? & ? & _ & H)]; [discriminate|].
    apply bind_Raise in H as [H | (? & ? & _ & H)]; [discriminate|].
    apply bind_Raise in H as [H | (? & ? & _ & H)]; discriminate. }
  apply bind_Raise in H as [H | (? & w8 & _ & H)].
  { destruct (forallb id statuses && forallb id statuses_diff); discriminate. }
  apply bind_Raise in H as [H | (? & w9 & _ & H)]; discriminate.
Qed.

End TestFailures.


Lemma thread_test_raises_only_witness :
  (exists p s, (@_run_single_simulation fragile_engine _get_edfa_config p s).1
               = Raise ServiceError) \/
  ServiceError = ValueError.
Proof.
  apply (@thread_test_raises_only fragile_engine (round_robin 20) (round_robin 20)
           (@world0 fragile_engine O)).
  vm_compute. reflexivity.
Defined.

(** ** The tests come to an end *)

Section TestsTerminate.
Context {E : Engine}.

Lemma bind_Hang {S A B} (c : ST S A) (k : A -> ST S B) s :
  (bind c k s).1 = Hang ->
  (c s).1 = Hang \/ exists a s1, c s = (Ok a, s1) /\ (k a s1).1 = Hang.
Proof.
  unfold bind. destruct (c s) as [[a|e'|] s1]; simpl; intros H.
  - right. eauto.
  - discriminate.
  - left. reflexivity.
Qed.

Lemma for_each_Hang {S A B} (body : A -> ST S B) l s :
  (for_each body l s).1 = Hang ->
  exists x s0, In x l /\ (body x s0).1 = Hang.
Proof.
  revert s. induction l as [|x l IH]; intros s H; [discriminate|].
  simpl in H. apply bind_Hang in H as [H | (y & s1 & _ & H)].
  - exists x, s. split; [left; reflexivity | exact H].
  - apply bind_Hang in H as [H | (ys & s2 & _ & H)]; [|discriminate].
    destruct (IH _ H) as (x' & s0 & Hin & Hx). exists x', s0.
    split; [right; exact Hin | exact Hx].
Qed.

Lemma getitem_no_hang d k : getitem d k <> Hang.
Proof. unfold getitem. destruct (d !! k); discriminate. Qed.

Lemma allclose_no_hang a b atol : allclose a b atol <> Hang.
Proof.
  unfold allclose. destruct a, b; simpl; try discriminate;
    match goal with |- context [broadcast ?x ?y] => destruct (broadcast x y) end;
    discriminate.
Qed.

Lemma series_match_no_hang {S} key atol result reference (s : S) :
  (series_match key atol result reference s).1 <> Hang.
Proof.
  unfold series_match. intros H.
  apply bind_Hang in H as [H | (? & ? & _ & H)]; [eapply getitem_no_hang, H|].
  apply bind_Hang in H as [H | (? & ? & _ & H)]; [eapply getitem_no_hang, H|].
  eapply allclose_no_hang, H.
Qed.

Lemma run_single_returns config p s :
  engine_returns -> (_run_single_simulation config p s).1 <> Hang.
Proof.
  intros (Heq & Hnet & Hdes & Hsim). unfold _run_single_simulation. intros H.
  apply bind_Hang in H as [H | (eq & ? & _ & H)]; [eapply Heq, H|].
  apply bind_Hang in H as [H | (net & ? & _ & H)]; [eapply Hnet, H|].
  apply bind_Hang in H as [H | (? & ? & _ & H)]; [discriminate|].
  apply bind_Hang in H as [H | (src & ? & _ & H)].
  { unfold lift, getitem_list in H. simpl in H.
    destruct (_find_transceivers net !! 0%nat); discriminate. }
  apply bind_Hang in H as [H | (dst & ? & _ & H)].
  { unfold lift, getitem_list in H. simpl in H.
    destruct (_find_transceivers net !! 1%nat); discriminate. }
  apply bind_Hang in H as [H | ([[net' req] ref_req] & ? & _ & H)];
    [eapply Hdes, H|].
  apply bind_Hang in H as [H | (path & ? & _ & H)]; [eapply Hsim, H|].
  apply bind_Hang in H as [H | (? & ? & _ & H)]; [|discriminate].
  unfold lift, getitem_last in H. simpl in H. destruct (last path); discriminate.
Qed.

Lemma pool_map_returns ws k tasks :
  engine_returns -> pool_map ws k tasks <> Hang.
Proof.
  intros Hret. revert k. induction tasks as [|[config p] tasks IH]; intros k;
    simpl; [discriminate|].
  pose proof (run_single_returns config p (ws k) Hret) as Hr.
  specialize (IH (S k)).
  destruct (_run_single_simulation config p (ws k)) as [[r|e|] s1]; simpl in *;
    destruct (pool_map ws (S k) tasks); congruence.
Qed.

Lemma guarded_pool_map_returns ws tasks (w : World) :
  engine_returns -> (guarded_pool_map ws tasks w).1 <> Hang.
Proof.
  intros Hret. pose proof (guarded_pool_map_cases ws tasks w) as Hc.
  pose proof (pool_map_returns ws 0 tasks Hret) as Hp.
  destruct (pool_map ws 0 tasks) as [rs|e|].
  - rewrite Hc. discriminate.
  - destruct Hc as [w' ->]. discriminate.
  - congruence.
Qed.

Lemma reference_runs_returns config ps w :
  engine_returns -> (reference_runs config ps w).1 <> Hang.
Proof.
  intros Hret H. unfold reference_runs in H.
  apply for_each_Hang in H as (p & s0 & _ & H).
  rewrite on_store_fst in H. eapply run_single_returns; eassumption.
Qed.

Lemma process_test_returns (ws ws_diff : nat -> Store) (w : World) :
  engine_returns ->
  (test_process_pool_isolation ws ws_diff w).1 <> Hang.
Proof.
  intros Hret H. unfold test_process_pool_isolation in H. cbv zeta in H.
  apply bind_Hang in H as [H | (reference & w1 & _ & H)].
  { rewrite on_store_fst in H. eapply run_single_returns; eassumption. }
  apply bind_Hang in H as [H | (? & w2 & _ & H)]; [eapply getitem_no_hang, H|].
  apply bind_Hang in H as [H | (pooled & w3 & _ & H)];
    [eapply guarded_pool_map_returns; eassumption|].
  destruct pooled as [results|]; [|discriminate].
  apply bind_Hang in H as [H | (statuses & w4 & _ & H)].
  { apply for_each_Hang in H as (r & s0 & _ & H). unfold process_same_status in H.
    apply bind_Hang in H as [H | (? & ? & _ & H)]; [eapply series_match_no_hang, H|].
    apply bind_Hang in H as [H | (? & ? & _ & H)]; [eapply series_match_no_hang, H|].
    apply bind_Hang in H as [H | (? & ? & _ & H)]; [eapply getitem_no_hang, H|].
    apply bind_Hang in H as [H | (? & ? & _ & H)]; [eapply getitem_no_hang, H|].
    apply bind_Hang in H as [H | (? & ? & _ & H)]; discriminate. }
  apply bind_Hang in H as [H | (pooled_diff & w5 & _ & H)];
    [eapply guarded_pool_map_returns; eassumption|].
  destruct pooled_diff as [results_diff|]; [|discriminate].
  apply bind_Hang in H as [H | (gsnr_vals & w6 & _ & H)].
  { apply for_each_Hang in H as (r & s0 & _ & H).
    apply bind_Hang in H as [H | (v & ? & _ & H)]; [eapply getitem_no_hang, H|].
    destruct v; discriminate. }
  apply bind_Hang in H as [H | (? & w7 & _ & H)].
  { destruct (all_same gsnr_vals); discriminate. }
  apply bind_Hang in H as [H | (references_diff & w8 & _ & H)];
    [eapply reference_runs_returns; eassumption|].
  apply bind_Hang in H as [H | (matches & w9 & _ & H)].
  { apply for_each_Hang in H as ([r ref] & s0 & _ & H).
    unfold process_diff_status in H.
    apply bind_Hang in H as [H | (g & ? & _ & H)]; [eapply series_match_no_hang, H|].
    destruct g; [discriminate|].
    apply bind_Hang in H as [H | (? & ? & _ & H)]; [eapply getitem_no_hang, H|].
    apply bind_Hang in H as [H | (? & ? & _ & H)]; [eapply getitem_no_hang, H|].
    apply bind_Hang in H as [H | (? & ? & _ & H)]; discriminate. }
  apply bind_Hang in H as [H | (? & w10 & _ & H)].
  { destruct (forallb id matches); discriminate. }
  apply bind_Hang in H as [H | (? & w11 & _ & H)]; discriminate.
Qed.


Lemma run_threads_one_by_one_returns config ps (w : World) :
  engine_returns ->
  (run_threads (one_by_one (length ps)) config ps w).1 <> Hang.
Proof.
  intros Hret. unfold run_threads.
  destruct (one_by_one_run (length ps) 0 (batch config ps (shared_dict w)) Hret)
    as (_ & _ & Hdone).
  - apply batch_inv_initial.
  - reflexivity.
  - simpl. rewrite spawn_length. lia.
  - intros t a l Hlt. lia.
  - fold (one_by_one (length ps)) in Hdone.
    match goal with
    | |- context [all_done ?sys] =>
        assert (Hall : all_done sys = true)
    end.
    { apply all_done_lookup. intros t a l Ht. apply (Hdone t a l); [|exact Ht].
      simpl. apply lookup_lt_Some in Ht.
      rewrite run_sched_length in Ht. simpl in Ht. rewrite spawn_length in Ht.
      exact Ht. }
    rewrite Hall. discriminate.
Qed.

Lemma thread_statuses_return {A} (body : A -> ST World bool) l (w : World) :
  (forall x s, (body x s).1 <> Hang) -> (for_each body l w).1 <> Hang.
Proof.
  intros Hb H. apply for_each_Hang in H as (x & s0 & _ & H). eapply Hb, H.
Qed.

Lemma thread_same_status_returns reference result (w : World) :
  (thread_same_status reference result w).1 <> Hang.
Proof.
  unfold thread_same_status. destruct result as [r|]; [|discriminate].
  destruct (contains r "error"); intros H.
  - apply bind_Hang in H as [H | (? & ? & _ & H)]; [eapply getitem_no_hang, H|].
    discriminate.
  - apply bind_Hang in H as [H | (? & ? & _ & H)]; [eapply series_match_no_hang, H|].
    apply bind_Hang in H as [H | (? & ? & _ & H)]; [eapply getitem_no_hang, H|].
    apply bind_Hang in H as [H | (? & ? & _ & H)]; discriminate.
Qed.

Lemma thread_diff_status_returns refs i result (w : World) :
  (thread_diff_status refs i result w).1 <> Hang.
Proof.
  unfold thread_diff_status. destruct result as [r|]; [|discriminate].
  destruct (contains r "error"); [discriminate|]. intros H.
  apply bind_Hang in H as [H | (? & ? & _ & H)].
  { unfold lift, getitem_list in H. destruct (refs !! i); discriminate. }
  apply bind_Hang in H as [H | (? & ? & _ & H)]; [eapply series_match_no_hang, H|].
  apply bind_Hang in H as [H | (? & ? & _ & H)]; [eapply getitem_no_hang, H|].
  apply bind_Hang in H as [H | (? & ? & _ & H)]; [eapply getitem_no_hang, H|].
  apply bind_Hang in H as [H | (? & ? & _ & H)]; discriminate.
Qed.

(** X26: the two tests come to an end.  When every engine call returns
    or raises, [test_process_pool_isolation] returns a verdict or raises,
    and so does [test_deep_copy_thread_local] when the workers of each
    batch run one after the other: nothing in the harness waits for
    anything but the engine. *)
Theorem tests_terminate (ws ws_diff : nat -> Store) (w : World) :
  engine_returns ->
  (test_process_pool_isolation ws ws_diff w).1 <> Hang /\
  (test_deep_copy_thread_local (one_by_one NUM_WORKERS) (one_by_one NUM_WORKERS) w).1
  <> Hang.
Proof.
  intros Hret. split; [apply process_test_returns, Hret|].
  intros H. unfold test_deep_copy_thread_local in H. cbv zeta in H.
  apply bind_Hang in H as [H | (reference & w1 & _ & H)].
  { rewrite on_store_fst in H. eapply run_single_returns; eassumption. }
  apply bind_Hang in H as [H | (? & w2 & _ & H)]; [eapply getitem_no_hang, H|].
  apply bind_Hang in H as [H | (results & w3 & _ & H)].
  { eapply (run_threads_one_by_one_returns _get_edfa_config
              (replicate NUM_WORKERS None)); eassumption. }
  apply bind_Hang in H as [H | (statuses & w4 & _ & H)].
  { eapply thread_statuses_return; [|exact H].
    intros i s. apply thread_same_status_returns. }
  apply bind_Hang in H as [H | (results_diff & w5 & _ & H)].
  { eapply (run_threads_one_by_one_returns _get_edfa_config (map Some powers));
      eassumption. }
  apply bind_Hang in H as [H | (references_diff & w6 & _ & H)];
    [eapply reference_runs_returns; eassumption|].
  apply bind_Hang in H as [H | (statuses_diff & w7 & _ & H)].
  { eapply thread_statuses_return; [|exact H].
    intros i s. apply thread_diff_status_returns. }
  apply bind_Hang in H as [H | (? & w8 & _ & H)].
  { destruct (forallb id statuses && forallb id statuses_diff); discriminate. }
  apply bind_Hang in H as [H | (? & w9 & _ & H)]; discriminate.
Qed.

End TestsTerminate.

Lemma tests_terminate_witness :
  (@test_process_pool_isolation good_engine (fun _ => O) (fun _ => O)
     (@world0 good_engine O)).1 <> Hang /\
  (@test_deep_copy_thread_local good_engine (one_by_one NUM_WORKERS)
     (one_by_one NUM_WORKERS) (@world0 good_engine O)).1 <> Hang.
Proof.
  apply (@tests_terminate good_engine (fun _ => O) (fun _ => O)
           (@world0 good_engine O)).
  exact good_engine_returns.
Defined.

